(** * Minor Dai: a shallow embedding of the simulation core

    The game keeps one [GameState] snapshot and replaces it through
    [setGameState] updaters.  Every updater is embedded as a function
    [GameState -> GameState]; a handler runs on the latest snapshot (the
    rendered [gameState] and the updater's [prev] are the same value) and
    its updaters are applied to it in the order they are queued.  What a
    handler reads between queueing an updater and returning depends on
    whether React has run that updater by then: see [handleCanvasClick].

    Numbers: tile durabilities, health points, cooldowns, counters and
    particle lives only ever hold integers and are embedded in [Z].
    Pixel coordinates, velocities and the screen-shake magnitude are
    embedded in [Q] with exact arithmetic (every finite double is a
    rational).  [Math.hypot a b < r] is read as [a*a + b*b < r*r].
    [Math.random] is an explicit stream of draws, and the unit heading
    [(cos t, sin t)] with [t = atan2 dy dx] is a parameter of the tick.
    Sound cues do not touch the snapshot and are left out. *)

From Stdlib Require Import ZArith QArith Qround Lqa String List Lia Bool.
From Stdlib Require Import DecimalString.
From stdpp Require Import base list.
Import ListNotations.

#[local] Open Scope Z_scope.

(** ** types.ts *)

Inductive GameStatus := MENU | PLAYING | WON | LOST.
Inductive TileType := AIR | DIRT | STONE | GOLD | SHARD | DIAMOND | GRASS.
Inductive EntityType := PLAYER | ZOMBIE | CREEPER.

#[global] Instance GameStatus_eq_dec : EqDecision GameStatus.
Proof. solve_decision. Defined.
#[global] Instance TileType_eq_dec : EqDecision TileType.
Proof. solve_decision. Defined.

Module Vector2.
Record t := mk { x : Q; y : Q }.
End Vector2.
Abbreviation Vector2 := Vector2.t.

Module Entity.
Record t := mk {
  id : string;
  pos : Vector2;
  targetPos : Vector2;
  type : EntityType;
  health : Z;
  maxHealth : Z;
  direction : Z;
  isAttacking : option bool;
  attackCooldown : option Z;
  damageCooldown : option Z
}.

Definition with_pos (p : Vector2) (e : t) : t :=
  mk (id e) p (targetPos e) (type e) (health e) (maxHealth e) (direction e)
     (isAttacking e) (attackCooldown e) (damageCooldown e).
Definition with_health (h : Z) (e : t) : t :=
  mk (id e) (pos e) (targetPos e) (type e) h (maxHealth e) (direction e)
     (isAttacking e) (attackCooldown e) (damageCooldown e).
Definition with_direction (d : Z) (e : t) : t :=
  mk (id e) (pos e) (targetPos e) (type e) (health e) (maxHealth e) d
     (isAttacking e) (attackCooldown e) (damageCooldown e).
Definition with_isAttacking (b : option bool) (e : t) : t :=
  mk (id e) (pos e) (targetPos e) (type e) (health e) (maxHealth e) (direction e)
     b (attackCooldown e) (damageCooldown e).
Definition with_attackCooldown (c : option Z) (e : t) : t :=
  mk (id e) (pos e) (targetPos e) (type e) (health e) (maxHealth e) (direction e)
     (isAttacking e) c (damageCooldown e).
Definition with_damageCooldown (c : option Z) (e : t) : t :=
  mk (id e) (pos e) (targetPos e) (type e) (health e) (maxHealth e) (direction e)
     (isAttacking e) (attackCooldown e) c.
End Entity.
Abbreviation Entity := Entity.t.

Module Particle.
Record t := mk {
  pos : Vector2;
  vel : Vector2;
  life : Z;
  color : string;
  text : option string
}.
End Particle.
Abbreviation Particle := Particle.t.

Module Tile.
Record t := mk { type : TileType; durability : Z; maxDurability : Z }.
End Tile.
Abbreviation Tile := Tile.t.

Abbreviation Grid := (list (list Tile)).

Record GameState := mkGameState {
  status : GameStatus;
  player : Entity;
  enemies : list Entity;
  grid : Grid;
  shardsCollected : Z;
  goldCollected : Z;
  diamondsCollected : Z;
  camera : Vector2;
  selectedTile : option Vector2;
  particles : list Particle;
  screenShake : Q
}.

Definition with_status (v : GameStatus) (s : GameState) : GameState :=
  mkGameState v (player s) (enemies s) (grid s) (shardsCollected s) (goldCollected s)
    (diamondsCollected s) (camera s) (selectedTile s) (particles s) (screenShake s).
Definition with_player (v : Entity) (s : GameState) : GameState :=
  mkGameState (status s) v (enemies s) (grid s) (shardsCollected s) (goldCollected s)
    (diamondsCollected s) (camera s) (selectedTile s) (particles s) (screenShake s).
Definition with_enemies (v : list Entity) (s : GameState) : GameState :=
  mkGameState (status s) (player s) v (grid s) (shardsCollected s) (goldCollected s)
    (diamondsCollected s) (camera s) (selectedTile s) (particles s) (screenShake s).
Definition with_grid (v : Grid) (s : GameState) : GameState :=
  mkGameState (status s) (player s) (enemies s) v (shardsCollected s) (goldCollected s)
    (diamondsCollected s) (camera s) (selectedTile s) (particles s) (screenShake s).
Definition with_shardsCollected (v : Z) (s : GameState) : GameState :=
  mkGameState (status s) (player s) (enemies s) (grid s) v (goldCollected s)
    (diamondsCollected s) (camera s) (selectedTile s) (particles s) (screenShake s).
Definition with_goldCollected (v : Z) (s : GameState) : GameState :=
  mkGameState (status s) (player s) (enemies s) (grid s) (shardsCollected s) v
    (diamondsCollected s) (camera s) (selectedTile s) (particles s) (screenShake s).
Definition with_diamondsCollected (v : Z) (s : GameState) : GameState :=
  mkGameState (status s) (player s) (enemies s) (grid s) (shardsCollected s) (goldCollected s)
    v (camera s) (selectedTile s) (particles s) (screenShake s).
Definition with_camera (v : Vector2) (s : GameState) : GameState :=
  mkGameState (status s) (player s) (enemies s) (grid s) (shardsCollected s) (goldCollected s)
    (diamondsCollected s) v (selectedTile s) (particles s) (screenShake s).
Definition with_selectedTile (v : option Vector2) (s : GameState) : GameState :=
  mkGameState (status s) (player s) (enemies s) (grid s) (shardsCollected s) (goldCollected s)
    (diamondsCollected s) (camera s) v (particles s) (screenShake s).
Definition with_particles (v : list Particle) (s : GameState) : GameState :=
  mkGameState (status s) (player s) (enemies s) (grid s) (shardsCollected s) (goldCollected s)
    (diamondsCollected s) (camera s) (selectedTile s) v (screenShake s).
Definition with_screenShake (v : Q) (s : GameState) : GameState :=
  mkGameState (status s) (player s) (enemies s) (grid s) (shardsCollected s) (goldCollected s)
    (diamondsCollected s) (camera s) (selectedTile s) (particles s) v.

(** ** constants.ts and the constants of the App module *)

Definition GRID_WIDTH : Z := 40.
Definition GRID_HEIGHT : Z := 60.
Definition TILE_SIZE : Z := 40.
Definition VIEWPORT_WIDTH : Z := 800.
Definition VIEWPORT_HEIGHT : Z := 600.

Definition TILE_DURABILITY (t : TileType) : Z :=
  match t with
  | DIRT => 5 | GRASS => 5 | STONE => 15 | GOLD => 10
  | SHARD => 12 | DIAMOND => 20 | AIR => 0
  end.

(** [COLORS] restricted to the keys that are tile types. *)
Definition COLORS (t : TileType) : string :=
  match t with
  | DIRT => "#8b4513" | GRASS => "#228b22" | STONE => "#808080"
  | GOLD => "#ffd700" | SHARD => "#9370db" | DIAMOND => "#00ffff"
  | AIR => "transparent"
  end%string.

Definition INITIAL_PLAYER_HEALTH : Z := 200.
Definition ENEMY_SPAWN_COUNT : nat := 12.
Definition SHARD_GOAL : Z := 10.
Definition GOLD_COUNT : Z := 5.
Definition DIAMOND_COUNT : Z := 3.
Definition ATTACK_COOLDOWN : Z := 20.
Definition SWORD_DAMAGE : Z := 34.
Definition CLICK_DAMAGE : Z := 34.
Definition ENEMY_DAMAGE : Z := 34.
Definition DAMAGE_COOLDOWN : Z := 60.

(** ** Numbers *)

Definition Qltb (a b : Q) : bool := negb (Qle_bool b a).

(** [Math.hypot a b < r], for [r >= 0]. *)
Definition hypot_lt (a b r : Q) : bool := Qltb (a * a + b * b) (r * r).

(** [Math.hypot dx dy <= r] on integers, for [r >= 0]. *)
Definition hypot_le (dx dy r : Z) : bool := dx * dx + dy * dy <=? r * r.

(** The integers [lo, lo+1, ..., hi] of a [for (i = lo; i <= hi; i++)] loop. *)
Definition zrange (lo hi : Z) : list Z :=
  map (fun i => lo + Z.of_nat i) (seq 0 (Z.to_nat (hi - lo + 1))).

(** [Math.random]: the draws of one handler run, in the order they are made. *)
Definition Rand := nat -> Q.

Definition unit_draws (rnd : Rand) : Prop :=
  forall n, (0 <= rnd n)%Q /\ (rnd n < 1)%Q.

(** [Math.floor(Math.random() * n)] for the draw [r]. *)
Definition randInt (r : Q) (n : Z) : Z := Qfloor (r * inject_Z n).

(** ** Tile grid and collision *)

Definition AIR_TILE : Tile := Tile.mk AIR 0 0.

Definition isAIR (t : Tile) : bool := bool_decide (Tile.type t = AIR).

(** [grid[y][x]] for non-negative indices. *)
Definition tileAt (g : Grid) (x y : Z) : option Tile :=
  match g !! Z.to_nat y with
  | Some row => row !! Z.to_nat x
  | None => None
  end.

(** [grid[y][x] = t]; the callers test the bounds first. *)
Definition setTile (g : Grid) (x y : Z) (t : Tile) : Grid :=
  match g !! Z.to_nat y with
  | Some row => <[Z.to_nat y := <[Z.to_nat x := t]> row]> g
  | None => g
  end.

Definition wf_grid (g : Grid) : Prop :=
  length g = Z.to_nat GRID_HEIGHT /\
  Forall (fun row => length row = Z.to_nat GRID_WIDTH) g.

Definition outOfGrid (x y : Z) : bool :=
  (y <? 0) || (y >=? GRID_HEIGHT) || (x <? 0) || (x >=? GRID_WIDTH).

(** One iteration of the body of the two loops of [checkCollision].  The
    bounds test comes first, so on a 60 by 40 grid the lookup never misses;
    a missing cell would raise a TypeError in the source and counts as
    solid here. *)
Definition solidCell (g : Grid) (x y : Z) : bool :=
  if outOfGrid x y then true
  else match tileAt g x y with
       | Some t => negb (isAIR t)
       | None => true
       end.

Definition coverLo (p : Q) : Z := Qfloor ((p + 8) / inject_Z TILE_SIZE).
Definition coverHi (p : Q) : Z :=
  Qfloor ((p + inject_Z TILE_SIZE - 8) / inject_Z TILE_SIZE).

Definition checkCollision (g : Grid) (px py : Q) : bool :=
  let left := coverLo px in
  let right := coverHi px in
  let top := coverLo py in
  let bottom := coverHi py in
  existsb (fun y => existsb (fun x => solidCell g x y) (zrange left right))
          (zrange top bottom).

(** ** Particles *)

(** The five red particles pushed when an entity at [(ex, ey)] is hit; the
    draws [n .. n+9] give the velocities, x before y. *)
Definition hitParticles (rnd : Rand) (n : nat) (ex ey : Q) : list Particle :=
  map (fun i =>
         Particle.mk
           (Vector2.mk (ex + inject_Z TILE_SIZE / 2) (ey + inject_Z TILE_SIZE / 2))
           (Vector2.mk ((rnd (n + 2 * i)%nat - 0.5) * 4)
                       ((rnd (n + 2 * i + 1)%nat - 0.5) * 4))
           20 "#ff0000" None)
      (seq 0 5).

Definition spawnMiningParticles (rnd : Rand) (n : nat) (x y : Z) (color : string)
  : list Particle :=
  map (fun i =>
         Particle.mk
           (Vector2.mk ((inject_Z x + 0.5) * inject_Z TILE_SIZE)
                       ((inject_Z y + 0.5) * inject_Z TILE_SIZE))
           (Vector2.mk ((rnd (n + 2 * i)%nat - 0.5) * 6)
                       ((rnd (n + 2 * i + 1)%nat - 0.5) * 6))
           30 color None)
      (seq 0 3).

Definition labelParticle (tx ty : Z) (color text : string) : Particle :=
  Particle.mk
    (Vector2.mk ((inject_Z tx + 0.5) * inject_Z TILE_SIZE)
                (inject_Z ty * inject_Z TILE_SIZE))
    (Vector2.mk 0 (-1)) 40 color (Some text).

Definition advanceParticle (p : Particle) : Particle :=
  Particle.mk
    (Vector2.mk (Vector2.x (Particle.pos p) + Vector2.x (Particle.vel p))
                (Vector2.y (Particle.pos p) + Vector2.y (Particle.vel p)))
    (Vector2.mk (Vector2.x (Particle.vel p)) (Vector2.y (Particle.vel p) + 0.2))
    (Particle.life p - 1) (Particle.color p) (Particle.text p).

(** ** handleAttack and the hostile pass of handleCanvasClick

    Both handlers run [enemies.map(...).filter(e => e.health > 0)] with the
    same body: a hostile for which [inRange] holds loses [dmg] health and
    five hit particles are pushed.  [strike] is the [map]; it threads the
    particle array, the draw counter and the hit flag. *)

Fixpoint strike (rnd : Rand) (inRange : Entity -> bool) (dmg : Z)
    (es : list Entity) (ps : list Particle) (n : nat) (hit : bool)
  : list Entity * list Particle * nat * bool :=
  match es with
  | [] => ([], ps, n, hit)
  | enemy :: rest =>
      if inRange enemy then
        let eNext := Entity.with_health (Entity.health enemy - dmg) enemy in
        let ps' := ps ++ hitParticles rnd n (Vector2.x (Entity.pos enemy))
                                            (Vector2.y (Entity.pos enemy)) in
        let '(rest', ps'', n', hit') := strike rnd inRange dmg rest ps' (n + 10)%nat true in
        (eNext :: rest', ps'', n', hit')
      else
        let '(rest', ps', n', hit') := strike rnd inRange dmg rest ps n hit in
        (enemy :: rest', ps', n', hit')
  end.

Definition alive (e : Entity) : bool := 0 <? Entity.health e.

Definition inSwordRange (p : Entity) (enemy : Entity) : bool :=
  hypot_lt (Vector2.x (Entity.pos p) - Vector2.x (Entity.pos enemy))
           (Vector2.y (Entity.pos p) - Vector2.y (Entity.pos enemy))
           (inject_Z TILE_SIZE * 1.5).

Definition handleAttack (rnd : Rand) (prev : GameState) : GameState :=
  if negb (bool_decide (status prev = PLAYING))
     || (0 <? default 0 (Entity.attackCooldown (player prev)))
  then prev
  else
    let p := Entity.with_attackCooldown (Some ATTACK_COOLDOWN)
               (Entity.with_isAttacking (Some true) (player prev)) in
    let '(es, ps, _, _) :=
      strike rnd (inSwordRange p) SWORD_DAMAGE (enemies prev) (particles prev) 0 false in
    with_particles ps (with_enemies (List.filter alive es) (with_player p prev)).

Definition inClickRange (mx my : Q) (enemy : Entity) : bool :=
  hypot_lt (mx - (Vector2.x (Entity.pos enemy) + inject_Z TILE_SIZE / 2))
           (my - (Vector2.y (Entity.pos enemy) + inject_Z TILE_SIZE / 2))
           (inject_Z TILE_SIZE * 0.8).

(** World coordinate of the pointer; [(cx, cy)] is the pointer relative to
    the canvas ([e.clientX - rect.left], [e.clientY - rect.top]). *)
Definition mouseX (cx : Q) (gameState : GameState) : Q :=
  (cx + Vector2.x (camera gameState))%Q.
Definition mouseY (cy : Q) (gameState : GameState) : Q :=
  (cy + Vector2.y (camera gameState))%Q.

(** First updater of [handleCanvasClick]; the boolean is what the updater
    leaves in [hitAnyEnemy] once it has run. *)
Definition clickEnemies (rnd : Rand) (mx my : Q) (prev : GameState)
  : GameState * nat * bool :=
  let initialEnemyCount := length (enemies prev) in
  let '(es, ps, n, hit) :=
    strike rnd (inClickRange mx my) CLICK_DAMAGE
           (enemies prev) (particles prev) 0 false in
  let es' := List.filter alive es in
  let p := if (length es' <? initialEnemyCount)%nat
           then Entity.with_health
                  (Z.min INITIAL_PLAYER_HEALTH (Entity.health (player prev) + 20))
                  (player prev)
           else player prev in
  (with_player p (with_particles ps (with_enemies es' prev)), n, hit).

(** Second updater of [handleCanvasClick]: one mining press on the tile
    [(tx, ty)], which the handler has checked to be inside the grid (a
    missing cell would raise a TypeError; the snapshot then stays as it
    is).  The tile object is mutated in place: [durability] drops by 8 and,
    at zero or below, only [type] is overwritten. *)
Definition mineTile (rnd : Rand) (n : nat) (tx ty : Z) (prev : GameState) : GameState :=
  match tileAt (grid prev) tx ty with
  | None => prev
  | Some tile =>
      if isAIR tile then prev
      else
        let d := Tile.durability tile - 8 in
        let s1 := with_particles
                    (particles prev ++
                     spawnMiningParticles rnd n tx ty (COLORS (Tile.type tile))) prev in
        if d <=? 0 then
          let s2 := with_screenShake 5 s1 in
          let s3 :=
            match Tile.type tile with
            | SHARD =>
                let s := with_particles
                           (particles s2 ++ [labelParticle tx ty (COLORS SHARD) "+1 SHARD"])
                           (with_shardsCollected (shardsCollected s2 + 1) s2) in
                if SHARD_GOAL <=? shardsCollected s then with_status WON s else s
            | GOLD =>
                with_particles
                  (particles s2 ++ [labelParticle tx ty (COLORS GOLD) "+1 GOLD"])
                  (with_goldCollected (goldCollected s2 + 1) s2)
            | DIAMOND =>
                with_particles
                  (particles s2 ++ [labelParticle tx ty (COLORS DIAMOND) "+1 DIAMOND"])
                  (with_diamondsCollected (diamondsCollected s2 + 1) s2)
            | _ => s2
            end in
          with_grid (setTile (grid s3) tx ty (Tile.mk AIR d (Tile.maxDurability tile))) s3
        else
          with_grid (setTile (grid s1) tx ty
                       (Tile.mk (Tile.type tile) d (Tile.maxDurability tile))) s1
  end.

(** [handleCanvasClick].  The handler sets [hitAnyEnemy = false], passes
    the first updater to [setGameState], tests [if (hitAnyEnemy) return]
    and goes on to the mining updater.  The flag is assigned inside the
    first updater.  React runs an updater before [setGameState] returns
    only when the component has no other update in flight; otherwise the
    updater is queued and runs after the handler has returned, as it does
    in a game whose ticks keep updating the state.  [eager] tells which of
    the two happened at this press: the test sees the flag the updater
    set when [eager] holds, and sees [false] when the updater is queued.
    In both cases the updaters are applied in the order they were passed. *)
Definition handleCanvasClick (eager : bool) (rnd : Rand) (cx cy : Q)
    (gameState : GameState) : GameState :=
  if negb (bool_decide (status gameState = PLAYING)) then gameState
  else
    let mx := mouseX cx gameState in
    let my := mouseY cy gameState in
    let '(s1, n, hit) := clickEnemies rnd mx my gameState in
    let hitAnyEnemy := eager && hit in
    if hitAnyEnemy then s1
    else
      let tx := Qfloor (mx / inject_Z TILE_SIZE) in
      let ty := Qfloor (my / inject_Z TILE_SIZE) in
      if (tx <? 0) || (tx >=? GRID_WIDTH) || (ty <? 0) || (ty >=? GRID_HEIGHT) then s1
      else if hypot_lt
                ((inject_Z tx + 0.5) * inject_Z TILE_SIZE
                 - (Vector2.x (Entity.pos (player gameState)) + inject_Z TILE_SIZE / 2))
                ((inject_Z ty + 0.5) * inject_Z TILE_SIZE
                 - (Vector2.y (Entity.pos (player gameState)) + inject_Z TILE_SIZE / 2))
                (inject_Z TILE_SIZE * 3.5)
           then mineTile rnd n tx ty s1
           else s1.

Definition handleMouseMove (cx cy : Q) (gameState : GameState) : GameState :=
  if negb (bool_decide (status gameState = PLAYING)) then gameState
  else
    let tx := Qfloor (mouseX cx gameState / inject_Z TILE_SIZE) in
    let ty := Qfloor (mouseY cy gameState / inject_Z TILE_SIZE) in
    if (tx <? 0) || (tx >=? GRID_WIDTH) || (ty <? 0) || (ty >=? GRID_HEIGHT)
    then with_selectedTile None gameState
    else with_selectedTile (Some (Vector2.mk (inject_Z tx) (inject_Z ty))) gameState.

(** ** update: one simulation tick *)

Definition has (k : string) (keysPressed : list string) : bool :=
  existsb (String.eqb k) keysPressed.

Definition decayAttackCooldown (p : Entity) : Entity :=
  match Entity.attackCooldown p with
  | Some c =>
      if 0 <? c then
        let p1 := Entity.with_attackCooldown (Some (c - 1)) p in
        if c - 1 <? ATTACK_COOLDOWN - 5
        then Entity.with_isAttacking (Some false) p1 else p1
      else p
  | None => p
  end.

Definition decayDamageCooldown (p : Entity) : Entity :=
  match Entity.damageCooldown p with
  | Some c => if 0 <? c then Entity.with_damageCooldown (Some (c - 1)) p else p
  | None => p
  end.

Definition speed : Q := 5.

(** The movement intent [(dx, dy)] read from the held keys, and the facing. *)
Definition readKeys (keysPressed : list string) (p : Entity) : Q * Q * Entity :=
  let goLeft := has "KeyA" keysPressed || has "ArrowLeft" keysPressed in
  let goRight := has "KeyD" keysPressed || has "ArrowRight" keysPressed in
  let goUp := has "KeyW" keysPressed || has "ArrowUp" keysPressed in
  let goDown := has "KeyS" keysPressed || has "ArrowDown" keysPressed in
  let dx0 := (if goLeft then 0 - speed else 0)%Q in
  let p0 := if goLeft then Entity.with_direction (-1) p else p in
  let dx := (if goRight then dx0 + speed else dx0)%Q in
  let p1 := if goRight then Entity.with_direction 1 p0 else p0 in
  let dy0 := (if goUp then 0 - speed else 0)%Q in
  let dy := (if goDown then dy0 + speed else dy0)%Q in
  (dx, dy, p1).

(** [if (!checkCollision(pos.x + dx, pos.y)) pos.x += dx;
     if (!checkCollision(pos.x, pos.y + dy)) pos.y += dy;] *)
Definition movePlayer (g : Grid) (dx dy : Q) (p : Entity) : Entity :=
  let pos := Entity.pos p in
  let pos1 :=
    if checkCollision g (Vector2.x pos + dx) (Vector2.y pos) then pos
    else Vector2.mk (Vector2.x pos + dx) (Vector2.y pos) in
  let pos2 :=
    if checkCollision g (Vector2.x pos1) (Vector2.y pos1 + dy) then pos1
    else Vector2.mk (Vector2.x pos1) (Vector2.y pos1 + dy) in
  Entity.with_pos pos2 p.

Definition cooldownOver (p : Entity) : bool :=
  match Entity.damageCooldown p with
  | None => true
  | Some c => c =? 0
  end.

(** What the body of [enemies.map] reads and writes outside the hostile it
    is called on: the player object, [next.particles], [next.screenShake]
    and the number of draws made so far. *)
Record Shared := mkShared {
  sh_player : Entity;
  sh_particles : list Particle;
  sh_screenShake : Q;
  sh_draws : nat
}.

Section Tick.

(** [heading dy dx] is [(Math.cos a, Math.sin a)] for [a = Math.atan2(dy, dx)]. *)
Variable heading : Q -> Q -> Q * Q.

(** Pursuit of one hostile.  [eNext = { ...enemy }] is a shallow copy, so
    [eNext.pos] and [enemy.pos] are one object: the second collision test
    and the facing test read the x coordinate the first assignment wrote. *)
Definition chase (g : Grid) (playerPos : Vector2) (enemy : Entity) : Entity :=
  let pos := Entity.pos enemy in
  let '(co, si) := heading (Vector2.y playerPos - Vector2.y pos)
                           (Vector2.x playerPos - Vector2.x pos) in
  let ex := (Vector2.x pos + co * 1.5)%Q in
  let ey := (Vector2.y pos + si * 1.5)%Q in
  let pos1 := if checkCollision g ex (Vector2.y pos) then pos
              else Vector2.mk ex (Vector2.y pos) in
  let pos2 := if checkCollision g (Vector2.x pos1) ey then pos1
              else Vector2.mk (Vector2.x pos1) ey in
  Entity.with_direction
    (if Qltb (Vector2.x pos2) (Vector2.x playerPos) then 1 else -1)
    (Entity.with_pos pos2 enemy).

(** The body of [enemies.map(enemy => ...)] in [update]. *)
Definition enemyTick (rnd : Rand) (g : Grid) (enemy : Entity) (sh : Shared)
  : Entity * Shared :=
  let player := sh_player sh in
  let ddx := (Vector2.x (Entity.pos player) - Vector2.x (Entity.pos enemy))%Q in
  let ddy := (Vector2.y (Entity.pos player) - Vector2.y (Entity.pos enemy))%Q in
  let eNext := if hypot_lt ddx ddy 250 then chase g (Entity.pos player) enemy
               else enemy in
  if hypot_lt ddx ddy (inject_Z TILE_SIZE * 0.7) && cooldownOver player then
    let player' :=
      Entity.with_damageCooldown (Some DAMAGE_COOLDOWN)
        (Entity.with_health (Entity.health player - ENEMY_DAMAGE) player) in
    (eNext,
     mkShared player'
       (sh_particles sh ++
        hitParticles rnd (sh_draws sh) (Vector2.x (Entity.pos player))
                                       (Vector2.y (Entity.pos player)))
       10 (sh_draws sh + 10)%nat)
  else (eNext, sh).

Fixpoint enemiesTick (rnd : Rand) (g : Grid) (es : list Entity) (sh : Shared)
  : list Entity * Shared :=
  match es with
  | [] => ([], sh)
  | enemy :: rest =>
      let '(eNext, sh1) := enemyTick rnd g enemy sh in
      let '(rest', sh2) := enemiesTick rnd g rest sh1 in
      (eNext :: rest', sh2)
  end.

(** The updater queued by [update]. *)
Definition tick (keysPressed : list string) (rnd : Rand) (prev : GameState) : GameState :=
  let p0 := decayDamageCooldown (decayAttackCooldown (player prev)) in
  let '(dx, dy, p1) := readKeys keysPressed p0 in
  let p2 := movePlayer (grid prev) dx dy p1 in
  let cam :=
    Vector2.mk
      (Vector2.x (Entity.pos p2) - inject_Z VIEWPORT_WIDTH / 2 + inject_Z TILE_SIZE / 2)
      (Vector2.y (Entity.pos p2) - inject_Z VIEWPORT_HEIGHT / 2 + inject_Z TILE_SIZE / 2) in
  let shake := if Qltb 0 (screenShake prev) then (screenShake prev * 0.9)%Q
               else screenShake prev in
  let ps := List.filter (fun p => 0 <? Particle.life p)
                        (map advanceParticle (particles prev)) in
  let '(es, sh) := enemiesTick rnd (grid prev) (enemies prev) (mkShared p2 ps shake 0) in
  let st := if Entity.health (sh_player sh) <=? 0 then LOST else status prev in
  mkGameState st (sh_player sh) es (grid prev)
    (shardsCollected prev) (goldCollected prev) (diamondsCollected prev)
    cam (selectedTile prev) (sh_particles sh) (sh_screenShake sh).

(** [update]: nothing is queued unless the status is PLAYING. *)
Definition update (keysPressed : list string) (rnd : Rand) (gameState : GameState)
  : GameState :=
  if negb (bool_decide (status gameState = PLAYING)) then gameState
  else tick keysPressed rnd gameState.

End Tick.

(** ** initGame: world generation *)

(** [v || 0] on numbers. *)
Definition orZero (v : Z) : Z := if v =? 0 then 0 else v.

Definition layerType (y : Z) : TileType :=
  if y =? 5 then GRASS
  else if (5 <? y) && (y <? 10) then DIRT
  else if 10 <=? y then STONE
  else AIR.

Definition layerTile (y : Z) : Tile :=
  let type := layerType y in
  Tile.mk type (orZero (TILE_DURABILITY type)) (orZero (TILE_DURABILITY type)).

(** The grid after the two filling loops. *)
Definition layeredGrid : Grid :=
  map (fun y => map (fun _ => layerTile y) (zrange 0 (GRID_WIDTH - 1)))
      (zrange 0 (GRID_HEIGHT - 1)).

(** Body of the two disc loops for the offset [(dx, dy)]. *)
Definition carveCell (cx cy radius : Z) (g : Grid) (dx dy : Z) : Grid :=
  let nx := cx + dx in
  let ny := cy + dy in
  if (0 <=? nx) && (nx <? GRID_WIDTH) && (10 <=? ny) && (ny <? GRID_HEIGHT) then
    if hypot_le dx dy radius then setTile g nx ny AIR_TILE else g
  else g.

Definition carveDisc (cx cy radius : Z) (g : Grid) : Grid :=
  fold_left
    (fun g' dy =>
       fold_left (fun g'' dx => carveCell cx cy radius g'' dx dy)
                 (zrange (- radius) radius) g')
    (zrange (- radius) radius) g.

Definition walkLength (r : Q) : Z := randInt r 40 + 20.
Definition discRadius (r : Q) : Z := randInt r 2 + 2.

(** The loop over [j]: [steps] iterations are left, [n] draws were made. *)
Fixpoint walk (rnd : Rand) (steps : nat) (n : nat) (cx cy : Z) (g : Grid) : Grid * nat :=
  match steps with
  | O => (g, n)
  | S steps' =>
      let radius := discRadius (rnd n) in
      let g1 := carveDisc cx cy radius g in
      let cx' := cx + (randInt (rnd (n + 1)%nat) 5 - 2) in
      let cy' := cy + (randInt (rnd (n + 2)%nat) 3 - 1) in
      if (cx' <? 0) || (cx' >=? GRID_WIDTH) || (cy' <? 10) || (cy' >=? GRID_HEIGHT)
      then (g1, (n + 3)%nat)
      else walk rnd steps' (n + 3) cx' cy' g1
  end.

(** The loop over [i]: [count] walks are left. *)
Fixpoint caves (rnd : Rand) (count : nat) (n : nat) (g : Grid) : Grid * nat :=
  match count with
  | O => (g, n)
  | S count' =>
      let cx := randInt (rnd n) GRID_WIDTH in
      let cy := randInt (rnd (n + 1)%nat) (GRID_HEIGHT - 15) + 15 in
      let length := walkLength (rnd (n + 2)%nat) in
      let '(g1, n1) := walk rnd (Z.to_nat length) (n + 3) cx cy g in
      caves rnd count' n1 g1
  end.

(** [placeResource]: the [while] loop has no bound in the source; [fuel]
    bounds the number of samples, and [None] is running out of it. *)
Fixpoint placeResource (fuel : nat) (rnd : Rand) (type : TileType) (count minY : Z)
    (placed : Z) (n : nat) (g : Grid) : option (Grid * nat) :=
  if placed <? count then
    match fuel with
    | O => None
    | S fuel' =>
        let rx := randInt (rnd n) GRID_WIDTH in
        let ry := randInt (rnd (n + 1)%nat) (GRID_HEIGHT - minY) + minY in
        match tileAt g rx ry with
        | Some t =>
            if bool_decide (Tile.type t = STONE) || bool_decide (Tile.type t = DIRT)
            then placeResource fuel' rnd type count minY (placed + 1) (n + 2)
                   (setTile g rx ry
                      (Tile.mk type (TILE_DURABILITY type) (TILE_DURABILITY type)))
            else placeResource fuel' rnd type count minY placed (n + 2) g
        | None => None
        end
    end
  else Some (g, n).

Definition string_of_nat (i : nat) : string :=
  NilEmpty.string_of_uint (Nat.to_uint i).

Definition spawnEnemy (rnd : Rand) (n : nat) (i : nat) : Entity :=
  Entity.mk
    ("enemy-" ++ string_of_nat i)
    (Vector2.mk (rnd n * inject_Z GRID_WIDTH * inject_Z TILE_SIZE)
                ((rnd (n + 1)%nat * inject_Z (GRID_HEIGHT - 15) + 15) * inject_Z TILE_SIZE))
    (Vector2.mk 0 0)
    (if Qltb 0.7 (rnd (n + 2)%nat) then CREEPER else ZOMBIE)
    100 100 1 None None None.

Definition initialPlayer : Entity :=
  Entity.mk "player"
    (Vector2.mk (inject_Z GRID_WIDTH / 2 * inject_Z TILE_SIZE) (4 * inject_Z TILE_SIZE))
    (Vector2.mk (inject_Z GRID_WIDTH / 2 * inject_Z TILE_SIZE) (4 * inject_Z TILE_SIZE))
    PLAYER INITIAL_PLAYER_HEALTH INITIAL_PLAYER_HEALTH 1 (Some false) (Some 0) None.

Definition initGame (fuel : nat) (rnd : Rand) : option GameState :=
  let '(g0, n0) := caves rnd 15 0 layeredGrid in
  match placeResource fuel rnd SHARD 15 12 0 n0 g0 with
  | None => None
  | Some (g1, n1) =>
      match placeResource fuel rnd GOLD GOLD_COUNT 20 0 n1 g1 with
      | None => None
      | Some (g2, n2) =>
          match placeResource fuel rnd DIAMOND DIAMOND_COUNT 40 0 n2 g2 with
          | None => None
          | Some (g3, n3) =>
              let enemies :=
                map (fun i => spawnEnemy rnd (n3 + 3 * i) i) (seq 0 ENEMY_SPAWN_COUNT) in
              Some (mkGameState MENU initialPlayer enemies g3 0 0 0
                      (Vector2.mk 0 0) None [] 0)
          end
      end
  end.

(** [startGame]: a fresh world, then the status is set to PLAYING. *)
Definition startGame (fuel : nat) (rnd : Rand) : option GameState :=
  match initGame fuel rnd with
  | Some s => Some (with_status PLAYING s)
  | None => None
  end.

(** ** Sessions: input events applied in order *)

Inductive Event :=
| Frame (keysPressed : list string) (rnd : Rand)
| SpaceKey (rnd : Rand)
| CanvasClick (eager : bool) (rnd : Rand) (cx cy : Q)
| MouseMove (cx cy : Q).

Section Session.

Variable heading : Q -> Q -> Q * Q.

Definition step (s : GameState) (ev : Event) : GameState :=
  match ev with
  | Frame keysPressed rnd => update heading keysPressed rnd s
  | SpaceKey rnd => handleAttack rnd s
  | CanvasClick eager rnd cx cy => handleCanvasClick eager rnd cx cy s
  | MouseMove cx cy => handleMouseMove cx cy s
  end.

Definition run (evs : list Event) (s : GameState) : GameState :=
  fold_left step evs s.

(** The snapshots a session goes through, the start included. *)
Fixpoint trace (evs : list Event) (s : GameState) : list GameState :=
  match evs with
  | [] => [s]
  | ev :: evs' => s :: trace evs' (step s ev)
  end.

End Session.

(** A concrete random stream and heading for evaluating the model. *)
Definition sampleRnd : Rand := fun n => (Z.of_nat ((n * 37 + 11) mod 101) # 101)%Q.
Definition axisHeading (dy dx : Q) : Q * Q :=
  if Qeq_bool dy 0 then (if Qle_bool 0 dx then (1, 0) else (-1, 0))%Q
  else if Qeq_bool dx 0 then (if Qle_bool 0 dy then (0, 1) else (0, -1))%Q
  else (0, 0)%Q.

(** * Vocabulary of the properties *)

Arguments checkCollision : simpl never.

(** The shape shared by the player's and a hostile's movement: try the new
    x at the old y, then the new y at whatever x resulted. *)
Definition slide (g : Grid) (pos : Vector2) (nx ny : Q) : Vector2 :=
  let pos1 := if checkCollision g nx (Vector2.y pos) then pos
              else Vector2.mk nx (Vector2.y pos) in
  if checkCollision g (Vector2.x pos1) ny then pos1
  else Vector2.mk (Vector2.x pos1) ny.

Definition collides (g : Grid) (p : Vector2) : bool :=
  checkCollision g (Vector2.x p) (Vector2.y p).

(** The cell [(x, y)] lies in the square scanned around [(cx, cy)] and
    passes the Euclidean test [Math.hypot(dx, dy) <= radius]. *)
Definition inDisc (cx cy radius x y : Z) : bool :=
  (Z.abs (x - cx) <=? radius) && (Z.abs (y - cy) <=? radius)
  && hypot_le (x - cx) (y - cy) radius.

(** [g'] differs from [g] only by cells at rows 10 and below that were
    overwritten with the AIR tile. *)
Definition carvedFrom (g g' : Grid) : Prop :=
  wf_grid g' /\
  forall x y, 0 <= x < GRID_WIDTH -> 0 <= y < GRID_HEIGHT ->
    tileAt g' x y = tileAt g x y \/ (10 <= y /\ tileAt g' x y = Some AIR_TILE).

(** The offset [(dx, dy)] of the scan around [(cx, cy)] overwrites [(x, y)]. *)
Definition hits (cx cy radius x y dx dy : Z) : bool :=
  (0 <=? cx + dx) && (cx + dx <? GRID_WIDTH) && (10 <=? cy + dy) && (cy + dy <? GRID_HEIGHT)
  && hypot_le dx dy radius && (cx + dx =? x) && (cy + dy =? y).

(** A particle of the red burst pushed when an entity is hit. *)
Definition isHitParticle (p : Particle) : Prop :=
  Particle.life p = 20 /\ Particle.color p = "#ff0000"%string /\ Particle.text p = None.

(** [dist < TILE_SIZE * 0.7] between the player at [playerPos] and a hostile. *)
Definition inContact (playerPos : Vector2) (enemy : Entity) : bool :=
  hypot_lt (Vector2.x playerPos - Vector2.x (Entity.pos enemy))
           (Vector2.y playerPos - Vector2.y (Entity.pos enemy))
           (inject_Z TILE_SIZE * 0.7).

(** The player object when the hostile loop of a tick starts: cooldowns
    decayed, keys read, movement applied. *)
Definition movedPlayer (keysPressed : list string) (prev : GameState) : Entity :=
  let p0 := decayDamageCooldown (decayAttackCooldown (player prev)) in
  let '(dx, dy, p1) := readKeys keysPressed p0 in
  movePlayer (grid prev) dx dy p1.

(** Some hostile is within contact range of the player in this tick. *)
Definition contactNow (keysPressed : list string) (prev : GameState) : bool :=
  existsb (inContact (Entity.pos (movedPlayer keysPressed prev))) (enemies prev).

(** The player after one application of contact damage. *)
Definition damaged (p : Entity) : Entity :=
  Entity.with_damageCooldown (Some DAMAGE_COOLDOWN)
    (Entity.with_health (Entity.health p - ENEMY_DAMAGE) p).

(** Consecutive frames, each with its held keys and its draws. *)
Definition ticks (heading : Q -> Q -> Q * Q) (frames : list (list string * Rand))
    (s : GameState) : GameState :=
  fold_left (fun s' f => update heading (fst f) (snd f) s') frames s.

(** What [enemies.map] of the attack handlers returns for one hostile. *)
Definition struck (inRange : Entity -> bool) (dmg : Z) (e : Entity) : Entity :=
  if inRange e then Entity.with_health (Entity.health e - dmg) e else e.

(** Health bounds of a hostile in the live set. *)
Definition hostileAlive (e : Entity) : Prop :=
  0 < Entity.health e <= Entity.maxHealth e.

(** Health bounds that hold in every snapshot of a session. *)
Definition healthInv (s : GameState) : Prop :=
  Forall hostileAlive (enemies s) /\
  Entity.maxHealth (player s) = INITIAL_PLAYER_HEALTH /\
  - ENEMY_DAMAGE < Entity.health (player s) <= Entity.maxHealth (player s) /\
  (Entity.health (player s) <= 0 -> status s = LOST).

(** The hostiles a press at [(cx, cy)] damages, and those it kills. *)
Definition underPointer (cx cy : Q) (s : GameState) : list Entity :=
  List.filter (inClickRange (mouseX cx s) (mouseY cy s)) (enemies s).
Definition killedByClick (cx cy : Q) (s : GameState) : list Entity :=
  List.filter (fun e => Entity.health e <=? CLICK_DAMAGE) (underPointer cx cy s).

(** Number of steps of a trace that go from PLAYING to WON. *)
Fixpoint wonTransitions (tr : list GameState) : nat :=
  match tr with
  | a :: rest =>
      (match rest with
       | b :: _ =>
           if bool_decide (status a = PLAYING) && bool_decide (status b = WON)
           then 1 else 0
       | [] => 0
       end + wonTransitions rest)%nat
  | [] => 0%nat
  end.

(** The durability bounds the code maintains for a tile: the counter never
    exceeds its maximum, and it is positive exactly on non-AIR tiles. *)
Definition tileSound (t : Tile) : Prop :=
  Tile.durability t <= Tile.maxDurability t /\
  (Tile.type t = AIR <-> Tile.durability t <= 0).

Definition gridSound (g : Grid) : Prop := Forall (Forall tileSound) g.

(** ** Cave walks, as the specification describes them

    A walk is named by the draw [s] it begins at.  It reads its start from
    the draws [s] and [s + 1] and its length from the draw [s + 2]; step
    [k] reads the radius of its disc from the draw [s + 3 + 3k] and the
    drift of the centre from the two draws after it. *)
Fixpoint walkCentre (rnd : Rand) (s : nat) (k : nat) : Z * Z :=
  match k with
  | O => (randInt (rnd s) GRID_WIDTH, randInt (rnd (s + 1)%nat) (GRID_HEIGHT - 15) + 15)
  | S k' =>
      (fst (walkCentre rnd s k') + (randInt (rnd (s + 3 + 3 * k' + 1)%nat) 5 - 2),
       snd (walkCentre rnd s k') + (randInt (rnd (s + 3 + 3 * k' + 2)%nat) 3 - 1))
  end.

Definition walkRadius (rnd : Rand) (s : nat) (k : nat) : Z :=
  discRadius (rnd (s + 3 + 3 * k)%nat).

(** The length drawn for the walk. *)
Definition walkBudget (rnd : Rand) (s : nat) : Z := walkLength (rnd (s + 2)%nat).

(** Where a walk may go on: columns 0..39 and rows 10..59. *)
Definition inCaveArea (c : Z * Z) : bool :=
  (0 <=? fst c) && (fst c <? GRID_WIDTH) && (10 <=? snd c) && (snd c <? GRID_HEIGHT).

(** The cell [(x, y)] passes the disc test of step [k] of the walk. *)
Definition stepCovers (rnd : Rand) (s : nat) (x y : Z) (k : nat) : bool :=
  inDisc (fst (walkCentre rnd s k)) (snd (walkCentre rnd s k)) (walkRadius rnd s k) x y.

(** A walk with the number of discs it carves, and the walks of a run
    of [caves]: each begins at the draw after the last one of the walk
    before it. *)
Fixpoint chained (n : nat) (ws : list (nat * nat)) : Prop :=
  match ws with
  | [] => True
  | w :: rest => fst w = n /\ chained (fst w + 3 + 3 * snd w) rest
  end.

(** The walk carves at least one disc and at most as many as its length;
    every disc is centred in the cave area; and it carves fewer than its
    length only when the next centre is outside the area. *)
Definition walkOk (rnd : Rand) (w : nat * nat) : Prop :=
  (1 <= snd w)%nat /\ Z.of_nat (snd w) <= walkBudget rnd (fst w) /\
  (forall k, (k < snd w)%nat -> inCaveArea (walkCentre rnd (fst w) k) = true) /\
  (Z.of_nat (snd w) < walkBudget rnd (fst w) ->
   inCaveArea (walkCentre rnd (fst w) (snd w)) = false).

(** The cell is on row 10 or below and inside a disc of one of the walks. *)
Definition carvedByWalks (rnd : Rand) (ws : list (nat * nat)) (x y : Z) : bool :=
  (10 <=? y) &&
  existsb (fun w => existsb (stepCovers rnd (fst w) x y) (seq 0 (snd w))) ws.

(** ** Sample snapshots *)

Definition hostileAt (x y : Q) (h : Z) : Entity :=
  Entity.mk "enemy-0" (Vector2.mk x y) (Vector2.mk 0 0) ZOMBIE h 100 1 None None None.

(** A session in progress on the untouched layered world. *)
Definition surfaceState (p : Entity) (es : list Entity) : GameState :=
  mkGameState PLAYING p es layeredGrid 0 0 0 (Vector2.mk 0 0) None [] 0.

(** The player at the spawn point with one hostile wedged in the grass row
    below, within contact range and unable to move. *)
Definition stuckHostile : GameState :=
  surfaceState initialPlayer [hostileAt 800 180 100].

(** Three hostiles around the player, all within contact range. *)
Definition threeHostiles : GameState :=
  surfaceState initialPlayer
    [hostileAt 800 160 100; hostileAt 810 160 100; hostileAt 800 170 100].

(** The player after two contact hits, next to two hostiles that have each
    taken two sword hits. *)
Definition twoWeakHostiles : GameState :=
  surfaceState (Entity.with_health 132 initialPlayer)
    [hostileAt 800 160 32; hostileAt 810 160 32].

(** Nine shards collected, and a cracked shard tile below the player. *)
Definition ninthShard : GameState :=
  with_shardsCollected 9
    (with_grid (setTile layeredGrid 20 5 (Tile.mk SHARD 4 12))
       (surfaceState initialPlayer [])).

Definition idleFrames (k : nat) : list (list string * Rand) :=
  repeat ([], sampleRnd) k.

(** The world a session starts with on the sample draws
    ([startGame 1000 sampleRnd] returns it). *)
Definition sampleWorld : GameState :=
  default (surfaceState initialPlayer []) (startGame 1000 sampleRnd).

(** Two presses on the tile below the player, then eight frames down:
    one row deeper. *)
Definition digDown : list Event :=
  [CanvasClick false sampleRnd 400 340; CanvasClick false sampleRnd 400 340]
  ++ repeat (Frame ["KeyS"%string] sampleRnd) 8.

(** A session on the sample world: 57 frames to the right, then eleven
    rows down column 27.  It ends with the player at (1085, 600), above
    and to the left of the hostile that was spawned inside the rock at
    about (1109, 707) and cannot move. *)
Definition approach : list Event :=
  repeat (Frame ["KeyD"%string] sampleRnd) 57 ++ concat (repeat digDown 11).

Definition besideHostile : GameState := run axisHeading approach sampleWorld.

(** * Further vocabulary *)

(** Number of steps of a trace across which the status changes. *)
Fixpoint statusChanges (tr : list GameState) : nat :=
  match tr with
  | a :: rest =>
      (match rest with
       | b :: _ => if bool_decide (status a = status b) then 0 else 1
       | [] => 0
       end + statusChanges rest)%nat
  | [] => 0%nat
  end.

(** A cooldown after one tick's [if (c && c > 0) c--]. *)
Definition cooled (c : option Z) : option Z :=
  match c with
  | Some v => if 0 <? v then Some (v - 1) else Some v
  | None => None
  end.

(** The particle list after the decay step of a tick. *)
Definition agedParticles (ps : list Particle) : list Particle :=
  List.filter (fun p => 0 <? Particle.life p) (map advanceParticle ps).

(** The screen shake after the decay step of a tick. *)
Definition decayedShake (q : Q) : Q := if Qltb 0 q then (q * 0.9)%Q else q.

(** [dist < 250] between the player at [playerPos] and a hostile. *)
Definition inAggroRange (playerPos : Vector2) (enemy : Entity) : bool :=
  hypot_lt (Vector2.x playerPos - Vector2.x (Entity.pos enemy))
           (Vector2.y playerPos - Vector2.y (Entity.pos enemy)) 250.

(** What [enemies.map] of a tick returns for one hostile. *)
Definition pursue (heading : Q -> Q -> Q * Q) (g : Grid) (playerPos : Vector2)
    (enemy : Entity) : Entity :=
  if inAggroRange playerPos enemy then chase heading g playerPos enemy else enemy.

(** The heading is a unit vector up to rounding: both components lie in
    [-1, 1], as [Math.cos] and [Math.sin] do. *)
Definition unit_heading (heading : Q -> Q -> Q * Q) : Prop :=
  forall dy dx,
    (-1 <= fst (heading dy dx) <= 1)%Q /\ (-1 <= snd (heading dy dx) <= 1)%Q.

(** The player object a performed melee attack writes back. *)
Definition attacker (p : Entity) : Entity :=
  Entity.with_attackCooldown (Some ATTACK_COOLDOWN)
    (Entity.with_isAttacking (Some true) p).

(** What one mining press makes of a tile. *)
Definition pressed (t : Tile) : Tile :=
  if isAIR t then t
  else Tile.mk (if Tile.durability t - 8 <=? 0 then AIR else Tile.type t)
               (Tile.durability t - 8) (Tile.maxDurability t).

(** Mining presses on one tile, each with its own draws. *)
Definition presses (rnds : list Rand) (tx ty : Z) (s : GameState) : GameState :=
  fold_left (fun s' rnd => mineTile rnd 0 tx ty s') rnds s.

(** The tile index under the pointer. *)
Definition pointedX (cx : Q) (s : GameState) : Z := Qfloor (mouseX cx s / inject_Z TILE_SIZE).
Definition pointedY (cy : Q) (s : GameState) : Z := Qfloor (mouseY cy s / inject_Z TILE_SIZE).

(** [dist < TILE_SIZE * 3.5] between the centre of tile [(tx, ty)] and the
    centre of the player. *)
Definition withinReach (tx ty : Z) (s : GameState) : bool :=
  hypot_lt ((inject_Z tx + 0.5) * inject_Z TILE_SIZE
            - (Vector2.x (Entity.pos (player s)) + inject_Z TILE_SIZE / 2))
           ((inject_Z ty + 0.5) * inject_Z TILE_SIZE
            - (Vector2.y (Entity.pos (player s)) + inject_Z TILE_SIZE / 2))
           (inject_Z TILE_SIZE * 3.5).

(** A pointer press goes on to mine: the handler has not seen a hostile
    hit (it sees one only when the hostile pass was applied before its
    test, [eager], and a hostile is under the pointer) and the pointed
    tile is inside the grid and within reach. *)
Definition pressMines (eager : bool) (cx cy : Q) (s : GameState) : bool :=
  negb (eager && existsb (inClickRange (mouseX cx s) (mouseY cy s)) (enemies s))
  && negb (outOfGrid (pointedX cx s) (pointedY cy s))
  && withinReach (pointedX cx s) (pointedY cy s) s.

(** [t'] is what is left of the tile [t] after some mining. *)
Definition wornFrom (t t' : Tile) : Prop :=
  Tile.maxDurability t' = Tile.maxDurability t /\
  Tile.durability t' <= Tile.durability t /\
  (Tile.type t' = Tile.type t \/ Tile.type t' = AIR) /\
  (Tile.type t = AIR -> t' = t).

(** The snapshot a pointer press hands to the mining updater: the result
    of the hostile pass. *)
Definition afterHostilePass (rnd : Rand) (cx cy : Q) (s : GameState) : GameState :=
  fst (fst (clickEnemies rnd (mouseX cx s) (mouseY cy s) s)).

(** Sum of [f] over a list. *)
Fixpoint tally {A : Type} (f : A -> Z) (l : list A) : Z :=
  match l with
  | [] => 0
  | a :: l' => f a + tally f l'
  end.

Definition isOf (type : TileType) (t : Tile) : Z :=
  if bool_decide (Tile.type t = type) then 1 else 0.

(** Number of tiles of one type on the grid. *)
Definition countTiles (type : TileType) (g : Grid) : Z := tally (tally (isOf type)) g.

(** The counter a broken tile of the given type adds to. *)
Definition collected (type : TileType) (s : GameState) : Z :=
  match type with
  | SHARD => shardsCollected s
  | GOLD => goldCollected s
  | DIAMOND => diamondsCollected s
  | _ => 0
  end.

(** How many tiles of a type [initGame] asks [placeResource] for, and the
    first row it may use. *)
Definition placedCount (type : TileType) : Z :=
  match type with
  | SHARD => 15
  | GOLD => GOLD_COUNT
  | DIAMOND => DIAMOND_COUNT
  | _ => 0
  end.

Definition firstRow (type : TileType) : Z :=
  match type with
  | SHARD => 12
  | GOLD => 20
  | DIAMOND => 40
  | _ => 0
  end.

Definition isOre (type : TileType) : Prop := type = SHARD \/ type = GOLD \/ type = DIAMOND.

(** Collected and buried ore add up to what was placed. *)
Definition oreLedger (s : GameState) : Prop :=
  forall type, isOre type ->
    0 <= collected type s /\
    collected type s + countTiles type (grid s) = placedCount type.

(** No ore above the first row of its kind. *)
Definition oresDeep (g : Grid) : Prop :=
  forall x y t, 0 <= x -> 0 <= y -> tileAt g x y = Some t -> isOre (Tile.type t) ->
    firstRow (Tile.type t) <= y.

(** The player's body is clear of terrain and of the world's edge. *)
Definition playerClear (s : GameState) : Prop :=
  wf_grid (grid s) /\ collides (grid s) (Entity.pos (player s)) = false.

(** The camera a tick computes for a player at [p]. *)
Definition cameraOn (p : Vector2) : Vector2 :=
  Vector2.mk (Vector2.x p - inject_Z VIEWPORT_WIDTH / 2 + inject_Z TILE_SIZE / 2)
             (Vector2.y p - inject_Z VIEWPORT_HEIGHT / 2 + inject_Z TILE_SIZE / 2).

(** Either no tick has run yet, or the camera is the one of the last tick. *)
Definition cameraInv (s : GameState) : Prop :=
  (camera s = Vector2.mk 0 0 /\ Entity.pos (player s) = Entity.pos initialPlayer) \/
  camera s = cameraOn (Entity.pos (player s)).

Definition shortLived (p : Particle) : Prop := 0 < Particle.life p <= 40.

(** The transient effects stay within their bounds. *)
Definition effectsInv (s : GameState) : Prop :=
  (0 <= screenShake s)%Q /\ (screenShake s <= 10)%Q /\ Forall shortLived (particles s).

(** ** draw: the tile loop

    [startX], [endX], [startY], [endY] as [draw] computes them from the
    camera. *)
Definition startX (camera : Vector2) : Z :=
  Z.max 0 (Qfloor (Vector2.x camera / inject_Z TILE_SIZE)).
Definition endX (camera : Vector2) : Z :=
  Z.min GRID_WIDTH
        (Qceiling ((Vector2.x camera + inject_Z VIEWPORT_WIDTH) / inject_Z TILE_SIZE)).
Definition startY (camera : Vector2) : Z :=
  Z.max 0 (Qfloor (Vector2.y camera / inject_Z TILE_SIZE)).
Definition endY (camera : Vector2) : Z :=
  Z.min GRID_HEIGHT
        (Qceiling ((Vector2.y camera + inject_Z VIEWPORT_HEIGHT) / inject_Z TILE_SIZE)).

(** The cells [(x, y)] the two loops go through, in order. *)
Definition visited (camera : Vector2) : list (Z * Z) :=
  flat_map (fun y => map (fun x => (x, y)) (zrange (startX camera) (endX camera - 1)))
           (zrange (startY camera) (endY camera - 1)).

(** The calls of [drawTile] made for the given cells: the position and the
    tile whose type, durability and maxDurability are passed.  Reading a
    cell that is missing raises a TypeError in the source: [None]. *)
Fixpoint drawCells (g : Grid) (cells : list (Z * Z)) : option (list (Z * Z * Tile)) :=
  match cells with
  | [] => Some []
  | (x, y) :: rest =>
      match tileAt g x y with
      | None => None
      | Some tile =>
          match drawCells g rest with
          | None => None
          | Some calls => Some (if isAIR tile then calls else (x, y, tile) :: calls)
          end
      end
  end.

Definition drawnTiles (gameState : GameState) : option (list (Z * Z * Tile)) :=
  drawCells (grid gameState) (visited (camera gameState)).

(** The square of tile [(x, y)] overlaps the viewport of the camera. *)
Definition inView (camera : Vector2) (x y : Z) : Prop :=
  (Vector2.x camera < inject_Z (x + 1) * inject_Z TILE_SIZE)%Q /\
  (inject_Z x * inject_Z TILE_SIZE < Vector2.x camera + inject_Z VIEWPORT_WIDTH)%Q /\
  (Vector2.y camera < inject_Z (y + 1) * inject_Z TILE_SIZE)%Q /\
  (inject_Z y * inject_Z TILE_SIZE < Vector2.y camera + inject_Z VIEWPORT_HEIGHT)%Q.

(** The highlight is unset or names a tile of the grid. *)
Definition highlightInv (s : GameState) : Prop :=
  selectedTile s = None \/
  exists tx ty, 0 <= tx < GRID_WIDTH /\ 0 <= ty < GRID_HEIGHT /\
                selectedTile s = Some (Vector2.mk (inject_Z tx) (inject_Z ty)).

(** The displacement asked for on one axis by the keys held for the
    negative and the positive direction. *)
Definition axisIntent (neg pos : bool) : Q :=
  ((if pos then 5 else 0) - (if neg then 5 else 0))%Q.

Definition goLeft (keysPressed : list string) : bool :=
  has "KeyA" keysPressed || has "ArrowLeft" keysPressed.
Definition goRight (keysPressed : list string) : bool :=
  has "KeyD" keysPressed || has "ArrowRight" keysPressed.
Definition goUp (keysPressed : list string) : bool :=
  has "KeyW" keysPressed || has "ArrowUp" keysPressed.
Definition goDown (keysPressed : list string) : bool :=
  has "KeyS" keysPressed || has "ArrowDown" keysPressed.

(** * Properties *)

(** ** Ranges and grid cells *)

Lemma zrange_In lo hi z : In z (zrange lo hi) <-> lo <= z <= hi.
Proof.
  unfold zrange. rewrite in_map_iff. split.
  - intros (i & <- & Hi). apply in_seq in Hi. lia.
  - intros Hz. exists (Z.to_nat (z - lo)). split; [lia|].
    apply in_seq. lia.
Qed.

Lemma zrange_lookup lo hi (i : nat) :
  (i < Z.to_nat (hi - lo + 1))%nat -> zrange lo hi !! i = Some (lo + Z.of_nat i).
Proof.
  intros Hi. unfold zrange.
  rewrite list_lookup_fmap, lookup_seq_lt by exact Hi. reflexivity.
Qed.

Lemma zrange_length lo hi : length (zrange lo hi) = Z.to_nat (hi - lo + 1).
Proof. unfold zrange. rewrite length_map, length_seq. reflexivity. Qed.

Lemma outOfGrid_false x y :
  outOfGrid x y = false <-> 0 <= x < GRID_WIDTH /\ 0 <= y < GRID_HEIGHT.
Proof. unfold outOfGrid. rewrite !orb_false_iff. lia. Qed.

Lemma wf_grid_lookup g x y :
  wf_grid g -> 0 <= x < GRID_WIDTH -> 0 <= y < GRID_HEIGHT ->
  exists t, tileAt g x y = Some t.
Proof.
  intros [Hlen Hrows] Hx Hy. unfold tileAt.
  destruct (lookup_lt_is_Some_2 g (Z.to_nat y)) as [row Hrow]; [lia|].
  rewrite Hrow.
  rewrite Forall_forall in Hrows.
  assert (Hr : length row = Z.to_nat GRID_WIDTH).
  { apply Hrows. eapply list_elem_of_lookup_2; eauto. }
  destruct (lookup_lt_is_Some_2 row (Z.to_nat x)) as [t Ht]; [lia|].
  eauto.
Qed.

Lemma isAIR_true t : isAIR t = true <-> Tile.type t = AIR.
Proof. unfold isAIR. apply bool_decide_eq_true. Qed.

Lemma isAIR_false t : isAIR t = false <-> Tile.type t <> AIR.
Proof. unfold isAIR. apply bool_decide_eq_false. Qed.

Lemma solidCell_spec g x y :
  wf_grid g ->
  solidCell g x y = true <->
  outOfGrid x y = true \/ exists t, tileAt g x y = Some t /\ Tile.type t <> AIR.
Proof.
  intros Hwf. unfold solidCell.
  destruct (outOfGrid x y) eqn:Hout.
  - split; auto.
  - apply outOfGrid_false in Hout as [Hx Hy].
    destruct (wf_grid_lookup g x y Hwf Hx Hy) as [t Ht]. rewrite Ht.
    rewrite negb_true_iff, isAIR_false. split.
    + intros Hne. right. eauto.
    + intros [Hf | (t' & Ht' & Hne)]; [discriminate | congruence].
Qed.

Lemma checkCollision_spec g px py :
  wf_grid g ->
  checkCollision g px py = true <->
  exists x y,
    coverLo px <= x <= coverHi px /\ coverLo py <= y <= coverHi py /\
    (outOfGrid x y = true \/ exists t, tileAt g x y = Some t /\ Tile.type t <> AIR).
Proof.
  intros Hwf. unfold checkCollision. rewrite existsb_exists. split.
  - intros (y & Hy & Hrow). apply existsb_exists in Hrow as (x & Hx & Hs).
    apply zrange_In in Hx, Hy. exists x, y. repeat split; try lia.
    apply solidCell_spec; assumption.
  - intros (x & y & Hx & Hy & Hs). exists y. split; [apply zrange_In; lia|].
    apply existsb_exists. exists x. split; [apply zrange_In; lia|].
    apply solidCell_spec; assumption.
Qed.

(** ** Axis-separated movement *)

Lemma slide_axes g pos nx ny :
  (Vector2.x (slide g pos nx ny) <> Vector2.x pos ->
   checkCollision g (Vector2.x (slide g pos nx ny)) (Vector2.y pos) = false) /\
  (Vector2.y (slide g pos nx ny) <> Vector2.y pos ->
   checkCollision g (Vector2.x (slide g pos nx ny)) (Vector2.y (slide g pos nx ny)) = false) /\
  (slide g pos nx ny <> pos ->
   checkCollision g (Vector2.x (slide g pos nx ny)) (Vector2.y (slide g pos nx ny)) = false).
Proof.
  unfold slide. destruct pos as [px py]. cbn [Vector2.x Vector2.y].
  destruct (checkCollision g nx py) eqn:Hx; cbn [Vector2.x Vector2.y];
    destruct (checkCollision g _ ny) eqn:Hy; cbn [Vector2.x Vector2.y];
    repeat split; intros; congruence.
Qed.

Lemma slide_stays_clear g pos nx ny :
  collides g pos = false -> collides g (slide g pos nx ny) = false.
Proof.
  unfold slide, collides. destruct pos as [px py]. cbn [Vector2.x Vector2.y].
  destruct (checkCollision g nx py) eqn:Hx; cbn [Vector2.x Vector2.y];
    destruct (checkCollision g _ ny) eqn:Hy; cbn [Vector2.x Vector2.y];
    intros; congruence.
Qed.

Lemma movePlayer_pos g dx dy p :
  Entity.pos (movePlayer g dx dy p) =
  slide g (Entity.pos p) (Vector2.x (Entity.pos p) + dx) (Vector2.y (Entity.pos p) + dy).
Proof.
  unfold movePlayer, slide, Entity.with_pos. cbn [Entity.pos].
  destruct (checkCollision g _ (Vector2.y (Entity.pos p))); reflexivity.
Qed.

Lemma chase_pos heading g playerPos enemy :
  exists nx ny, Entity.pos (chase heading g playerPos enemy) = slide g (Entity.pos enemy) nx ny.
Proof.
  unfold chase, slide.
  destruct (heading _ _) as [co si].
  unfold Entity.with_direction, Entity.with_pos. cbn [Entity.pos]. eauto.
Qed.

(** C4.  On a 60 by 40 grid the collision query is true exactly when one of
    the tile indices covered by the body (shrunk by the margin of 8) is
    outside the grid or holds a non-AIR tile.  After the axis-separated
    step of the player, and of a hostile chasing the player: if the x
    coordinate changed, the query was negative at the new x and the old y;
    if the y coordinate changed, or the position changed at all, the query
    is negative at the resulting position; and a body that started clear
    of collision ends clear of collision. *)
Theorem collision_query_and_axis_steps (heading : Q -> Q -> Q * Q) (g : Grid) :
  wf_grid g ->
  (forall px py,
     checkCollision g px py = true <->
     exists x y,
       coverLo px <= x <= coverHi px /\ coverLo py <= y <= coverHi py /\
       (outOfGrid x y = true \/ exists t, tileAt g x y = Some t /\ Tile.type t <> AIR)) /\
  (forall dx dy p,
     let pos := Entity.pos p in
     let pos' := Entity.pos (movePlayer g dx dy p) in
     (Vector2.x pos' <> Vector2.x pos ->
      checkCollision g (Vector2.x pos') (Vector2.y pos) = false) /\
     (Vector2.y pos' <> Vector2.y pos ->
      checkCollision g (Vector2.x pos') (Vector2.y pos') = false) /\
     (pos' <> pos -> checkCollision g (Vector2.x pos') (Vector2.y pos') = false) /\
     (collides g pos = false -> collides g pos' = false)) /\
  (forall playerPos enemy,
     let pos := Entity.pos enemy in
     let pos' := Entity.pos (chase heading g playerPos enemy) in
     (Vector2.x pos' <> Vector2.x pos ->
      checkCollision g (Vector2.x pos') (Vector2.y pos) = false) /\
     (Vector2.y pos' <> Vector2.y pos ->
      checkCollision g (Vector2.x pos') (Vector2.y pos') = false) /\
     (pos' <> pos -> checkCollision g (Vector2.x pos') (Vector2.y pos') = false) /\
     (collides g pos = false -> collides g pos' = false)).
Proof.
  intros Hwf. split; [|split].
  - intros px py. apply checkCollision_spec, Hwf.
  - intros dx dy p. cbv zeta. rewrite movePlayer_pos.
    destruct (slide_axes g (Entity.pos p) (Vector2.x (Entity.pos p) + dx)
                (Vector2.y (Entity.pos p) + dy)) as (Hx & Hy & Hxy).
    repeat apply conj; [exact Hx | exact Hy | exact Hxy | apply slide_stays_clear].
  - intros playerPos enemy. cbv zeta.
    destruct (chase_pos heading g playerPos enemy) as (nx & ny & ->).
    destruct (slide_axes g (Entity.pos enemy) nx ny) as (Hx & Hy & Hxy).
    repeat apply conj; [exact Hx | exact Hy | exact Hxy | apply slide_stays_clear].
Qed.

(** ** Writing cells *)

Lemma setTile_wf g x y t : wf_grid g -> wf_grid (setTile g x y t).
Proof.
  intros [Hlen Hrows]. unfold setTile.
  destruct (g !! Z.to_nat y) as [row|] eqn:Hrow; [|split; assumption].
  split; [rewrite length_insert; exact Hlen|].
  apply Forall_insert; [exact Hrows|].
  rewrite length_insert. rewrite Forall_forall in Hrows.
  apply Hrows. eapply list_elem_of_lookup_2; eauto.
Qed.

Lemma tileAt_setTile g x y t x' y' :
  wf_grid g -> 0 <= x < GRID_WIDTH -> 0 <= y < GRID_HEIGHT -> 0 <= x' -> 0 <= y' ->
  tileAt (setTile g x y t) x' y' =
  if (x =? x') && (y =? y') then Some t else tileAt g x' y'.
Proof.
  intros [Hlen Hrows] Hx Hy Hx' Hy'. unfold setTile, tileAt.
  destruct (lookup_lt_is_Some_2 g (Z.to_nat y)) as [row Hrow]; [lia|].
  rewrite Hrow.
  assert (Hr : length row = Z.to_nat GRID_WIDTH).
  { rewrite Forall_forall in Hrows. apply Hrows. eapply list_elem_of_lookup_2; eauto. }
  destruct (Z.eqb_spec y y') as [<-|Hny].
  - rewrite list_lookup_insert_eq by lia.
    destruct (Z.eqb_spec x x') as [<-|Hnx]; cbn [andb].
    + apply list_lookup_insert_eq. lia.
    + rewrite Hrow. apply list_lookup_insert_ne. lia.
  - rewrite andb_false_r. rewrite list_lookup_insert_ne by lia. reflexivity.
Qed.

(** ** The layered fill *)

Lemma layeredGrid_wf : wf_grid layeredGrid.
Proof.
  unfold wf_grid, layeredGrid. split.
  - rewrite length_map, zrange_length. reflexivity.
  - apply Forall_forall. intros row Hrow.
    apply list_elem_of_In, in_map_iff in Hrow as (y & <- & _).
    rewrite length_map, zrange_length. reflexivity.
Qed.

Lemma layeredGrid_lookup x y :
  0 <= x < GRID_WIDTH -> 0 <= y < GRID_HEIGHT ->
  tileAt layeredGrid x y = Some (layerTile y).
Proof.
  intros Hx Hy. unfold tileAt, layeredGrid.
  rewrite list_lookup_fmap, zrange_lookup by (unfold GRID_HEIGHT in *; lia).
  cbn [fmap option_fmap option_map].
  rewrite list_lookup_fmap, zrange_lookup by (unfold GRID_WIDTH in *; lia).
  cbn [fmap option_fmap option_map]. f_equal. f_equal. lia.
Qed.

Lemma layerType_rows y :
  (0 <= y <= 4 -> layerType y = AIR) /\
  (y = 5 -> layerType y = GRASS) /\
  (6 <= y <= 9 -> layerType y = DIRT) /\
  (10 <= y -> layerType y = STONE).
Proof.
  unfold layerType.
  destruct (Z.eqb_spec y 5), (Z.ltb_spec 5 y), (Z.ltb_spec y 10), (Z.leb_spec 10 y);
    cbn [andb]; repeat split; intros; try reflexivity; lia.
Qed.

(** ** Draws *)

Lemma randInt_bounds r n :
  (0 <= r)%Q -> (r < 1)%Q -> 0 < n -> 0 <= randInt r n < n.
Proof.
  intros H0 H1 Hn. unfold randInt.
  assert (Hpos : (0 < inject_Z n)%Q) by (rewrite Zlt_Qlt in Hn; exact Hn).
  split.
  - rewrite <- (Qfloor_Z 0). apply Qfloor_resp_le.
    apply Qmult_le_0_compat; [exact H0 | apply Qlt_le_weak, Hpos].
  - rewrite Zlt_Qlt. eapply Qle_lt_trans; [apply Qfloor_le|].
    rewrite <- (Qmult_1_l (inject_Z n)) at 2.
    apply Qmult_lt_compat_r; assumption.
Qed.

Lemma walkLength_bounds r : (0 <= r)%Q -> (r < 1)%Q -> 20 <= walkLength r <= 59.
Proof.
  intros H0 H1. unfold walkLength.
  pose proof (randInt_bounds r 40 H0 H1 ltac:(lia)). lia.
Qed.

Lemma discRadius_bounds r : (0 <= r)%Q -> (r < 1)%Q -> 2 <= discRadius r <= 3.
Proof.
  intros H0 H1. unfold discRadius.
  pose proof (randInt_bounds r 2 H0 H1 ltac:(lia)). lia.
Qed.

(** ** Carving *)


Lemma carveCell_wf cx cy radius g dx dy : wf_grid g -> wf_grid (carveCell cx cy radius g dx dy).
Proof.
  intros Hwf. unfold carveCell.
  destruct (_ && _ && _ && _); [|exact Hwf].
  destruct (hypot_le dx dy radius); [apply setTile_wf|]; exact Hwf.
Qed.

Lemma carveCell_lookup cx cy radius g dx dy x y :
  wf_grid g -> 0 <= x -> 0 <= y ->
  tileAt (carveCell cx cy radius g dx dy) x y =
  if hits cx cy radius x y dx dy then Some AIR_TILE else tileAt g x y.
Proof.
  intros Hwf Hx Hy. unfold carveCell, hits.
  destruct ((0 <=? cx + dx) && (cx + dx <? GRID_WIDTH) && (10 <=? cy + dy)
            && (cy + dy <? GRID_HEIGHT)) eqn:Hin; cbn [andb]; [|reflexivity].
  destruct (hypot_le dx dy radius); cbn [andb]; [|reflexivity].
  rewrite !andb_true_iff in Hin. destruct Hin as [[[H1 H2] H3] H4].
  apply tileAt_setTile; try assumption; unfold GRID_HEIGHT in *; lia.
Qed.

Lemma carveRow_spec cx cy radius dy dxs : forall g,
  wf_grid g ->
  let g' := fold_left (fun g'' dx => carveCell cx cy radius g'' dx dy) dxs g in
  wf_grid g' /\
  forall x y, 0 <= x -> 0 <= y ->
    tileAt g' x y =
    if existsb (fun dx => hits cx cy radius x y dx dy) dxs then Some AIR_TILE
    else tileAt g x y.
Proof.
  induction dxs as [|dx dxs IH]; intros g Hwf; cbn [fold_left existsb].
  - split; [exact Hwf | reflexivity].
  - destruct (IH (carveCell cx cy radius g dx dy) (carveCell_wf _ _ _ _ _ _ Hwf))
      as [Hwf' Hl].
    split; [exact Hwf'|]. intros x y Hx Hy.
    cbv zeta in Hl. rewrite (Hl x y Hx Hy), carveCell_lookup by assumption.
    destruct (hits cx cy radius x y dx dy); cbn [orb];
      destruct (existsb _ dxs); reflexivity.
Qed.

Lemma carveRows_spec cx cy radius dxs dys : forall g,
  wf_grid g ->
  let g' := fold_left
              (fun g1 dy => fold_left (fun g2 dx => carveCell cx cy radius g2 dx dy) dxs g1)
              dys g in
  wf_grid g' /\
  forall x y, 0 <= x -> 0 <= y ->
    tileAt g' x y =
    if existsb (fun dy => existsb (fun dx => hits cx cy radius x y dx dy) dxs) dys
    then Some AIR_TILE else tileAt g x y.
Proof.
  induction dys as [|dy dys IH]; intros g Hwf; cbn [fold_left existsb].
  - split; [exact Hwf | reflexivity].
  - destruct (carveRow_spec cx cy radius dy dxs g Hwf) as [Hwf1 Hl1].
    destruct (IH _ Hwf1) as [Hwf' Hl].
    split; [exact Hwf'|]. intros x y Hx Hy.
    cbv zeta in Hl, Hl1. rewrite (Hl x y Hx Hy), (Hl1 x y Hx Hy).
    destruct (existsb (fun dx => hits cx cy radius x y dx dy) dxs); cbn [orb];
      destruct (existsb _ dys); reflexivity.
Qed.

Lemma scan_hits cx cy radius x y :
  0 <= x < GRID_WIDTH -> 0 <= y < GRID_HEIGHT ->
  existsb (fun dy => existsb (fun dx => hits cx cy radius x y dx dy)
                             (zrange (- radius) radius))
          (zrange (- radius) radius)
  = (10 <=? y) && inDisc cx cy radius x y.
Proof.
  intros Hx Hy. apply eq_true_iff_eq.
  rewrite existsb_exists. unfold inDisc, hits.
  rewrite !andb_true_iff, !Z.leb_le. split.
  - intros (dy & Hdy & Hrow). apply existsb_exists in Hrow as (dx & Hdx & Hh).
    apply zrange_In in Hdx, Hdy.
    rewrite !andb_true_iff, !Z.leb_le, !Z.ltb_lt, !Z.eqb_eq in Hh.
    destruct Hh as [[[[[[H1 H2] H3] H4] H5] H6] H7].
    assert (dx = x - cx) by lia. assert (dy = y - cy) by lia. subst dx dy.
    repeat split; try assumption; lia.
  - intros [H10 [[Hax Hay] Hh]].
    exists (y - cy). split; [apply zrange_In; lia|].
    apply existsb_exists. exists (x - cx). split; [apply zrange_In; lia|].
    rewrite !andb_true_iff, !Z.leb_le, !Z.ltb_lt, !Z.eqb_eq.
    repeat split; try assumption; lia.
Qed.

Lemma carveDisc_spec cx cy radius g :
  wf_grid g ->
  wf_grid (carveDisc cx cy radius g) /\
  forall x y, 0 <= x < GRID_WIDTH -> 0 <= y < GRID_HEIGHT ->
    tileAt (carveDisc cx cy radius g) x y =
    if (10 <=? y) && inDisc cx cy radius x y then Some AIR_TILE else tileAt g x y.
Proof.
  intros Hwf. unfold carveDisc.
  destruct (carveRows_spec cx cy radius (zrange (- radius) radius)
              (zrange (- radius) radius) g Hwf) as [Hwf' Hl].
  split; [exact Hwf'|]. intros x y Hx Hy.
  cbv zeta in Hl. rewrite Hl by lia. rewrite scan_hits by assumption. reflexivity.
Qed.

Lemma carvedFrom_refl g : wf_grid g -> carvedFrom g g.
Proof. intros Hwf. split; [exact Hwf|]. intros; left; reflexivity. Qed.

Lemma carvedFrom_trans g1 g2 g3 : carvedFrom g1 g2 -> carvedFrom g2 g3 -> carvedFrom g1 g3.
Proof.
  intros [_ H12] [Hwf H23]. split; [exact Hwf|]. intros x y Hx Hy.
  destruct (H23 x y Hx Hy) as [-> | Hair]; [apply H12; assumption | right; exact Hair].
Qed.

Lemma carveDisc_carved cx cy radius g : wf_grid g -> carvedFrom g (carveDisc cx cy radius g).
Proof.
  intros Hwf. destruct (carveDisc_spec cx cy radius g Hwf) as [Hwf' Hl].
  split; [exact Hwf'|]. intros x y Hx Hy. rewrite (Hl x y Hx Hy).
  destruct (Z.leb_spec 10 y); cbn [andb]; [|left; reflexivity].
  destruct (inDisc cx cy radius x y); [right | left]; auto.
Qed.

Lemma walk_carved rnd steps : forall n cx cy g,
  wf_grid g -> carvedFrom g (fst (walk rnd steps n cx cy g)).
Proof.
  induction steps as [|steps IH]; intros n cx cy g Hwf; cbn [walk fst].
  - apply carvedFrom_refl, Hwf.
  - pose proof (carveDisc_carved cx cy (discRadius (rnd n)) g Hwf) as Hd.
    destruct (_ || _ || _ || _); cbn [fst]; [exact Hd|].
    eapply carvedFrom_trans; [exact Hd|]. apply IH. apply Hd.
Qed.

Lemma caves_carved rnd count : forall n g,
  wf_grid g -> carvedFrom g (fst (caves rnd count n g)).
Proof.
  induction count as [|count IH]; intros n g Hwf; cbn [caves fst].
  - apply carvedFrom_refl, Hwf.
  - match goal with
    | |- context [walk rnd ?st ?m ?cx ?cy g] =>
        pose proof (walk_carved rnd st m cx cy g Hwf) as Hw;
        destruct (walk rnd st m cx cy g) as [g1 n1]
    end.
    cbn [fst] in Hw. eapply carvedFrom_trans; [exact Hw|]. apply IH. apply Hw.
Qed.

Lemma placeResource_rows fuel rnd type count minY : forall placed n g g' n',
  unit_draws rnd -> 0 <= minY < GRID_HEIGHT -> wf_grid g ->
  placeResource fuel rnd type count minY placed n g = Some (g', n') ->
  wf_grid g' /\
  forall x y, 0 <= x -> 0 <= y < minY -> tileAt g' x y = tileAt g x y.
Proof.
  induction fuel as [|fuel IH]; intros placed n g g' n' Hrnd HminY Hwf;
    cbn [placeResource]; destruct (placed <? count).
  - discriminate.
  - intros [= <- <-]. auto.
  - destruct (Hrnd n) as [Hx0 Hx1]. destruct (Hrnd (n + 1)%nat) as [Hy0 Hy1].
    pose proof (randInt_bounds (rnd n) GRID_WIDTH Hx0 Hx1 ltac:(unfold GRID_WIDTH; lia)) as Hrx.
    pose proof (randInt_bounds (rnd (n + 1)%nat) (GRID_HEIGHT - minY) Hy0 Hy1 ltac:(lia)) as Hry.
    destruct (tileAt g _ _) as [t|]; [|discriminate].
    destruct (_ || _); intros H.
    + apply IH in H as [Hwf' Hl]; [|assumption|assumption|apply setTile_wf, Hwf].
      split; [exact Hwf'|]. intros x y Hx Hy. rewrite (Hl x y Hx Hy).
      rewrite tileAt_setTile by (try assumption; lia).
      replace (_ =? y) with false by (symmetry; apply Z.eqb_neq; lia).
      rewrite andb_false_r. reflexivity.
    + apply IH in H; assumption.
  - intros [= <- <-]. auto.
Qed.

Lemma walk_draws rnd steps : forall n cx cy g,
  (n + 3 * Nat.min 1 steps <= snd (walk rnd steps n cx cy g) <= n + 3 * steps)%nat.
Proof.
  induction steps as [|steps IH]; intros n cx cy g; cbn [walk snd]; [lia|].
  destruct (_ || _ || _ || _); cbn [snd]; [lia|].
  specialize (IH (n + 3)%nat (cx + (randInt (rnd (n + 1)%nat) 5 - 2))
                (cy + (randInt (rnd (n + 2)%nat) 3 - 1))
                (carveDisc cx cy (discRadius (rnd n)) g)).
  lia.
Qed.

Lemma caves_layers rnd n x y :
  0 <= x < GRID_WIDTH -> 0 <= y < GRID_HEIGHT ->
  let g' := fst (caves rnd 15 n layeredGrid) in
  wf_grid g' /\
  (tileAt g' x y = Some (layerTile y) \/ (10 <= y /\ tileAt g' x y = Some AIR_TILE)).
Proof.
  intros Hx Hy g'. destruct (caves_carved rnd 15 n layeredGrid layeredGrid_wf) as [Hwf Hc].
  split; [exact Hwf|]. subst g'.
  rewrite <- (layeredGrid_lookup x y Hx Hy). apply Hc; assumption.
Qed.

Lemma startGame_rows fuel rnd s0 :
  unit_draws rnd -> startGame fuel rnd = Some s0 ->
  wf_grid (grid s0) /\
  forall x y, 0 <= x < GRID_WIDTH -> 0 <= y < 10 ->
    tileAt (grid s0) x y = Some (layerTile y).
Proof.
  intros Hrnd. unfold startGame, initGame.
  pose proof (caves_carved rnd 15 0 layeredGrid layeredGrid_wf) as [Hwf0 Hc].
  destruct (caves rnd 15 0 layeredGrid) as [g0 n0]. cbn [fst] in *.
  destruct (placeResource fuel rnd SHARD 15 12 0 n0 g0) as [[g1 n1]|] eqn:H1; [|discriminate].
  destruct (placeResource fuel rnd GOLD GOLD_COUNT 20 0 n1 g1) as [[g2 n2]|] eqn:H2;
    [|discriminate].
  destruct (placeResource fuel rnd DIAMOND DIAMOND_COUNT 40 0 n2 g2) as [[g3 n3]|] eqn:H3;
    [|discriminate].
  intros [= <-]. cbn [grid with_status].
  apply placeResource_rows in H1 as [Hwf1 Hl1];
    [|assumption|unfold GRID_HEIGHT; lia|assumption].
  apply placeResource_rows in H2 as [Hwf2 Hl2];
    [|assumption|unfold GRID_HEIGHT; lia|assumption].
  apply placeResource_rows in H3 as [Hwf3 Hl3];
    [|assumption|unfold GRID_HEIGHT; lia|assumption].
  split; [exact Hwf3|]. intros x y Hx Hy.
  rewrite Hl3, Hl2, Hl1 by lia.
  destruct (Hc x y Hx ltac:(unfold GRID_HEIGHT; lia)) as [-> | [H10 _]]; [|lia].
  apply layeredGrid_lookup; [assumption | unfold GRID_HEIGHT; lia].
Qed.

(** ** The walks of [caves] *)

Lemma walk_spec rnd s steps : forall j g,
  wf_grid g ->
  let r := walk rnd steps (s + 3 + 3 * j) (fst (walkCentre rnd s j))
                (snd (walkCentre rnd s j)) g in
  exists K,
    (j <= K <= j + steps)%nat /\ ((1 <= steps)%nat -> (j < K)%nat) /\
    (forall k, (j < k < K)%nat -> inCaveArea (walkCentre rnd s k) = true) /\
    ((K < j + steps)%nat -> inCaveArea (walkCentre rnd s K) = false) /\
    snd r = (s + 3 + 3 * K)%nat /\
    wf_grid (fst r) /\
    forall x y, 0 <= x < GRID_WIDTH -> 0 <= y < GRID_HEIGHT ->
      tileAt (fst r) x y =
      if (10 <=? y) && existsb (stepCovers rnd s x y) (seq j (K - j))
      then Some AIR_TILE else tileAt g x y.
Proof.
  induction steps as [|steps IH]; intros j g Hwf; cbv zeta.
  - exists j. cbn [walk fst snd]. rewrite Nat.sub_diag. cbn [seq existsb].
    split; [lia|]. split; [lia|]. split; [lia|]. split; [lia|].
    split; [reflexivity|]. split; [exact Hwf|]. intros x y _ _.
    rewrite andb_false_r. reflexivity.
  - cbn [walk].
    set (cx := fst (walkCentre rnd s j)). set (cy := snd (walkCentre rnd s j)).
    set (n := (s + 3 + 3 * j)%nat).
    destruct (carveDisc_spec cx cy (discRadius (rnd n)) g Hwf) as [Hwf1 Hd].
    set (g1 := carveDisc cx cy (discRadius (rnd n)) g) in *.
    assert (Hnext : walkCentre rnd s (S j) =
              (cx + (randInt (rnd (n + 1)%nat) 5 - 2), cy + (randInt (rnd (n + 2)%nat) 3 - 1)))
      by reflexivity.
    set (cx' := cx + (randInt (rnd (n + 1)%nat) 5 - 2)) in *.
    set (cy' := cy + (randInt (rnd (n + 2)%nat) 3 - 1)) in *.
    assert (Harea : inCaveArea (walkCentre rnd s (S j)) =
              negb ((cx' <? 0) || (cx' >=? GRID_WIDTH) || (cy' <? 10) || (cy' >=? GRID_HEIGHT))).
    { rewrite Hnext. unfold inCaveArea. cbn [fst snd].
      destruct (Z.ltb_spec cx' 0), (Z.leb_spec 0 cx'); try lia;
        destruct (Z.ltb_spec cx' GRID_WIDTH), (Z.geb_spec cx' GRID_WIDTH); try lia;
        destruct (Z.ltb_spec cy' 10), (Z.leb_spec 10 cy'); try lia;
        destruct (Z.ltb_spec cy' GRID_HEIGHT), (Z.geb_spec cy' GRID_HEIGHT); try lia;
        reflexivity. }
    assert (Hone : forall x y,
              existsb (stepCovers rnd s x y) [j] = inDisc cx cy (discRadius (rnd n)) x y).
    { intros x y. cbn [existsb]. rewrite orb_false_r. reflexivity. }
    destruct ((cx' <? 0) || (cx' >=? GRID_WIDTH) || (cy' <? 10) || (cy' >=? GRID_HEIGHT))
      eqn:Hout.
    + exists (S j). cbn [fst snd].
      split; [lia|]. split; [lia|]. split; [lia|].
      split; [intros _; rewrite Harea; reflexivity|].
      split; [subst n; lia|]. split; [exact Hwf1|]. intros x y Hx Hy.
      replace (S j - j)%nat with 1%nat by lia. cbn [seq]. rewrite Hone.
      apply Hd; assumption.
    + replace (n + 3)%nat with (s + 3 + 3 * S j)%nat by (subst n; lia).
      specialize (IH (S j) g1 Hwf1). cbv zeta in IH. rewrite Hnext in IH.
      cbn [fst snd] in IH.
      destruct IH as (K & HK & Hpos & Hin & Hstop & Hn & Hwf' & Hcells).
      exists K.
      split; [lia|]. split; [lia|].
      split.
      { intros k Hk. destruct (Nat.eq_dec k (S j)) as [->|Hne];
          [rewrite Harea; reflexivity | apply Hin; lia]. }
      split; [intros HK'; apply Hstop; lia|].
      split; [exact Hn|]. split; [exact Hwf'|]. intros x y Hx Hy.
      rewrite (Hcells x y Hx Hy), (Hd x y Hx Hy).
      replace (K - j)%nat with (S (K - S j)) by lia. cbn [seq existsb].
      fold (stepCovers rnd s x y j).
      assert (Hj : stepCovers rnd s x y j = inDisc cx cy (discRadius (rnd n)) x y)
        by reflexivity.
      rewrite <- Hj.
      destruct (10 <=? y), (stepCovers rnd s x y j),
        (existsb (stepCovers rnd s x y) (seq (S j) (K - S j))); reflexivity.
Qed.

Lemma walkCentre_start rnd s :
  unit_draws rnd -> inCaveArea (walkCentre rnd s 0) = true.
Proof.
  intros Hrnd. destruct (Hrnd s) as [Hx0 Hx1]. destruct (Hrnd (s + 1)%nat) as [Hy0 Hy1].
  pose proof (randInt_bounds (rnd s) GRID_WIDTH Hx0 Hx1 ltac:(unfold GRID_WIDTH; lia)) as Hx.
  pose proof (randInt_bounds (rnd (s + 1)%nat) (GRID_HEIGHT - 15) Hy0 Hy1
                ltac:(unfold GRID_HEIGHT; lia)) as Hy.
  unfold inCaveArea. cbn [walkCentre fst snd]. unfold GRID_HEIGHT in *.
  rewrite !andb_true_iff, !Z.leb_le, !Z.ltb_lt. lia.
Qed.

Lemma caves_spec rnd count : forall n g,
  unit_draws rnd -> wf_grid g ->
  exists ws,
    length ws = count /\ chained n ws /\ Forall (walkOk rnd) ws /\
    snd (caves rnd count n g) = (n + 3 * count + 3 * list_sum (map snd ws))%nat /\
    wf_grid (fst (caves rnd count n g)) /\
    forall x y, 0 <= x < GRID_WIDTH -> 0 <= y < GRID_HEIGHT ->
      tileAt (fst (caves rnd count n g)) x y =
      if carvedByWalks rnd ws x y then Some AIR_TILE else tileAt g x y.
Proof.
  induction count as [|count IH]; intros n g Hrnd Hwf.
  - exists []. cbn [caves fst length chained]. split; [reflexivity|]. split; [exact I|].
    split; [constructor|]. split; [cbn [snd map]; change (list_sum []) with 0%nat; lia|].
    split; [exact Hwf|]. intros x y _ _.
    unfold carvedByWalks. cbn [existsb]. rewrite andb_false_r. reflexivity.
  - cbn [caves].
    destruct (Hrnd (n + 2)%nat) as [H0 H1].
    pose proof (walkLength_bounds (rnd (n + 2)%nat) H0 H1) as Hlen.
    pose proof (walk_spec rnd n (Z.to_nat (walkLength (rnd (n + 2)%nat))) 0 g Hwf) as Hw.
    cbv zeta in Hw.
    replace (n + 3 + 3 * 0)%nat with (n + 3)%nat in Hw by lia.
    cbn [walkCentre fst snd] in Hw.
    destruct (walk rnd _ (n + 3) _ _ g) as [g1 n1]. cbn [fst snd] in Hw.
    destruct Hw as (K & HK & Hpos & Hin & Hstop & Hn & Hwf1 & Hcells).
    destruct (IH n1 g1 Hrnd Hwf1) as (ws & Hl & Hch & Hok & Hdraws & Hwf' & Hrest).
    exists ((n, K) :: ws). cbn [length chained fst snd].
    split; [rewrite Hl; reflexivity|].
    split; [split; [reflexivity | rewrite <- Hn; exact Hch]|].
    split.
    { constructor; [|exact Hok]. unfold walkOk, walkBudget. cbn [fst snd].
      split; [lia|]. split; [lia|]. split.
      - intros k Hk. destruct k as [|k]; [apply walkCentre_start, Hrnd | apply Hin; lia].
      - intros HK'. apply Hstop. lia. }
    split.
    { rewrite Hdraws, Hn.
      change (list_sum (map snd ((n, K) :: ws))) with (K + list_sum (map snd ws))%nat. lia. }
    split; [exact Hwf'|]. intros x y Hx Hy.
    rewrite (Hrest x y Hx Hy), (Hcells x y Hx Hy).
    unfold carvedByWalks. cbn [existsb fst snd]. rewrite Nat.sub_0_r.
    destruct (10 <=? y), (existsb (stepCovers rnd n x y) (seq 0 K)),
      (existsb _ ws); reflexivity.
Qed.

Lemma inDisc_centre cx cy radius : 0 <= radius -> inDisc cx cy radius cx cy = true.
Proof.
  intros Hr. unfold inDisc, hypot_le. rewrite !Z.sub_diag. cbn [Z.abs].
  rewrite !andb_true_iff, !Z.leb_le. nia.
Qed.

Lemma walk_start_carved rnd ws w x y :
  unit_draws rnd -> Forall (walkOk rnd) ws -> In w ws ->
  (x, y) = walkCentre rnd (fst w) 0 -> carvedByWalks rnd ws x y = true.
Proof.
  intros Hrnd Hok Hin Hxy. rewrite Forall_forall in Hok.
  destruct (Hok w (proj2 (list_elem_of_In _ _) Hin)) as (HK & _ & _ & _).
  pose proof (walkCentre_start rnd (fst w) Hrnd) as Harea. rewrite <- Hxy in Harea.
  unfold inCaveArea in Harea. cbn [fst snd] in Harea.
  rewrite !andb_true_iff in Harea. destruct Harea as [[_ H10] _].
  unfold carvedByWalks. rewrite H10. cbn [andb].
  apply existsb_exists. exists w. split; [exact Hin|].
  apply existsb_exists. exists 0%nat. split; [apply in_seq; lia|].
  unfold stepCovers. rewrite <- Hxy. cbn [fst snd]. apply inDisc_centre.
  unfold walkRadius. destruct (Hrnd (fst w + 3 + 3 * 0)%nat) as [H0 H1].
  pose proof (discRadius_bounds _ H0 H1). lia.
Qed.

(** C7, as amended.  For draws in [0, 1): the layered fill puts AIR on rows
    0..4, GRASS on row 5, DIRT on rows 6..9 and STONE on rows 10 and below.
    [caves] runs fifteen walks, each beginning at the draw after the last
    one of the walk before it.  A walk draws a length between 20 and 59
    and a radius of 2 or 3 for each disc; it carves at least one disc and
    at most as many as its length, every one centred in columns 0..39 and
    rows 10..59, and it carves fewer than its length only when its next
    centre has left that area.  The grid after the fifteen walks is the
    layered grid with AIR exactly on the cells of rows 10 and below that
    pass the Euclidean test of one of these discs; the start of every
    walk is among them.  So rows 0..9 are untouched, and they still are
    in the world a session starts with. *)
Theorem layers_and_caves (rnd : Rand) :
  unit_draws rnd ->
  (forall x y, 0 <= x < GRID_WIDTH -> 0 <= y < GRID_HEIGHT ->
     tileAt layeredGrid x y = Some (layerTile y)) /\
  (forall y,
     (0 <= y <= 4 -> layerType y = AIR) /\ (y = 5 -> layerType y = GRASS) /\
     (6 <= y <= 9 -> layerType y = DIRT) /\ (10 <= y -> layerType y = STONE)) /\
  (forall s k, 20 <= walkBudget rnd s <= 59 /\ 2 <= walkRadius rnd s k <= 3) /\
  (forall g cx cy radius x y,
     wf_grid g -> 0 <= x < GRID_WIDTH -> 0 <= y < GRID_HEIGHT ->
     tileAt (carveDisc cx cy radius g) x y =
     if (10 <=? y) && inDisc cx cy radius x y then Some AIR_TILE else tileAt g x y) /\
  (exists ws,
     length ws = 15%nat /\ chained 0 ws /\ Forall (walkOk rnd) ws /\
     snd (caves rnd 15 0 layeredGrid) = (3 * 15 + 3 * list_sum (map snd ws))%nat /\
     (forall x y, 0 <= x < GRID_WIDTH -> 0 <= y < GRID_HEIGHT ->
        tileAt (fst (caves rnd 15 0 layeredGrid)) x y =
        if carvedByWalks rnd ws x y then Some AIR_TILE else Some (layerTile y)) /\
     (forall w, In w ws ->
        tileAt (fst (caves rnd 15 0 layeredGrid))
               (fst (walkCentre rnd (fst w) 0)) (snd (walkCentre rnd (fst w) 0))
        = Some AIR_TILE)) /\
  (forall x y, 0 <= x < GRID_WIDTH -> 0 <= y < 10 ->
     tileAt (fst (caves rnd 15 0 layeredGrid)) x y = Some (layerTile y)) /\
  (forall fuel s0, startGame fuel rnd = Some s0 ->
     forall x y, 0 <= x < GRID_WIDTH -> 0 <= y < 10 ->
       tileAt (grid s0) x y = Some (layerTile y)).
Proof.
  intros Hrnd.
  destruct (caves_spec rnd 15 0 layeredGrid Hrnd layeredGrid_wf)
    as (ws & Hl & Hch & Hok & Hdraws & Hwf & Hcells).
  assert (Hg : forall x y, 0 <= x < GRID_WIDTH -> 0 <= y < GRID_HEIGHT ->
            tileAt (fst (caves rnd 15 0 layeredGrid)) x y =
            if carvedByWalks rnd ws x y then Some AIR_TILE else Some (layerTile y)).
  { intros x y Hx Hy. rewrite (Hcells x y Hx Hy), layeredGrid_lookup by assumption.
    reflexivity. }
  split; [apply layeredGrid_lookup|]. split; [apply layerType_rows|].
  split.
  { intros s k. destruct (Hrnd (s + 2)%nat) as [H0 H1].
    destruct (Hrnd (s + 3 + 3 * k)%nat) as [H2 H3].
    split; [apply walkLength_bounds | apply discRadius_bounds]; assumption. }
  split; [intros g cx cy radius x y Hwf'; apply carveDisc_spec, Hwf'|].
  split.
  { exists ws. split; [exact Hl|]. split; [exact Hch|]. split; [exact Hok|].
    split; [rewrite Hdraws; lia|]. split; [exact Hg|].
    intros w Hin.
    pose proof (walkCentre_start rnd (fst w) Hrnd) as Harea.
    unfold inCaveArea in Harea. rewrite !andb_true_iff, !Z.leb_le, !Z.ltb_lt in Harea.
    rewrite Hg by lia.
    rewrite (walk_start_carved rnd ws w _ _ Hrnd Hok Hin); [reflexivity|].
    destruct (walkCentre rnd (fst w) 0); reflexivity. }
  split.
  { intros x y Hx Hy. rewrite Hg by (unfold GRID_HEIGHT; lia).
    unfold carvedByWalks. replace (10 <=? y) with false by (symmetry; apply Z.leb_gt; lia).
    reflexivity. }
  intros fuel s0 H0. apply (startGame_rows fuel rnd s0 Hrnd H0).
Qed.

(** C7, as stated, fails: on the sample draws the first ten walks use the
    draws 0..1226; the eleventh begins at column 24, row 58 with a drawn
    length of 33 and ends after five discs (fifteen draws), its centre
    having left the grid by the bottom row; the last four walks go on from
    there. *)
Lemma cave_walk_stops_early :
  let g := fst (caves sampleRnd 10 0 layeredGrid) in
  let n := snd (caves sampleRnd 10 0 layeredGrid) in
  n = 1227%nat /\
  randInt (sampleRnd n) GRID_WIDTH = 24 /\
  randInt (sampleRnd (n + 1)%nat) (GRID_HEIGHT - 15) + 15 = 58 /\
  walkLength (sampleRnd (n + 2)%nat) = 33 /\
  snd (walk sampleRnd 33 (n + 3) 24 58 g) = (n + 3 + 3 * 5)%nat /\
  caves sampleRnd 15 0 layeredGrid =
    caves sampleRnd 4 (n + 3 + 3 * 5) (fst (walk sampleRnd 33 (n + 3) 24 58 g)) /\
  ~ 20 <= 5.
Proof.
  cbv zeta.
  split; [vm_compute; reflexivity|]. split; [vm_compute; reflexivity|].
  split; [vm_compute; reflexivity|]. split; [vm_compute; reflexivity|].
  split; [vm_compute; reflexivity|]. split; [vm_compute; reflexivity | lia].
Qed.

(** ** The hostile pass of the two attack handlers *)

Lemma hitParticles_hit rnd n ex ey : Forall isHitParticle (hitParticles rnd n ex ey).
Proof.
  unfold hitParticles. apply Forall_forall. intros p Hp.
  apply list_elem_of_In, in_map_iff in Hp as (i & <- & _).
  repeat split.
Qed.

Lemma hitParticles_length rnd n ex ey : length (hitParticles rnd n ex ey) = 5%nat.
Proof. reflexivity. Qed.

Lemma strike_spec rnd inRange dmg es : forall ps n hit,
  exists extra n',
    strike rnd inRange dmg es ps n hit =
      (map (struck inRange dmg) es, ps ++ extra, n', hit || existsb inRange es) /\
    Forall isHitParticle extra /\
    length extra = (5 * length (List.filter inRange es))%nat.
Proof.
  induction es as [|e es IH]; intros ps n hit.
  - exists [], n. cbn [strike map existsb List.filter length].
    rewrite app_nil_r, orb_false_r. repeat split. constructor.
  - cbn [strike map existsb List.filter]. unfold struck at 1.
    destruct (inRange e) eqn:He.
    + destruct (IH (ps ++ hitParticles rnd n (Vector2.x (Entity.pos e))
                                  (Vector2.y (Entity.pos e))) (n + 10)%nat true)
        as (extra & n' & -> & Hhit & Hlen).
      exists (hitParticles rnd n (Vector2.x (Entity.pos e)) (Vector2.y (Entity.pos e))
              ++ extra), n'.
      rewrite <- app_assoc, orb_true_r. cbn [orb]. repeat split.
      * apply Forall_app. split; [apply hitParticles_hit | exact Hhit].
      * rewrite length_app, hitParticles_length. cbn [length]. lia.
    + destruct (IH ps n hit) as (extra & n' & -> & Hhit & Hlen).
      exists extra, n'. cbn [orb]. repeat split; assumption.
Qed.

(** ** The hostile loop of a tick *)

Lemma enemyTick_health heading rnd g e sh :
  Entity.health (fst (enemyTick heading rnd g e sh)) = Entity.health e /\
  Entity.maxHealth (fst (enemyTick heading rnd g e sh)) = Entity.maxHealth e.
Proof.
  unfold enemyTick.
  assert (Hc : forall pp, Entity.health (chase heading g pp e) = Entity.health e /\
                          Entity.maxHealth (chase heading g pp e) = Entity.maxHealth e).
  { intros pp. unfold chase. destruct (heading _ _). split; reflexivity. }
  destruct (hypot_lt _ _ 250); destruct (_ && _); cbn [fst]; auto.
Qed.

Lemma enemyTick_shared heading rnd g e sh :
  snd (enemyTick heading rnd g e sh) =
  if inContact (Entity.pos (sh_player sh)) e && cooldownOver (sh_player sh)
  then mkShared (damaged (sh_player sh))
         (sh_particles sh ++
          hitParticles rnd (sh_draws sh) (Vector2.x (Entity.pos (sh_player sh)))
                                         (Vector2.y (Entity.pos (sh_player sh))))
         10 (sh_draws sh + 10)%nat
  else sh.
Proof.
  unfold enemyTick, inContact, damaged.
  destruct (hypot_lt _ _ (inject_Z TILE_SIZE * 0.7) && _); reflexivity.
Qed.

Lemma cooldownOver_damaged p : cooldownOver (damaged p) = false.
Proof. reflexivity. Qed.

Lemma enemiesTick_blocked heading rnd g es : forall sh,
  cooldownOver (sh_player sh) = false ->
  snd (enemiesTick heading rnd g es sh) = sh.
Proof.
  induction es as [|e es IH]; intros sh Hcd; [reflexivity|].
  cbn [enemiesTick].
  pose proof (enemyTick_shared heading rnd g e sh) as Hs.
  destruct (enemyTick heading rnd g e sh) as [eNext sh1]. cbn [snd] in Hs.
  rewrite Hcd, andb_false_r in Hs. subst sh1.
  specialize (IH sh Hcd).
  destruct (enemiesTick heading rnd g es sh) as [rest sh2]. exact IH.
Qed.

Lemma enemiesTick_shared heading rnd g es : forall sh,
  snd (enemiesTick heading rnd g es sh) =
  if cooldownOver (sh_player sh) && existsb (inContact (Entity.pos (sh_player sh))) es
  then mkShared (damaged (sh_player sh))
         (sh_particles sh ++
          hitParticles rnd (sh_draws sh) (Vector2.x (Entity.pos (sh_player sh)))
                                         (Vector2.y (Entity.pos (sh_player sh))))
         10 (sh_draws sh + 10)%nat
  else sh.
Proof.
  induction es as [|e es IH]; intros sh.
  - cbn [enemiesTick existsb snd]. rewrite andb_false_r. reflexivity.
  - cbn [enemiesTick existsb].
    pose proof (enemyTick_shared heading rnd g e sh) as Hs.
    destruct (enemyTick heading rnd g e sh) as [eNext sh1]. cbn [snd] in Hs.
    pose proof (IH sh1) as IH1.
    pose proof (enemiesTick_blocked heading rnd g es sh1) as Hb.
    destruct (enemiesTick heading rnd g es sh1) as [rest sh2]. cbn [snd] in *.
    destruct (cooldownOver (sh_player sh)) eqn:Hcd.
    + destruct (inContact (Entity.pos (sh_player sh)) e) eqn:Hc; cbn [andb orb] in *.
      * subst sh1. apply Hb. reflexivity.
      * subst sh1. rewrite Hcd in IH1. exact IH1.
    + rewrite andb_false_r in Hs. subst sh1. cbn [andb].
      rewrite Hcd in IH1. exact IH1.
Qed.

Lemma enemiesTick_hostiles heading rnd g es : forall sh,
  Forall2 (fun e' e => Entity.health e' = Entity.health e /\
                       Entity.maxHealth e' = Entity.maxHealth e)
          (fst (enemiesTick heading rnd g es sh)) es.
Proof.
  induction es as [|e es IH]; intros sh; [constructor|].
  cbn [enemiesTick].
  pose proof (enemyTick_health heading rnd g e sh) as He.
  destruct (enemyTick heading rnd g e sh) as [eNext sh1]. cbn [fst] in He.
  specialize (IH sh1).
  destruct (enemiesTick heading rnd g es sh1) as [rest sh2]. cbn [fst] in *.
  constructor; assumption.
Qed.

(** ** One tick *)

Lemma readKeys_player keys p :
  let p1 := snd (readKeys keys p) in
  Entity.health p1 = Entity.health p /\ Entity.maxHealth p1 = Entity.maxHealth p /\
  Entity.damageCooldown p1 = Entity.damageCooldown p /\ Entity.pos p1 = Entity.pos p.
Proof.
  unfold readKeys. cbn [snd].
  destruct (has "KeyA" keys || has "ArrowLeft" keys);
    destruct (has "KeyD" keys || has "ArrowRight" keys); repeat split.
Qed.

Lemma decayAttackCooldown_player p :
  let p1 := decayAttackCooldown p in
  Entity.health p1 = Entity.health p /\ Entity.maxHealth p1 = Entity.maxHealth p /\
  Entity.damageCooldown p1 = Entity.damageCooldown p /\ Entity.pos p1 = Entity.pos p.
Proof.
  unfold decayAttackCooldown. destruct (Entity.attackCooldown p) as [c|]; [|repeat split].
  destruct (0 <? c); [|repeat split].
  destruct (c - 1 <? ATTACK_COOLDOWN - 5); repeat split.
Qed.

Lemma decayDamageCooldown_player p :
  let p1 := decayDamageCooldown p in
  Entity.health p1 = Entity.health p /\ Entity.maxHealth p1 = Entity.maxHealth p /\
  Entity.pos p1 = Entity.pos p /\
  Entity.damageCooldown p1 =
    match Entity.damageCooldown p with
    | Some c => if 0 <? c then Some (c - 1) else Some c
    | None => None
    end.
Proof.
  unfold decayDamageCooldown. destruct (Entity.damageCooldown p) as [c|] eqn:Hc.
  - destruct (0 <? c); repeat split; cbn; congruence.
  - repeat split; assumption.
Qed.

Lemma movedPlayer_player keys prev :
  let p2 := movedPlayer keys prev in
  Entity.health p2 = Entity.health (player prev) /\
  Entity.maxHealth p2 = Entity.maxHealth (player prev) /\
  Entity.damageCooldown p2 =
    match Entity.damageCooldown (player prev) with
    | Some c => if 0 <? c then Some (c - 1) else Some c
    | None => None
    end.
Proof.
  unfold movedPlayer.
  pose proof (readKeys_player keys (decayDamageCooldown (decayAttackCooldown (player prev))))
    as Hr.
  destruct (readKeys keys _) as [[dx dy] p1]. cbn [snd] in Hr.
  destruct Hr as (Hh & Hm & Hd & _).
  pose proof (decayDamageCooldown_player (decayAttackCooldown (player prev)))
    as (Hh1 & Hm1 & _ & Hd1).
  pose proof (decayAttackCooldown_player (player prev)) as (Hh2 & Hm2 & Hd2 & _).
  unfold movePlayer, Entity.with_pos.
  cbn [Entity.health Entity.maxHealth Entity.damageCooldown].
  rewrite Hh, Hm, Hd, Hh1, Hm1, Hd1, Hh2, Hm2, Hd2. repeat split.
Qed.

Lemma tick_player heading keys rnd prev :
  player (tick heading keys rnd prev) =
  if cooldownOver (movedPlayer keys prev) && contactNow keys prev
  then damaged (movedPlayer keys prev) else movedPlayer keys prev.
Proof.
  unfold tick, contactNow, movedPlayer.
  destruct (readKeys keys _) as [[dx dy] p1].
  match goal with
  | |- context [enemiesTick heading rnd ?g ?es ?sh] =>
      pose proof (enemiesTick_shared heading rnd g es sh) as Hs;
      destruct (enemiesTick heading rnd g es sh) as [es' sh']
  end.
  cbn [snd sh_player player] in *. rewrite Hs.
  destruct (_ && _); reflexivity.
Qed.

Lemma tick_status heading keys rnd prev :
  status (tick heading keys rnd prev) =
  if Entity.health (player (tick heading keys rnd prev)) <=? 0 then LOST else status prev.
Proof.
  unfold tick.
  destruct (readKeys keys _) as [[dx dy] p1].
  destruct (enemiesTick _ _ _ _ _) as [es' sh']. reflexivity.
Qed.

Lemma tick_enemies heading keys rnd prev :
  Forall2 (fun e' e => Entity.health e' = Entity.health e /\
                       Entity.maxHealth e' = Entity.maxHealth e)
          (enemies (tick heading keys rnd prev)) (enemies prev).
Proof.
  unfold tick.
  destruct (readKeys keys _) as [[dx dy] p1].
  match goal with
  | |- context [enemiesTick heading rnd ?g ?es ?sh] =>
      pose proof (enemiesTick_hostiles heading rnd g es sh) as Hs;
      destruct (enemiesTick heading rnd g es sh) as [es' sh']
  end.
  exact Hs.
Qed.

Lemma tick_world heading keys rnd prev :
  let s := tick heading keys rnd prev in
  grid s = grid prev /\ shardsCollected s = shardsCollected prev /\
  goldCollected s = goldCollected prev /\ diamondsCollected s = diamondsCollected prev.
Proof.
  unfold tick.
  destruct (readKeys keys _) as [[dx dy] p1].
  destruct (enemiesTick _ _ _ _ _) as [es' sh']. repeat split.
Qed.

Lemma update_idle heading keys rnd s :
  status s <> PLAYING -> update heading keys rnd s = s.
Proof.
  intros Hs. unfold update. rewrite bool_decide_eq_false_2 by exact Hs. reflexivity.
Qed.

Lemma update_playing heading keys rnd s :
  status s = PLAYING -> update heading keys rnd s = tick heading keys rnd s.
Proof.
  intros Hs. unfold update. rewrite bool_decide_eq_true_2 by exact Hs. reflexivity.
Qed.

Lemma update_health heading keys rnd s :
  Entity.health (player (update heading keys rnd s)) =
  if bool_decide (status s = PLAYING) && cooldownOver (movedPlayer keys s)
     && contactNow keys s
  then Entity.health (player s) - ENEMY_DAMAGE
  else Entity.health (player s).
Proof.
  unfold update. destruct (bool_decide (status s = PLAYING)); cbn [negb andb]; [|reflexivity].
  rewrite tick_player.
  pose proof (movedPlayer_player keys s) as (Hh & _).
  destruct (_ && _); [unfold damaged; cbn [Entity.health]|]; rewrite Hh; reflexivity.
Qed.

(** C10.  In the hostile loop of a tick, a hostile either leaves the shared
    player alone or takes ENEMY_DAMAGE = 34 health and sets damageCooldown
    to 60, which closes the cooldown test; while that test is closed the
    rest of the loop leaves the player, the particles and the screen shake
    untouched; so one tick lowers the player's health by nothing or by
    exactly 34, however many hostiles are in contact. *)
Theorem contact_damage_once_per_tick (heading : Q -> Q -> Q * Q) :
  (forall rnd g enemy sh,
     let sh' := snd (enemyTick heading rnd g enemy sh) in
     sh' = sh \/
     (Entity.health (sh_player sh') = Entity.health (sh_player sh) - ENEMY_DAMAGE /\
      Entity.damageCooldown (sh_player sh') = Some DAMAGE_COOLDOWN /\
      cooldownOver (sh_player sh') = false)) /\
  (forall rnd g es sh,
     cooldownOver (sh_player sh) = false ->
     snd (enemiesTick heading rnd g es sh) = sh) /\
  (forall keysPressed rnd s,
     let h := Entity.health (player s) in
     let h' := Entity.health (player (update heading keysPressed rnd s)) in
     (h' = h \/ h' = h - ENEMY_DAMAGE) /\ h - ENEMY_DAMAGE <= h' <= h).
Proof.
  split; [|split].
  - intros rnd g enemy sh sh'. subst sh'. rewrite enemyTick_shared.
    destruct (_ && _); [right; repeat split | left; reflexivity].
  - intros rnd g es sh. apply enemiesTick_blocked.
  - intros keys rnd s h h'. subst h h'. rewrite update_health.
    unfold ENEMY_DAMAGE. destruct (_ && _); split; auto; lia.
Qed.

Lemma cooling_tick heading keys rnd s c :
  status s = PLAYING -> 0 < Entity.health (player s) ->
  Entity.damageCooldown (player s) = Some c -> 1 < c ->
  let s' := update heading keys rnd s in
  status s' = PLAYING /\ Entity.health (player s') = Entity.health (player s) /\
  Entity.damageCooldown (player s') = Some (c - 1).
Proof.
  intros Hst Hh Hd Hc s'. subst s'. rewrite update_playing by exact Hst.
  pose proof (movedPlayer_player keys s) as (Hh2 & _ & Hd2).
  rewrite Hd in Hd2. replace (0 <? c) with true in Hd2 by (symmetry; apply Z.ltb_lt; lia).
  assert (Hp : player (tick heading keys rnd s) = movedPlayer keys s).
  { rewrite tick_player. unfold cooldownOver at 1. rewrite Hd2.
    replace (c - 1 =? 0) with false by (symmetry; apply Z.eqb_neq; lia). reflexivity. }
  rewrite tick_status, Hp, Hh2.
  replace (Entity.health (player s) <=? 0) with false by (symmetry; apply Z.leb_gt; lia).
  auto.
Qed.

Lemma cooling_ticks heading frames : forall s c,
  status s = PLAYING -> 0 < Entity.health (player s) ->
  Entity.damageCooldown (player s) = Some c -> Z.of_nat (length frames) < c ->
  let s' := ticks heading frames s in
  status s' = PLAYING /\ Entity.health (player s') = Entity.health (player s) /\
  Entity.damageCooldown (player s') = Some (c - Z.of_nat (length frames)).
Proof.
  induction frames as [|[keys rnd] frames IH]; intros s c Hst Hh Hd Hc.
  - cbn [ticks fold_left length]. rewrite Z.sub_0_r. auto.
  - cbn [length] in Hc. unfold ticks. cbn [fold_left fst snd].
    destruct (cooling_tick heading keys rnd s c Hst Hh Hd ltac:(lia)) as (Hst1 & Hh1 & Hd1).
    destruct (IH (update heading keys rnd s) (c - 1) Hst1 ltac:(lia) Hd1 ltac:(lia))
      as (Hst2 & Hh2 & Hd2).
    unfold ticks in *. rewrite Hst2, Hh2, Hh1, Hd2. cbn [length]. repeat split.
    f_equal. lia.
Qed.

Lemma contact_tick heading keys rnd s :
  status s = PLAYING ->
  Entity.damageCooldown (player s) = Some 1 ->
  contactNow keys s = true ->
  let s' := update heading keys rnd s in
  Entity.health (player s') = Entity.health (player s) - ENEMY_DAMAGE /\
  Entity.damageCooldown (player s') = Some DAMAGE_COOLDOWN.
Proof.
  intros Hst Hd Hc s'. subst s'. rewrite update_playing by exact Hst.
  pose proof (movedPlayer_player keys s) as (Hh2 & _ & Hd2).
  rewrite Hd in Hd2. change (if 0 <? 1 then Some (1 - 1) else Some 1) with (Some 0) in Hd2.
  assert (Hover : cooldownOver (movedPlayer keys s) = true).
  { unfold cooldownOver. rewrite Hd2. reflexivity. }
  rewrite tick_player, Hover, Hc. cbn [andb].
  unfold damaged. cbn [Entity.health Entity.damageCooldown Entity.with_damageCooldown
                       Entity.with_health].
  rewrite Hh2. auto.
Qed.

(** C5.  From a PLAYING snapshot in which the player, still alive, has just
    taken contact damage (damageCooldown = 60): after each of the next 59
    ticks, whatever keys are held and wherever the hostiles are, the
    player's health is unchanged and the cooldown has dropped by one per
    tick; on the 60th tick, if a hostile is in contact, the player loses
    ENEMY_DAMAGE again and the cooldown is back at 60. *)
Theorem contact_damage_grace_period (heading : Q -> Q -> Q * Q) (s : GameState)
    (frames : list (list string * Rand)) (keysPressed : list string) (rnd : Rand) :
  status s = PLAYING ->
  0 < Entity.health (player s) ->
  Entity.damageCooldown (player s) = Some DAMAGE_COOLDOWN ->
  length frames = 59%nat ->
  (forall k, (k <= 59)%nat ->
     let sk := ticks heading (take k frames) s in
     status sk = PLAYING /\
     Entity.health (player sk) = Entity.health (player s) /\
     Entity.damageCooldown (player sk) = Some (DAMAGE_COOLDOWN - Z.of_nat k)) /\
  (let s59 := ticks heading frames s in
   contactNow keysPressed s59 = true ->
   let s60 := update heading keysPressed rnd s59 in
   Entity.health (player s60) = Entity.health (player s) - ENEMY_DAMAGE /\
   Entity.damageCooldown (player s60) = Some DAMAGE_COOLDOWN).
Proof.
  intros Hst Hh Hd Hlen. split.
  - intros k Hk sk. subst sk.
    assert (Hl : length (take k frames) = k) by (rewrite length_take; lia).
    pose proof (cooling_ticks heading (take k frames) s DAMAGE_COOLDOWN Hst Hh Hd) as H.
    rewrite Hl in H. apply H. unfold DAMAGE_COOLDOWN. lia.
  - intros s59 Hc s60. subst s59 s60.
    destruct (cooling_ticks heading frames s DAMAGE_COOLDOWN Hst Hh Hd) as (Hst1 & Hh1 & Hd1).
    { rewrite Hlen. unfold DAMAGE_COOLDOWN. lia. }
    rewrite Hlen in Hd1. change (DAMAGE_COOLDOWN - Z.of_nat 59) with 1 in Hd1.
    rewrite <- Hh1. apply contact_tick; assumption.
Qed.

(** ** The attack handlers *)

Lemma struck_bounds inRange dmg e :
  0 <= dmg ->
  Entity.health (struck inRange dmg e) <= Entity.health e /\
  Entity.maxHealth (struck inRange dmg e) = Entity.maxHealth e.
Proof.
  intros Hd. unfold struck. destruct (inRange e); cbn [Entity.health Entity.maxHealth
    Entity.with_health]; split; try reflexivity; lia.
Qed.

Lemma survivors_alive inRange dmg es :
  0 <= dmg -> Forall hostileAlive es ->
  Forall hostileAlive (List.filter alive (map (struck inRange dmg) es)).
Proof.
  intros Hd Hes. apply Forall_forall. intros e' He'.
  apply list_elem_of_In, filter_In in He' as [Hin Halive].
  apply in_map_iff in Hin as (e & <- & Hin).
  rewrite Forall_forall in Hes. specialize (Hes e (proj2 (list_elem_of_In _ _) Hin)).
  destruct (struck_bounds inRange dmg e Hd) as [Hle Hmax].
  unfold hostileAlive, alive in *. apply Z.ltb_lt in Halive. lia.
Qed.

Lemma handleAttack_idle rnd s : status s <> PLAYING -> handleAttack rnd s = s.
Proof.
  intros Hs. unfold handleAttack. rewrite bool_decide_eq_false_2 by exact Hs. reflexivity.
Qed.

Lemma handleAttack_spec rnd s :
  let s' := handleAttack rnd s in
  s' = s \/
  (status s = PLAYING /\ status s' = status s /\
   Entity.health (player s') = Entity.health (player s) /\
   Entity.maxHealth (player s') = Entity.maxHealth (player s) /\
   enemies s' =
     List.filter alive (map (struck (inSwordRange (player s)) SWORD_DAMAGE) (enemies s))).
Proof.
  unfold handleAttack.
  destruct (bool_decide (status s = PLAYING)) eqn:Hst; cbn [negb orb]; [|left; reflexivity].
  apply bool_decide_eq_true in Hst.
  destruct (0 <? default 0 (Entity.attackCooldown (player s))); [left; reflexivity|].
  right.
  match goal with
  | |- context [strike rnd ?r ?d ?es ?ps ?n ?h] =>
      destruct (strike_spec rnd r d es ps n h) as (extra & n' & -> & _ & _)
  end.
  repeat split; try assumption.
Qed.

Lemma clickEnemies_spec rnd mx my s :
  exists extra n,
    clickEnemies rnd mx my s =
      (let es' := List.filter alive (map (struck (inClickRange mx my) CLICK_DAMAGE) (enemies s)) in
       let p := if (length es' <? length (enemies s))%nat
                then Entity.with_health
                       (Z.min INITIAL_PLAYER_HEALTH (Entity.health (player s) + 20))
                       (player s)
                else player s in
       (with_player p (with_particles (particles s ++ extra) (with_enemies es' s)), n,
        existsb (inClickRange mx my) (enemies s))) /\
    Forall isHitParticle extra /\
    length extra = (5 * length (List.filter (inClickRange mx my) (enemies s)))%nat.
Proof.
  unfold clickEnemies.
  destruct (strike_spec rnd (inClickRange mx my) CLICK_DAMAGE (enemies s) (particles s)
              0%nat false) as (extra & n' & -> & Hhit & Hlen).
  exists extra, n'. cbn [orb]. repeat split; assumption.
Qed.

Lemma mineTile_entities rnd n tx ty s :
  player (mineTile rnd n tx ty s) = player s /\
  enemies (mineTile rnd n tx ty s) = enemies s /\
  camera (mineTile rnd n tx ty s) = camera s /\
  (status (mineTile rnd n tx ty s) = status s \/ status (mineTile rnd n tx ty s) = WON).
Proof.
  unfold mineTile. destruct (tileAt (grid s) tx ty) as [tile|]; [|auto].
  destruct (isAIR tile); [auto|].
  destruct (Tile.durability tile - 8 <=? 0); [|cbn; auto].
  destruct (Tile.type tile); cbn; auto.
  destruct (SHARD_GOAL <=? shardsCollected s + 1); cbn; auto.
Qed.

Lemma mineTile_air rnd n tx ty s t :
  tileAt (grid s) tx ty = Some t -> Tile.type t = AIR -> mineTile rnd n tx ty s = s.
Proof.
  intros Ht Hair. unfold mineTile. rewrite Ht.
  rewrite (proj2 (isAIR_true t) Hair). reflexivity.
Qed.

Lemma mineTile_shards rnd n tx ty s :
  let s' := mineTile rnd n tx ty s in
  (shardsCollected s' = shardsCollected s) \/
  (shardsCollected s' = shardsCollected s + 1 /\
   (SHARD_GOAL <= shardsCollected s' -> status s' = WON)).
Proof.
  unfold mineTile. destruct (tileAt (grid s) tx ty) as [tile|]; [|auto].
  destruct (isAIR tile); [auto|].
  destruct (Tile.durability tile - 8 <=? 0); [|cbn; auto].
  destruct (Tile.type tile); cbn; auto.
  destruct (SHARD_GOAL <=? shardsCollected s + 1) eqn:Hg; cbn; right; split; auto.
  intros Hge. apply Z.leb_gt in Hg. lia.
Qed.

Lemma handleCanvasClick_idle eager rnd cx cy s :
  status s <> PLAYING -> handleCanvasClick eager rnd cx cy s = s.
Proof.
  intros Hs. unfold handleCanvasClick.
  rewrite bool_decide_eq_false_2 by exact Hs. reflexivity.
Qed.

Lemma handleMouseMove_idle cx cy s :
  status s <> PLAYING -> handleMouseMove cx cy s = s.
Proof.
  intros Hs. unfold handleMouseMove.
  rewrite bool_decide_eq_false_2 by exact Hs. reflexivity.
Qed.

(** A press while PLAYING runs the hostile pass and then at most one
    mining press. *)
Lemma handleCanvasClick_playing eager rnd cx cy s :
  status s = PLAYING ->
  let s1 := fst (fst (clickEnemies rnd (mouseX cx s) (mouseY cy s) s)) in
  (eager = true ->
   existsb (inClickRange (mouseX cx s) (mouseY cy s)) (enemies s) = true ->
   handleCanvasClick eager rnd cx cy s = s1) /\
  (handleCanvasClick eager rnd cx cy s = s1 \/
   exists n tx ty,
     0 <= tx < GRID_WIDTH /\ 0 <= ty < GRID_HEIGHT /\
     tx = Qfloor (mouseX cx s / inject_Z TILE_SIZE) /\
     ty = Qfloor (mouseY cy s / inject_Z TILE_SIZE) /\
     handleCanvasClick eager rnd cx cy s = mineTile rnd n tx ty s1).
Proof.
  intros Hst. unfold handleCanvasClick.
  rewrite bool_decide_eq_true_2 by exact Hst. cbn [negb].
  fold (mouseX cx s) (mouseY cy s).
  destruct (clickEnemies_spec rnd (mouseX cx s) (mouseY cy s) s) as (extra & n & -> & _ & _).
  cbv zeta. cbn [fst].
  destruct (eager && existsb _ (enemies s)) eqn:Hseen; [split; auto|].
  split; [intros -> Hhit; rewrite Hhit in Hseen; discriminate|].
  destruct (_ || _ || _ || _) eqn:Hout; [left; reflexivity|].
  destruct (hypot_lt _ _ _); [|left; reflexivity].
  right. eexists _, _, _. repeat split; try reflexivity;
    rewrite !orb_false_iff in Hout; lia.
Qed.

(** ** Health bounds over a session *)

Lemma startGame_shape fuel rnd s0 :
  startGame fuel rnd = Some s0 ->
  status s0 = PLAYING /\ player s0 = initialPlayer /\
  shardsCollected s0 = 0 /\ particles s0 = [] /\ camera s0 = Vector2.mk 0 0 /\
  exists n, enemies s0 = map (fun i => spawnEnemy rnd (n + 3 * i) i) (seq 0 ENEMY_SPAWN_COUNT).
Proof.
  unfold startGame, initGame.
  destruct (caves rnd 15 0 layeredGrid) as [g0 n0].
  destruct (placeResource fuel rnd SHARD 15 12 0 n0 g0) as [[g1 n1]|]; [|discriminate].
  destruct (placeResource fuel rnd GOLD GOLD_COUNT 20 0 n1 g1) as [[g2 n2]|]; [|discriminate].
  destruct (placeResource fuel rnd DIAMOND DIAMOND_COUNT 40 0 n2 g2) as [[g3 n3]|];
    [|discriminate].
  intros [= <-]. repeat split. exists n3. reflexivity.
Qed.

Lemma startGame_healthInv fuel rnd s0 : startGame fuel rnd = Some s0 -> healthInv s0.
Proof.
  intros H. destruct (startGame_shape fuel rnd s0 H) as (Hst & Hp & _ & _ & _ & n & Hes).
  unfold healthInv. rewrite Hp, Hes, Hst. repeat split; try (cbn; lia).
  - apply Forall_forall. intros e He.
    apply list_elem_of_In, in_map_iff in He as (i & <- & _).
    unfold hostileAlive, spawnEnemy. cbn [Entity.health Entity.maxHealth]. lia.
  - unfold initialPlayer, INITIAL_PLAYER_HEALTH. cbn [Entity.health]. lia.
Qed.

Lemma update_healthInv heading keys rnd s :
  healthInv s -> healthInv (update heading keys rnd s).
Proof.
  intros Hinv.
  destruct (decide (status s = PLAYING)) as [Hst|Hst];
    [|rewrite update_idle by exact Hst; exact Hinv].
  destruct Hinv as (Hes & Hmax & Hh & Hlost).
  assert (Hpos : 0 < Entity.health (player s)).
  { destruct (Z_lt_le_dec 0 (Entity.health (player s))) as [|Hle]; [assumption|].
    specialize (Hlost Hle). congruence. }
  rewrite update_playing by exact Hst.
  pose proof (movedPlayer_player keys s) as (Hh2 & Hm2 & _).
  pose proof (tick_player heading keys rnd s) as Hp.
  pose proof (tick_status heading keys rnd s) as Hs.
  pose proof (tick_enemies heading keys rnd s) as He.
  assert (Hp' : Entity.maxHealth (player (tick heading keys rnd s)) = Entity.maxHealth (player s)
                /\ (Entity.health (player (tick heading keys rnd s)) = Entity.health (player s)
                    \/ Entity.health (player (tick heading keys rnd s))
                       = Entity.health (player s) - ENEMY_DAMAGE)).
  { rewrite Hp. destruct (_ && _);
      [unfold damaged; cbn [Entity.health Entity.maxHealth Entity.with_damageCooldown
                            Entity.with_health]|]; rewrite ?Hh2, ?Hm2; auto. }
  destruct Hp' as [Hm' Hh'].
  unfold healthInv. rewrite Hm'. unfold ENEMY_DAMAGE in *. repeat split; try lia; try assumption.
  - clear -He Hes. induction He as [|e' e es' es [Hhe Hme] _ IH]; [constructor|].
    apply Forall_cons in Hes as [He Hes]. constructor; [|apply IH; assumption].
    unfold hostileAlive in *. lia.
  - intros Hle. rewrite Hs.
    replace (_ <=? 0) with true by (symmetry; apply Z.leb_le; exact Hle). reflexivity.
Qed.

Lemma handleAttack_healthInv rnd s : healthInv s -> healthInv (handleAttack rnd s).
Proof.
  intros Hinv.
  destruct (handleAttack_spec rnd s) as [-> | (Hst & Hst' & Hh' & Hm' & Hes')];
    [exact Hinv|].
  destruct Hinv as (Hes & Hmax & Hh & Hlost).
  unfold healthInv. rewrite Hes', Hh', Hm', Hst'. repeat split; try assumption; try lia.
  apply survivors_alive; [unfold SWORD_DAMAGE; lia | assumption].
Qed.

Lemma handleCanvasClick_entities eager rnd cx cy s :
  status s = PLAYING ->
  let s' := handleCanvasClick eager rnd cx cy s in
  let es' := List.filter alive
               (map (struck (inClickRange (mouseX cx s) (mouseY cy s)) CLICK_DAMAGE)
                    (enemies s)) in
  enemies s' = es' /\
  player s' = (if (length es' <? length (enemies s))%nat
               then Entity.with_health
                      (Z.min INITIAL_PLAYER_HEALTH (Entity.health (player s) + 20))
                      (player s)
               else player s) /\
  (status s' = PLAYING \/ status s' = WON).
Proof.
  intros Hst s' es'. subst s' es'.
  destruct (handleCanvasClick_playing eager rnd cx cy s Hst) as [_ Hc].
  destruct (clickEnemies_spec rnd (mouseX cx s) (mouseY cy s) s)
    as (extra & n & Hce & _ & _).
  rewrite Hce in Hc. cbv zeta in Hc. cbn [fst] in Hc.
  destruct Hc as [-> | (n' & tx & ty & _ & _ & _ & _ & ->)].
  - cbn [enemies player status with_player with_particles with_enemies]. auto.
  - destruct (mineTile_entities rnd n' tx ty
                (with_player
                   (if (length (List.filter alive
                          (map (struck (inClickRange (mouseX cx s) (mouseY cy s)) CLICK_DAMAGE)
                             (enemies s))) <? length (enemies s))%nat
                    then Entity.with_health
                           (Z.min INITIAL_PLAYER_HEALTH (Entity.health (player s) + 20))
                           (player s)
                    else player s)
                   (with_particles (particles s ++ extra)
                      (with_enemies
                         (List.filter alive
                            (map (struck (inClickRange (mouseX cx s) (mouseY cy s))
                                    CLICK_DAMAGE) (enemies s))) s))))
      as (-> & -> & _ & Hs).
    cbn [enemies player status with_player with_particles with_enemies] in *.
    rewrite Hst in Hs. repeat split. destruct Hs as [-> | ->]; auto.
Qed.

Lemma handleCanvasClick_healthInv eager rnd cx cy s :
  healthInv s -> healthInv (handleCanvasClick eager rnd cx cy s).
Proof.
  intros Hinv.
  destruct (decide (status s = PLAYING)) as [Hst|Hst];
    [|rewrite handleCanvasClick_idle by exact Hst; exact Hinv].
  destruct Hinv as (Hes & Hmax & Hh & Hlost).
  assert (Hpos : 0 < Entity.health (player s)).
  { destruct (Z_lt_le_dec 0 (Entity.health (player s))) as [|Hle]; [assumption|].
    specialize (Hlost Hle). congruence. }
  destruct (handleCanvasClick_entities eager rnd cx cy s Hst) as (He' & Hp' & Hs').
  unfold healthInv. rewrite He', Hp'.
  unfold INITIAL_PLAYER_HEALTH, ENEMY_DAMAGE in *.
  split; [apply survivors_alive; [unfold CLICK_DAMAGE; lia | assumption]|].
  destruct (_ <? _)%nat; cbn [Entity.health Entity.maxHealth Entity.with_health];
    repeat split; try lia.
Qed.

Lemma handleMouseMove_healthInv cx cy s : healthInv s -> healthInv (handleMouseMove cx cy s).
Proof.
  intros H. unfold handleMouseMove.
  destruct (negb _); [assumption|]. destruct (_ || _ || _ || _); exact H.
Qed.

Lemma step_healthInv heading s ev : healthInv s -> healthInv (step heading s ev).
Proof.
  destruct ev; cbn [step].
  - apply update_healthInv.
  - apply handleAttack_healthInv.
  - apply handleCanvasClick_healthInv.
  - apply handleMouseMove_healthInv.
Qed.

Lemma run_healthInv heading evs : forall s, healthInv s -> healthInv (run heading evs s).
Proof.
  induction evs as [|ev evs IH]; intros s Hs; [exact Hs|].
  unfold run. cbn [fold_left]. apply IH, step_healthInv, Hs.
Qed.

(** C2, as amended.  In every snapshot of a session started by [startGame]:
    each live hostile has 0 < health <= maxHealth; the player's health is
    at most maxHealth and above -34, it is positive while the status is
    PLAYING, and when it is zero or below the status is LOST; a melee
    attack and a pointer press return as live hostiles exactly the struck
    hostiles whose health is still positive. *)
Theorem health_bounds_in_session (heading : Q -> Q -> Q * Q) (fuel : nat) (rnd : Rand)
    (s0 : GameState) (evs : list Event) :
  startGame fuel rnd = Some s0 ->
  let s := run heading evs s0 in
  (forall e, In e (enemies s) -> 0 < Entity.health e <= Entity.maxHealth e) /\
  - ENEMY_DAMAGE < Entity.health (player s) <= Entity.maxHealth (player s) /\
  (status s = PLAYING -> 0 < Entity.health (player s)) /\
  (Entity.health (player s) <= 0 -> status s = LOST) /\
  (forall rnd',
     handleAttack rnd' s = s \/
     enemies (handleAttack rnd' s) =
       List.filter alive (map (struck (inSwordRange (player s)) SWORD_DAMAGE) (enemies s))) /\
  (forall eager rnd' cx cy, status s = PLAYING ->
     enemies (handleCanvasClick eager rnd' cx cy s) =
       List.filter alive
         (map (struck (inClickRange (mouseX cx s) (mouseY cy s)) CLICK_DAMAGE) (enemies s))).
Proof.
  intros H0 s.
  pose proof (run_healthInv heading evs s0 (startGame_healthInv fuel rnd s0 H0))
    as (Hes & Hmax & Hh & Hlost).
  fold s in Hes, Hmax, Hh, Hlost.
  split; [|split; [|split; [|split; [|split]]]].
  - intros e He. rewrite Forall_forall in Hes. apply Hes, list_elem_of_In, He.
  - exact Hh.
  - intros Hst. destruct (Z_lt_le_dec 0 (Entity.health (player s))) as [|Hle]; [assumption|].
    specialize (Hlost Hle). congruence.
  - exact Hlost.
  - intros rnd'.
    destruct (handleAttack_spec rnd' s) as [Hsame | (_ & _ & _ & _ & Hes')];
      [left; exact Hsame | right; exact Hes'].
  - intros eager rnd' cx cy Hst. apply (handleCanvasClick_entities eager rnd' cx cy s Hst).
Qed.

(** ** Winning *)

Lemma step_idle heading s ev : status s <> PLAYING -> step heading s ev = s.
Proof.
  intros Hs. destruct ev; cbn [step].
  - apply update_idle, Hs.
  - apply handleAttack_idle, Hs.
  - apply handleCanvasClick_idle, Hs.
  - apply handleMouseMove_idle, Hs.
Qed.

Lemma run_idle heading evs s : status s <> PLAYING -> run heading evs s = s.
Proof.
  intros Hs. induction evs as [|ev evs IH]; [reflexivity|].
  unfold run in *. cbn [fold_left]. rewrite step_idle by exact Hs. exact IH.
Qed.

Lemma trace_head heading evs s : exists tl, trace heading evs s = s :: tl.
Proof. destruct evs; cbn [trace]; eauto. Qed.

Lemma trace_idle heading evs s :
  status s <> PLAYING -> wonTransitions (trace heading evs s) = 0%nat.
Proof.
  intros Hs. induction evs as [|ev evs IH]; [reflexivity|].
  cbn [trace]. rewrite step_idle by exact Hs.
  destruct (trace_head heading evs s) as [tl Htl]. rewrite Htl in *.
  cbn [wonTransitions] in *.
  rewrite (bool_decide_eq_false_2 _ Hs) in *. cbn [andb] in *.
  destruct tl; cbn [Nat.add] in *; exact IH.
Qed.

Lemma wonTransitions_le_1 heading evs : forall s,
  (wonTransitions (trace heading evs s) <= 1)%nat.
Proof.
  induction evs as [|ev evs IH]; intros s; [cbn; lia|].
  cbn [trace].
  destruct (trace_head heading evs (step heading s ev)) as [tl Htl].
  pose proof (IH (step heading s ev)) as IH1.
  pose proof (trace_idle heading evs (step heading s ev)) as Hidle.
  rewrite Htl in *. cbn [wonTransitions] in *.
  destruct (bool_decide (status s = PLAYING) &&
            bool_decide (status (step heading s ev) = WON)) eqn:Hb; [|exact IH1].
  apply andb_true_iff in Hb as [_ Hw]. apply bool_decide_eq_true in Hw.
  rewrite Hidle by congruence. lia.
Qed.

Lemma handleCanvasClick_shards eager rnd cx cy s :
  let s' := handleCanvasClick eager rnd cx cy s in
  shardsCollected s' = shardsCollected s \/
  (shardsCollected s' = shardsCollected s + 1 /\
   (SHARD_GOAL <= shardsCollected s' -> status s' = WON)).
Proof.
  destruct (decide (status s = PLAYING)) as [Hst|Hst];
    [|rewrite handleCanvasClick_idle by exact Hst; left; reflexivity].
  destruct (handleCanvasClick_playing eager rnd cx cy s Hst) as [_ Hc].
  destruct (clickEnemies_spec rnd (mouseX cx s) (mouseY cy s) s)
    as (extra & n & Hce & _ & _).
  rewrite Hce in Hc. cbv zeta in Hc. cbn [fst] in Hc. cbv zeta.
  destruct Hc as [-> | (n' & tx & ty & _ & _ & _ & _ & ->)]; [left; reflexivity|].
  match goal with
  | |- context [mineTile rnd n' tx ty ?s1] =>
      destruct (mineTile_shards rnd n' tx ty s1) as [H | H]; [left | right]; exact H
  end.
Qed.

(** C3.  A pointer press that changes the shard counter and leaves it at or
    above SHARD_GOAL = 10 returns a snapshot whose status is WON; over any
    sequence of events at most one step goes from PLAYING to WON; once the
    status is WON no event changes the snapshot; and in any status other
    than PLAYING the simulation tick returns the snapshot unchanged. *)
Theorem shard_goal_wins_once (heading : Q -> Q -> Q * Q) :
  (forall eager rnd cx cy s,
     status s = PLAYING ->
     let s' := handleCanvasClick eager rnd cx cy s in
     shardsCollected s' <> shardsCollected s ->
     SHARD_GOAL <= shardsCollected s' ->
     status s' = WON) /\
  (forall evs s, (wonTransitions (trace heading evs s) <= 1)%nat) /\
  (forall evs s, status s = WON -> run heading evs s = s) /\
  (forall keysPressed rnd s,
     status s <> PLAYING -> update heading keysPressed rnd s = s).
Proof.
  split; [|split; [|split]].
  - intros eager rnd cx cy s _ s' Hne Hge. subst s'.
    destruct (handleCanvasClick_shards eager rnd cx cy s) as [Heq | [_ Hw]];
      [contradiction | exact (Hw Hge)].
  - intros evs s. apply wonTransitions_le_1.
  - intros evs s Hs. apply run_idle. congruence.
  - intros keys rnd s Hs. apply update_idle, Hs.
Qed.

(** ** Pointer presses *)

Lemma alive_struck_length inRange es :
  Forall hostileAlive es ->
  (length es =
   length (List.filter alive (map (struck inRange CLICK_DAMAGE) es)) +
   length (List.filter (fun e => (Entity.health e <=? CLICK_DAMAGE)%Z)
                       (List.filter inRange es)))%nat.
Proof.
  induction 1 as [|e es He Hes IH]; [reflexivity|].
  cbn [map List.filter]. unfold struck at 1, alive at 1.
  unfold hostileAlive in He.
  destruct (inRange e); cbn [List.filter Entity.health Entity.with_health].
  - destruct (Entity.health e <=? CLICK_DAMAGE) eqn:Hk.
    + apply Z.leb_le in Hk.
      replace (0 <? Entity.health e - CLICK_DAMAGE) with false
        by (symmetry; apply Z.ltb_ge; lia).
      cbn [length]. lia.
    + apply Z.leb_gt in Hk.
      replace (0 <? Entity.health e - CLICK_DAMAGE) with true
        by (symmetry; apply Z.ltb_lt; lia).
      cbn [length]. lia.
  - replace (0 <? Entity.health e) with true by (symmetry; apply Z.ltb_lt; lia).
    cbn [length]. lia.
Qed.

(** C6, as amended.  While PLAYING, with every live hostile alive: a pointer
    press that kills at least one hostile sets the player's health to
    min(200, health + 20), once, whatever the number of hostiles it kills,
    and a press that kills none leaves it unchanged; the live set shrinks
    by the hostiles killed; a melee attack never changes the player's
    health. *)
Theorem click_kill_heals_once (eager : bool) (rnd : Rand) (cx cy : Q) (s : GameState) :
  status s = PLAYING ->
  Forall hostileAlive (enemies s) ->
  Entity.health (player (handleCanvasClick eager rnd cx cy s)) =
    (if (0 <? length (killedByClick cx cy s))%nat
     then Z.min INITIAL_PLAYER_HEALTH (Entity.health (player s) + 20)
     else Entity.health (player s)) /\
  (length (enemies (handleCanvasClick eager rnd cx cy s)) =
     length (enemies s) - length (killedByClick cx cy s))%nat /\
  (forall rnd', Entity.health (player (handleAttack rnd' s)) = Entity.health (player s)).
Proof.
  intros Hst Hes.
  destruct (handleCanvasClick_entities eager rnd cx cy s Hst) as (He' & Hp' & _).
  pose proof (alive_struck_length (inClickRange (mouseX cx s) (mouseY cy s)) (enemies s) Hes)
    as Hlen.
  fold (underPointer cx cy s) in Hlen. fold (killedByClick cx cy s) in Hlen.
  split; [|split].
  - rewrite Hp'.
    destruct (Nat.ltb_spec 0 (length (killedByClick cx cy s)));
      destruct (Nat.ltb_spec
                  (length (List.filter alive
                     (map (struck (inClickRange (mouseX cx s) (mouseY cy s)) CLICK_DAMAGE)
                        (enemies s))))
                  (length (enemies s))); try reflexivity; lia.
  - rewrite He'. lia.
  - intros rnd'. destruct (handleAttack_spec rnd' s) as [-> | (_ & _ & Hh & _)]; auto.
Qed.

(** ** The hit flag of a pointer press *)

Lemma setTile_same g x y t : tileAt g x y = Some t -> setTile g x y t = g.
Proof.
  unfold tileAt, setTile. destruct (g !! Z.to_nat y) as [row|] eqn:Hrow; [|discriminate].
  intros Ht. rewrite (list_insert_id row _ _ Ht). apply list_insert_id, Hrow.
Qed.

Lemma tileAt_setTile_eq g x y t old :
  tileAt g x y = Some old -> tileAt (setTile g x y t) x y = Some t.
Proof.
  unfold tileAt, setTile. destruct (g !! Z.to_nat y) as [row|] eqn:Hrow; [|discriminate].
  intros Ht. rewrite list_lookup_insert_eq by (eapply lookup_lt_Some; eauto).
  apply list_lookup_insert_eq. eapply lookup_lt_Some; eauto.
Qed.

Lemma mineTile_grid rnd n tx ty s tile :
  tileAt (grid s) tx ty = Some tile ->
  grid (mineTile rnd n tx ty s) = setTile (grid s) tx ty (pressed tile).
Proof.
  intros Ht. unfold mineTile, pressed. rewrite Ht.
  destruct (isAIR tile); [symmetry; apply setTile_same, Ht|].
  destruct (Tile.durability tile - 8 <=? 0); [|reflexivity].
  destruct (Tile.type tile); try (destruct (SHARD_GOAL <=? _)); reflexivity.
Qed.

Lemma mineTile_tile rnd n tx ty s tile :
  tileAt (grid s) tx ty = Some tile ->
  tileAt (grid (mineTile rnd n tx ty s)) tx ty = Some (pressed tile).
Proof.
  intros Ht. rewrite (mineTile_grid rnd n tx ty s tile Ht).
  eapply tileAt_setTile_eq, Ht.
Qed.

Lemma afterHostilePass_world rnd cx cy s :
  let s1 := afterHostilePass rnd cx cy s in
  grid s1 = grid s /\ status s1 = status s /\ screenShake s1 = screenShake s /\
  shardsCollected s1 = shardsCollected s /\ goldCollected s1 = goldCollected s /\
  diamondsCollected s1 = diamondsCollected s /\ selectedTile s1 = selectedTile s /\
  camera s1 = camera s.
Proof.
  unfold afterHostilePass.
  destruct (clickEnemies_spec rnd (mouseX cx s) (mouseY cy s) s) as (extra & n & -> & _).
  cbv zeta. cbn [fst]. repeat split.
Qed.

Lemma handleCanvasClick_exact eager rnd cx cy s :
  status s = PLAYING ->
  exists n,
    handleCanvasClick eager rnd cx cy s =
    if pressMines eager cx cy s
    then mineTile rnd n (pointedX cx s) (pointedY cy s) (afterHostilePass rnd cx cy s)
    else afterHostilePass rnd cx cy s.
Proof.
  intros Hst. unfold handleCanvasClick, pressMines, afterHostilePass, withinReach, outOfGrid.
  rewrite bool_decide_eq_true_2 by exact Hst. cbn [negb].
  fold (pointedX cx s) (pointedY cy s).
  destruct (clickEnemies_spec rnd (mouseX cx s) (mouseY cy s) s) as (extra & n & -> & _).
  cbv zeta. cbn [fst]. exists n.
  destruct (eager && existsb _ (enemies s)); cbn [negb andb]; [reflexivity|].
  destruct (pointedX cx s <? 0), (pointedX cx s >=? GRID_WIDTH), (pointedY cy s <? 0),
    (pointedY cy s >=? GRID_HEIGHT); cbn [orb negb andb]; try reflexivity.
Qed.

Lemma mineTile_standing rnd n tx ty s tile :
  tileAt (grid s) tx ty = Some tile -> Tile.type tile <> AIR ->
  let s' := mineTile rnd n tx ty s in
  enemies s' = enemies s /\ player s' = player s /\
  (exists labels,
     particles s' =
       particles s ++ spawnMiningParticles rnd n tx ty (COLORS (Tile.type tile)) ++ labels /\
     (length labels <= 1)%nat) /\
  (Tile.type tile = SHARD -> Tile.durability tile <= 8 ->
   shardsCollected s' = shardsCollected s + 1).
Proof.
  intros Ht Hne. unfold mineTile. rewrite Ht, (proj2 (isAIR_false tile) Hne).
  destruct (Tile.durability tile - 8 <=? 0) eqn:Hd; cbv zeta.
  - destruct (Tile.type tile) eqn:Hty; try (destruct (SHARD_GOAL <=? _));
      cbn [enemies player particles shardsCollected with_grid with_status with_particles
           with_screenShake with_shardsCollected with_goldCollected with_diamondsCollected];
      (split; [reflexivity|]); (split; [reflexivity|]);
      (split; [|try discriminate; intros _ _; reflexivity]);
      first [ exists []; rewrite app_nil_r; split; [reflexivity | cbn [length]; lia]
            | eexists [_]; rewrite <- app_assoc; split; [reflexivity | cbn [length]; lia] ].
  - cbn [enemies player particles shardsCollected with_grid with_particles].
    split; [reflexivity|]. split; [reflexivity|].
    split; [exists []; rewrite app_nil_r; split; [reflexivity | cbn [length]; lia]|].
    intros _ Hle. apply Z.leb_gt in Hd. lia.
Qed.

(** C8, what the code does instead.  [hitAnyEnemy] is set by the first
    updater and tested right after that updater is passed to
    [setGameState].  When the hostile pass has been applied by then, a
    press with a hostile within the click radius changes no tile, no
    resource counter, neither the screen shake nor the status, and adds
    only hit particles, five per hostile hit.  When the updater is queued,
    as in a running game, the test reads [false] and the same press goes
    on to mine: with the pointed tile inside the grid, within reach and
    not AIR, the result is the mining updater applied on top of the
    hostile pass.  The hostiles and the player are as the hostile pass
    left them, the tile has lost 8 durability (and is AIR at zero or
    below), three mining particles and at most one label follow the hit
    particles, and a shard tile that breaks raises the shard counter. *)
Theorem hostile_hit_still_mines (rnd : Rand) (cx cy : Q) (s : GameState) (tile : Tile) :
  status s = PLAYING ->
  existsb (inClickRange (mouseX cx s) (mouseY cy s)) (enemies s) = true ->
  0 <= pointedX cx s < GRID_WIDTH ->
  0 <= pointedY cy s < GRID_HEIGHT ->
  withinReach (pointedX cx s) (pointedY cy s) s = true ->
  tileAt (grid s) (pointedX cx s) (pointedY cy s) = Some tile ->
  Tile.type tile <> AIR ->
  let applied := handleCanvasClick true rnd cx cy s in
  let queued := handleCanvasClick false rnd cx cy s in
  (grid applied = grid s /\
   shardsCollected applied = shardsCollected s /\
   goldCollected applied = goldCollected s /\
   diamondsCollected applied = diamondsCollected s /\
   screenShake applied = screenShake s /\
   status applied = status s /\
   exists extra,
     particles applied = particles s ++ extra /\
     Forall isHitParticle extra /\
     length extra = (5 * length (underPointer cx cy s))%nat) /\
  (exists n labels,
     queued = mineTile rnd n (pointedX cx s) (pointedY cy s) applied /\
     particles queued =
       particles applied ++
       spawnMiningParticles rnd n (pointedX cx s) (pointedY cy s) (COLORS (Tile.type tile)) ++
       labels /\
     (length labels <= 1)%nat) /\
  enemies queued = enemies applied /\
  player queued = player applied /\
  tileAt (grid queued) (pointedX cx s) (pointedY cy s) =
    Some (Tile.mk (if Tile.durability tile - 8 <=? 0 then AIR else Tile.type tile)
                  (Tile.durability tile - 8) (Tile.maxDurability tile)) /\
  (Tile.type tile = SHARD -> Tile.durability tile <= 8 ->
   shardsCollected queued = shardsCollected s + 1).
Proof.
  intros Hst Hhit Hx Hy Hreach Ht Hne applied queued.
  assert (Happ : applied = afterHostilePass rnd cx cy s).
  { subst applied. destruct (handleCanvasClick_playing true rnd cx cy s Hst) as [Hc _].
    exact (Hc eq_refl Hhit). }
  destruct (afterHostilePass_world rnd cx cy s) as (Hg & Hs & Hk & Hsh & Hgo & Hdi & _).
  assert (Hq : exists n, queued = mineTile rnd n (pointedX cx s) (pointedY cy s) applied).
  { subst queued. destruct (handleCanvasClick_exact false rnd cx cy s Hst) as [n ->].
    exists n. rewrite Happ. unfold pressMines.
    rewrite (proj2 (outOfGrid_false _ _) (conj Hx Hy)), Hreach. reflexivity. }
  destruct Hq as [n Hq].
  assert (Ht1 : tileAt (grid applied) (pointedX cx s) (pointedY cy s) = Some tile)
    by (rewrite Happ, Hg; exact Ht).
  destruct (mineTile_standing rnd n _ _ applied tile Ht1 Hne) as (He & Hp & Hl & Hc).
  rewrite <- Hq in He, Hp, Hl, Hc.
  split; [|split; [|split; [|split; [|split]]]].
  - rewrite Happ. split; [exact Hg|]. split; [exact Hsh|]. split; [exact Hgo|].
    split; [exact Hdi|]. split; [exact Hk|]. split; [exact Hs|].
    unfold afterHostilePass.
    destruct (clickEnemies_spec rnd (mouseX cx s) (mouseY cy s) s)
      as (extra & n0 & -> & Hextra & Hlen).
    cbv zeta. cbn [fst]. exists extra. repeat split; assumption.
  - destruct Hl as (labels & Hl & Hlen). exists n, labels. repeat split; assumption.
  - exact He.
  - exact Hp.
  - rewrite Hq, (mineTile_tile rnd n _ _ applied tile Ht1).
    unfold pressed. rewrite (proj2 (isAIR_false tile) Hne). reflexivity.
  - intros Hty Hd. rewrite (Hc Hty Hd), Happ, Hsh. reflexivity.
Qed.

(** C9.  The mining updater applied to a tile of type AIR returns the
    snapshot it was given; and a whole pointer press aimed at an AIR tile,
    with no hostile under the pointer, leaves the grid, the particles, the
    screen shake and the three resource counters unchanged. *)
Theorem mining_air_is_noop (rnd : Rand) (n : nat) (tx ty : Z) (s : GameState) (t : Tile) :
  tileAt (grid s) tx ty = Some t ->
  Tile.type t = AIR ->
  mineTile rnd n tx ty s = s /\
  (forall eager cx cy,
     tx = Qfloor (mouseX cx s / inject_Z TILE_SIZE) ->
     ty = Qfloor (mouseY cy s / inject_Z TILE_SIZE) ->
     underPointer cx cy s = [] ->
     let s' := handleCanvasClick eager rnd cx cy s in
     grid s' = grid s /\ particles s' = particles s /\ screenShake s' = screenShake s /\
     shardsCollected s' = shardsCollected s /\ goldCollected s' = goldCollected s /\
     diamondsCollected s' = diamondsCollected s).
Proof.
  intros Ht Hair. split; [eapply mineTile_air; eassumption|].
  intros eager cx cy Htx Hty Hnone s'. subst s'.
  destruct (decide (status s = PLAYING)) as [Hst|Hst];
    [|rewrite handleCanvasClick_idle by exact Hst; repeat split].
  destruct (handleCanvasClick_playing eager rnd cx cy s Hst) as [_ Hc].
  destruct (clickEnemies_spec rnd (mouseX cx s) (mouseY cy s) s)
    as (extra & n0 & Hce & _ & Hlen).
  fold (underPointer cx cy s) in Hlen. rewrite Hnone in Hlen.
  destruct extra; [|discriminate Hlen]. rewrite app_nil_r in Hce.
  rewrite Hce in Hc. cbv zeta in Hc. cbn [fst] in Hc.
  destruct Hc as [-> | (n' & tx' & ty' & _ & _ & Htx' & Hty' & ->)]; [repeat split|].
  rewrite <- Htx in Htx'. rewrite <- Hty in Hty'. subst tx' ty'.
  erewrite mineTile_air; [repeat split | exact Ht | exact Hair].
Qed.

Lemma sampleRnd_unit : unit_draws sampleRnd.
Proof.
  intros n. unfold sampleRnd, Qle, Qlt. cbn [Qnum Qden].
  pose proof (Nat.mod_upper_bound (n * 37 + 11) 101 ltac:(lia)). lia.
Qed.

(** ** Durability bounds over a session *)

Lemma setTile_sound g x y t : gridSound g -> tileSound t -> gridSound (setTile g x y t).
Proof.
  intros Hg Ht. unfold setTile.
  destruct (g !! Z.to_nat y) as [row|] eqn:Hrow; [|exact Hg].
  apply Forall_insert; [exact Hg|].
  apply Forall_insert; [|exact Ht].
  unfold gridSound in Hg. rewrite Forall_forall in Hg.
  apply Hg. eapply list_elem_of_lookup_2; eauto.
Qed.

Lemma tileAt_sound g x y t : gridSound g -> tileAt g x y = Some t -> tileSound t.
Proof.
  intros Hg. unfold tileAt.
  destruct (g !! Z.to_nat y) as [row|] eqn:Hrow; [|discriminate].
  intros Ht. unfold gridSound in Hg.
  eapply Forall_lookup_1; [|exact Ht].
  eapply Forall_lookup_1; [exact Hg | exact Hrow].
Qed.

Lemma AIR_TILE_sound : tileSound AIR_TILE.
Proof. unfold tileSound, AIR_TILE. cbn. split; [lia | split; [lia | reflexivity]]. Qed.

Lemma fresh_tile_sound type :
  type <> AIR -> tileSound (Tile.mk type (TILE_DURABILITY type) (TILE_DURABILITY type)).
Proof.
  intros Hne. unfold tileSound. cbn [Tile.type Tile.durability Tile.maxDurability].
  split; [lia|]. split; [contradiction|].
  destruct type; cbn; try lia. contradiction.
Qed.

Lemma layerTile_sound y : tileSound (layerTile y).
Proof.
  unfold layerTile.
  destruct (layerType y) eqn:Hty; try (apply fresh_tile_sound; discriminate).
  exact AIR_TILE_sound.
Qed.

Lemma layeredGrid_sound : gridSound layeredGrid.
Proof.
  unfold gridSound, layeredGrid. apply Forall_forall. intros row Hrow.
  apply list_elem_of_In, in_map_iff in Hrow as (y & <- & _).
  apply Forall_forall. intros t Ht.
  apply list_elem_of_In, in_map_iff in Ht as (x & <- & _). apply layerTile_sound.
Qed.

Lemma carveDisc_sound cx cy radius g : gridSound g -> gridSound (carveDisc cx cy radius g).
Proof.
  unfold carveDisc. generalize (zrange (- radius) radius) at 2. intros dys. revert g.
  induction dys as [|dy dys IH]; intros g Hg; cbn [fold_left]; [exact Hg|].
  apply IH. clear IH. revert g Hg.
  induction (zrange (- radius) radius) as [|dx dxs IH]; intros g Hg; cbn [fold_left];
    [exact Hg|].
  apply IH. unfold carveCell.
  destruct (_ && _ && _ && _); [|exact Hg].
  destruct (hypot_le dx dy radius); [|exact Hg].
  apply setTile_sound; [exact Hg | exact AIR_TILE_sound].
Qed.

Lemma walk_sound rnd steps : forall n cx cy g,
  gridSound g -> gridSound (fst (walk rnd steps n cx cy g)).
Proof.
  induction steps as [|steps IH]; intros n cx cy g Hg; cbn [walk fst]; [exact Hg|].
  pose proof (carveDisc_sound cx cy (discRadius (rnd n)) g Hg) as Hd.
  destruct (_ || _ || _ || _); cbn [fst]; [exact Hd | apply IH, Hd].
Qed.

Lemma caves_sound rnd count : forall n g,
  gridSound g -> gridSound (fst (caves rnd count n g)).
Proof.
  induction count as [|count IH]; intros n g Hg; cbn [caves fst]; [exact Hg|].
  match goal with
  | |- context [walk rnd ?st ?m ?cx ?cy g] =>
      pose proof (walk_sound rnd st m cx cy g Hg) as Hw;
      destruct (walk rnd st m cx cy g) as [g1 n1]
  end.
  apply IH, Hw.
Qed.

Lemma placeResource_sound fuel rnd type count minY : forall placed n g g' n',
  type <> AIR -> gridSound g ->
  placeResource fuel rnd type count minY placed n g = Some (g', n') -> gridSound g'.
Proof.
  induction fuel as [|fuel IH]; intros placed n g g' n' Hne Hg;
    cbn [placeResource]; destruct (placed <? count); try discriminate;
    try (intros [= <- <-]; exact Hg).
  destruct (tileAt g _ _) as [t|]; [|discriminate].
  destruct (_ || _); intros H; eapply IH; try exact H; try assumption.
  apply setTile_sound; [exact Hg | apply fresh_tile_sound, Hne].
Qed.

Lemma startGame_sound fuel rnd s0 : startGame fuel rnd = Some s0 -> gridSound (grid s0).
Proof.
  unfold startGame, initGame.
  pose proof (caves_sound rnd 15 0 layeredGrid layeredGrid_sound) as H0.
  destruct (caves rnd 15 0 layeredGrid) as [g0 n0]. cbn [fst] in H0.
  destruct (placeResource fuel rnd SHARD 15 12 0 n0 g0) as [[g1 n1]|] eqn:H1; [|discriminate].
  destruct (placeResource fuel rnd GOLD GOLD_COUNT 20 0 n1 g1) as [[g2 n2]|] eqn:H2;
    [|discriminate].
  destruct (placeResource fuel rnd DIAMOND DIAMOND_COUNT 40 0 n2 g2) as [[g3 n3]|] eqn:H3;
    [|discriminate].
  intros [= <-]. cbn [grid with_status].
  apply placeResource_sound in H1; [|discriminate|exact H0].
  apply placeResource_sound in H2; [|discriminate|exact H1].
  apply placeResource_sound in H3; [|discriminate|exact H2]. exact H3.
Qed.

Lemma mineTile_sound rnd n tx ty s :
  gridSound (grid s) -> gridSound (grid (mineTile rnd n tx ty s)).
Proof.
  intros Hg. unfold mineTile.
  destruct (tileAt (grid s) tx ty) as [tile|] eqn:Ht; [|exact Hg].
  destruct (tileAt_sound _ _ _ _ Hg Ht) as [Hmax Hair].
  destruct (isAIR tile) eqn:Hty; [exact Hg|]. apply isAIR_false in Hty.
  destruct (Z.leb_spec (Tile.durability tile - 8) 0) as [Hd|Hd].
  - assert (Hnew : tileSound (Tile.mk AIR (Tile.durability tile - 8) (Tile.maxDurability tile))).
    { unfold tileSound. cbn [Tile.type Tile.durability Tile.maxDurability].
      split; [lia | split; [intros _; exact Hd | reflexivity]]. }
    destruct (Tile.type tile); try (destruct (SHARD_GOAL <=? _));
      cbn [grid with_grid with_particles with_screenShake with_status with_shardsCollected
           with_goldCollected with_diamondsCollected];
      apply setTile_sound; assumption.
  - cbn [grid with_grid with_particles]. apply setTile_sound; [exact Hg|].
    unfold tileSound. cbn [Tile.type Tile.durability Tile.maxDurability].
    split; [lia | split; [intros; contradiction | lia]].
Qed.

Lemma step_gridSound heading s ev : gridSound (grid s) -> gridSound (grid (step heading s ev)).
Proof.
  intros Hg. destruct ev as [keys rnd | rnd | eager rnd cx cy | cx cy]; cbn [step].
  - unfold update. destruct (negb _); [exact Hg|].
    destruct (tick_world heading keys rnd s) as (-> & _). exact Hg.
  - unfold handleAttack. destruct (_ || _); [exact Hg|].
    destruct (strike _ _ _ _ _ _ _) as [[[es ps] n] hit]. exact Hg.
  - destruct (decide (status s = PLAYING)) as [Hst|Hst];
      [|rewrite handleCanvasClick_idle by exact Hst; exact Hg].
    destruct (handleCanvasClick_playing eager rnd cx cy s Hst) as [_ Hc].
    destruct (clickEnemies_spec rnd (mouseX cx s) (mouseY cy s) s)
      as (extra & n & Hce & _ & _).
    rewrite Hce in Hc. cbv zeta in Hc. cbn [fst] in Hc.
    destruct Hc as [-> | (n' & tx & ty & _ & _ & _ & _ & ->)]; [exact Hg|].
    apply mineTile_sound. exact Hg.
  - unfold handleMouseMove. destruct (negb _); [exact Hg|].
    destruct (_ || _ || _ || _); exact Hg.
Qed.

(** X1.  The durability bounds the code keeps for every tile in every
    snapshot of a session started by [startGame]: the durability never
    exceeds maxDurability, and a tile is AIR exactly when its durability
    is zero or below. *)
Theorem durability_bounds_in_session (heading : Q -> Q -> Q * Q) (fuel : nat) (rnd : Rand)
    (s0 : GameState) (evs : list Event) (x y : Z) (t : Tile) :
  startGame fuel rnd = Some s0 ->
  tileAt (grid (run heading evs s0)) x y = Some t ->
  Tile.durability t <= Tile.maxDurability t /\
  (Tile.type t = AIR <-> Tile.durability t <= 0).
Proof.
  intros H0. apply startGame_sound in H0.
  assert (Hrun : gridSound (grid (run heading evs s0))).
  { revert s0 H0. induction evs as [|ev evs IH]; intros s0 H0; [exact H0|].
    unfold run. cbn [fold_left]. apply IH, step_gridSound, H0. }
  intros Ht. exact (tileAt_sound _ _ _ _ Hrun Ht).
Qed.

(** ** The first press of a session on the grass row *)

Lemma Qltb_false a b : Qltb a b = false <-> (b <= a)%Q.
Proof. unfold Qltb. rewrite negb_false_iff. apply Qle_bool_iff. Qed.

Lemma Qltb_true a b : Qltb a b = true <-> (a < b)%Q.
Proof.
  unfold Qltb. rewrite negb_true_iff. split.
  - intros H. apply Qnot_le_lt. intros Hle. apply Qle_bool_iff in Hle. congruence.
  - intros H. destruct (Qle_bool b a) eqn:E; [|reflexivity].
    apply Qle_bool_iff in E. exfalso. exact (Qlt_not_le _ _ H E).
Qed.

Lemma spawnEnemy_far rnd n i mx :
  unit_draws rnd -> inClickRange mx (220 + 0) (spawnEnemy rnd n i) = false.
Proof.
  intros Hrnd. destruct (Hrnd (n + 1)%nat) as [H0 _].
  unfold inClickRange, hypot_lt, spawnEnemy. cbn [Entity.pos Vector2.x Vector2.y].
  apply Qltb_false. unfold GRID_HEIGHT, TILE_SIZE, inject_Z, Qdiv.
  change (/ 2)%Q with (1 # 2)%Q. change ((60 - 15)%Z # 1) with (45 # 1).
  set (r := rnd (n + 1)%nat) in *. set (a := (mx - _)%Q).
  assert (Hb : (220 + 0 - ((r * (45 # 1) + 15) * (40 # 1) + (40 # 1) * (1 # 2)) <= -32)%Q)
    by lra.
  set (b := (220 + 0 - _)%Q) in *.
  nra.
Qed.

Lemma handleCanvasClick_mines eager rnd cx cy s tx ty :
  status s = PLAYING ->
  existsb (inClickRange (mouseX cx s) (mouseY cy s)) (enemies s) = false ->
  tx = Qfloor (mouseX cx s / inject_Z TILE_SIZE) ->
  ty = Qfloor (mouseY cy s / inject_Z TILE_SIZE) ->
  0 <= tx < GRID_WIDTH -> 0 <= ty < GRID_HEIGHT ->
  hypot_lt ((inject_Z tx + 0.5) * inject_Z TILE_SIZE
            - (Vector2.x (Entity.pos (player s)) + inject_Z TILE_SIZE / 2))
           ((inject_Z ty + 0.5) * inject_Z TILE_SIZE
            - (Vector2.y (Entity.pos (player s)) + inject_Z TILE_SIZE / 2))
           (inject_Z TILE_SIZE * 3.5) = true ->
  exists n s1,
    handleCanvasClick eager rnd cx cy s = mineTile rnd n tx ty s1 /\
    grid s1 = grid s /\ screenShake s1 = screenShake s /\
    shardsCollected s1 = shardsCollected s.
Proof.
  intros Hst Hmiss Htx Hty Hbx Hby Hnear. unfold handleCanvasClick.
  rewrite bool_decide_eq_true_2 by exact Hst. cbn [negb].
  fold (mouseX cx s) (mouseY cy s).
  destruct (clickEnemies_spec rnd (mouseX cx s) (mouseY cy s) s) as (extra & n & -> & _ & _).
  cbv zeta. rewrite Hmiss, andb_false_r, <- Htx, <- Hty, Hnear.
  replace (_ || _ || _ || _) with false
    by (symmetry; rewrite !orb_false_iff; lia).
  eexists _, _. split; [reflexivity|]. repeat split.
Qed.

Lemma mineTile_spent rnd n tx ty s tile :
  wf_grid (grid s) -> 0 <= tx < GRID_WIDTH -> 0 <= ty < GRID_HEIGHT ->
  tileAt (grid s) tx ty = Some tile ->
  Tile.type tile <> AIR ->
  Tile.durability tile - 8 <= 0 ->
  tileAt (grid (mineTile rnd n tx ty s)) tx ty =
    Some (Tile.mk AIR (Tile.durability tile - 8) (Tile.maxDurability tile)).
Proof.
  intros Hwf Hx Hy Ht Hne Hd. unfold mineTile. rewrite Ht.
  rewrite (proj2 (isAIR_false tile) Hne).
  replace (_ <=? 0) with true by (symmetry; apply Z.leb_le; exact Hd).
  destruct (Tile.type tile); try contradiction;
    try (destruct (SHARD_GOAL <=? _));
    cbn [grid with_grid with_particles with_screenShake with_status with_shardsCollected
         with_goldCollected with_diamondsCollected];
    (rewrite tileAt_setTile by (try assumption; lia));
    rewrite !Z.eqb_refl; reflexivity.
Qed.

(** C1, what the code does instead.  In every world a session starts with
    (draws in [0, 1)), the tile at column 19, row 5 is GRASS with
    durability 5 of 5, and the first pointer press on it, at canvas
    position (790, 220), leaves an AIR tile with durability -3 and
    maxDurability 5: the press overwrites the type and nothing else. *)
Theorem mined_tile_keeps_spent_durability (fuel : nat) (eager : bool) (rnd rnd' : Rand)
    (s0 : GameState) :
  unit_draws rnd ->
  startGame fuel rnd = Some s0 ->
  tileAt (grid s0) 19 5 = Some (Tile.mk GRASS 5 5) /\
  tileAt (grid (handleCanvasClick eager rnd' 790 220 s0)) 19 5 = Some (Tile.mk AIR (-3) 5).
Proof.
  intros Hrnd H0.
  destruct (startGame_shape fuel rnd s0 H0) as (Hst & Hp & _ & _ & Hcam & n & Hes).
  destruct (startGame_rows fuel rnd s0 Hrnd H0) as [Hwf Hrows].
  assert (Ht : tileAt (grid s0) 19 5 = Some (Tile.mk GRASS 5 5)).
  { rewrite Hrows by (unfold GRID_WIDTH; lia). reflexivity. }
  split; [exact Ht|].
  assert (Hmx : mouseX 790 s0 = (790 + 0)%Q) by (unfold mouseX; rewrite Hcam; reflexivity).
  assert (Hmy : mouseY 220 s0 = (220 + 0)%Q) by (unfold mouseY; rewrite Hcam; reflexivity).
  destruct (handleCanvasClick_mines eager rnd' 790 220 s0 19 5) as (n' & s1 & -> & Hg & _).
  - exact Hst.
  - rewrite Hmx, Hmy, Hes. apply not_true_is_false. intros Hex.
    apply existsb_exists in Hex as (e & He & Hin).
    apply in_map_iff in He as (i & <- & _).
    rewrite spawnEnemy_far in Hin by exact Hrnd. discriminate.
  - rewrite Hmx. reflexivity.
  - rewrite Hmy. reflexivity.
  - unfold GRID_WIDTH. lia.
  - unfold GRID_HEIGHT. lia.
  - rewrite Hp. reflexivity.
  - rewrite <- Hg in Ht, Hwf.
    rewrite (mineTile_spent rnd' n' 19 5 s1 (Tile.mk GRASS 5 5));
      try assumption; try reflexivity; try discriminate;
      unfold GRID_WIDTH, GRID_HEIGHT; cbn [Tile.durability]; lia.
Qed.

Lemma sampleWorld_generated : startGame 1000 sampleRnd <> None.
Proof. vm_compute. discriminate. Qed.

(** C1, on the sample world. *)
Lemma mined_tile_keeps_spent_durability_witness :
  unit_draws sampleRnd /\
  exists s0,
    startGame 1000 sampleRnd = Some s0 /\
    tileAt (grid s0) 19 5 = Some (Tile.mk GRASS 5 5) /\
    tileAt (grid (handleCanvasClick false sampleRnd 790 220 s0)) 19 5 = Some (Tile.mk AIR (-3) 5).
Proof.
  split; [exact sampleRnd_unit|].
  destruct (startGame 1000 sampleRnd) as [s0|] eqn:E.
  - exists s0. split; [reflexivity|].
    exact (mined_tile_keeps_spent_durability 1000 false sampleRnd sampleRnd s0
             sampleRnd_unit E).
  - exfalso. exact (sampleWorld_generated E).
Defined.

(** ** Evaluations on sample snapshots *)

(** X1, on the sample world after the press that mines the grass tile. *)
Lemma durability_bounds_in_session_witness :
  exists s0,
    startGame 1000 sampleRnd = Some s0 /\
    forall t,
      tileAt (grid (run axisHeading [CanvasClick false sampleRnd 790 220] s0)) 19 5 = Some t ->
      Tile.durability t <= Tile.maxDurability t /\
      (Tile.type t = AIR <-> Tile.durability t <= 0).
Proof.
  destruct (startGame 1000 sampleRnd) as [s0|] eqn:E.
  - exists s0. split; [reflexivity|]. intros t.
    exact (durability_bounds_in_session axisHeading 1000 sampleRnd s0
             [CanvasClick false sampleRnd 790 220] 19 5 t E).
  - exfalso. exact (sampleWorld_generated E).
Defined.

(** C4, on the layered world: the player stepping right and down from the
    spawn point. *)
Lemma collision_query_and_axis_steps_witness :
  wf_grid layeredGrid /\
  (let pos := Entity.pos initialPlayer in
   let pos' := Entity.pos (movePlayer layeredGrid 5 5 initialPlayer) in
   pos' <> pos -> checkCollision layeredGrid (Vector2.x pos') (Vector2.y pos') = false).
Proof.
  split; [exact layeredGrid_wf|].
  destruct (collision_query_and_axis_steps axisHeading layeredGrid layeredGrid_wf)
    as (_ & Hplayer & _).
  apply (Hplayer 5%Q 5%Q initialPlayer).
Defined.

(** C10, with three hostiles in contact. *)
Lemma contact_damage_once_per_tick_witness :
  (let sh := mkShared (damaged initialPlayer) [] 10 10 in
   cooldownOver (sh_player sh) = false /\
   snd (enemiesTick axisHeading sampleRnd layeredGrid (enemies threeHostiles) sh) = sh) /\
  (let h := Entity.health (player threeHostiles) in
   let h' := Entity.health (player (update axisHeading [] sampleRnd threeHostiles)) in
   (h' = h \/ h' = h - ENEMY_DAMAGE) /\ h - ENEMY_DAMAGE <= h' <= h).
Proof.
  destruct (contact_damage_once_per_tick axisHeading) as (_ & Hblocked & Htick).
  split.
  - split; [reflexivity|]. apply Hblocked. reflexivity.
  - apply (Htick [] sampleRnd threeHostiles).
Defined.

(** Three hostiles in contact in one tick: one hit, 34 health points. *)
Example three_hostiles_one_hit :
  map (inContact (Entity.pos (movedPlayer [] threeHostiles))) (enemies threeHostiles)
    = [true; true; true] /\
  Entity.health (player (update axisHeading [] sampleRnd threeHostiles)) = 200 - 34.
Proof. vm_compute. split; reflexivity. Qed.

(** C5, next to a hostile that cannot move: the first tick deals the hit
    that starts the cooldown, the next 59 deal none, the 60th deals one. *)
Lemma contact_damage_grace_period_witness :
  let s := update axisHeading [] sampleRnd stuckHostile in
  let s59 := ticks axisHeading (idleFrames 59) s in
  (status s = PLAYING /\ 0 < Entity.health (player s) /\
   Entity.damageCooldown (player s) = Some DAMAGE_COOLDOWN /\
   contactNow [] s59 = true) /\
  Entity.health (player s59) = Entity.health (player s) /\
  Entity.health (player (update axisHeading [] sampleRnd s59))
    = Entity.health (player s) - ENEMY_DAMAGE.
Proof.
  intros s s59.
  assert (Hst : status s = PLAYING) by (vm_compute; reflexivity).
  assert (Hh : 0 < Entity.health (player s)) by (vm_compute; reflexivity).
  assert (Hd : Entity.damageCooldown (player s) = Some DAMAGE_COOLDOWN)
    by (vm_compute; reflexivity).
  assert (Hc : contactNow [] s59 = true) by (vm_compute; reflexivity).
  destruct (contact_damage_grace_period axisHeading s (idleFrames 59) [] sampleRnd
              Hst Hh Hd eq_refl) as [Hquiet Hagain].
  split; [auto|]. split.
  - destruct (Hquiet 59%nat (le_n 59)) as (_ & Hsame & _). exact Hsame.
  - apply Hagain. exact Hc.
Defined.

(** C2 as amended, on the sample world after a frame, a melee attack and a
    pointer press. *)
Lemma health_bounds_in_session_witness :
  exists s0,
    startGame 1000 sampleRnd = Some s0 /\
    let s := run axisHeading
               [Frame ["KeyD"%string] sampleRnd; SpaceKey sampleRnd;
                CanvasClick false sampleRnd 790 220] s0 in
    - ENEMY_DAMAGE < Entity.health (player s) <= Entity.maxHealth (player s) /\
    (forall e, In e (enemies s) -> 0 < Entity.health e <= Entity.maxHealth e).
Proof.
  destruct (startGame 1000 sampleRnd) as [s0|] eqn:E.
  - exists s0. split; [reflexivity|].
    destruct (health_bounds_in_session axisHeading 1000 sampleRnd s0
                [Frame ["KeyD"%string] sampleRnd; SpaceKey sampleRnd;
                 CanvasClick false sampleRnd 790 220] E) as (Hes & Hp & _).
    split; [exact Hp | exact Hes].
  - exfalso. exact (sampleWorld_generated E).
Defined.

Lemma stuckHostile_healthInv : healthInv stuckHostile.
Proof.
  unfold healthInv, stuckHostile, surfaceState, hostileAlive, initialPlayer,
    INITIAL_PLAYER_HEALTH, ENEMY_DAMAGE.
  cbn [enemies player status Entity.health Entity.maxHealth].
  split; [|split; [reflexivity|split; [lia|intros; lia]]].
  repeat constructor; cbn [Entity.health Entity.maxHealth hostileAt]; lia.
Qed.

Lemma twoWeakHostiles_alive : Forall hostileAlive (enemies twoWeakHostiles).
Proof.
  unfold twoWeakHostiles, surfaceState, hostileAlive. cbn [enemies].
  repeat constructor; cbn [Entity.health Entity.maxHealth hostileAt]; lia.
Qed.

(** C2, as stated, fails: the player's health ends below zero.  From full
    health, standing next to one hostile, the sixth contact hit lands on
    tick 301 and leaves -4. *)
Lemma player_health_drops_below_zero :
  let s := ticks axisHeading (idleFrames 301) stuckHostile in
  healthInv stuckHostile /\ status stuckHostile = PLAYING /\
  Entity.health (player stuckHostile) = 200 /\
  Entity.health (player s) = -4 /\ status s = LOST /\
  ~ (0 <= Entity.health (player s) <= Entity.maxHealth (player s)).
Proof.
  assert (H : Entity.health (player (ticks axisHeading (idleFrames 301) stuckHostile)) = -4)
    by (vm_compute; reflexivity).
  assert (Hs : status (ticks axisHeading (idleFrames 301) stuckHostile) = LOST)
    by (vm_compute; reflexivity).
  cbv zeta. rewrite H, Hs.
  split; [apply stuckHostile_healthInv|].
  split; [reflexivity|]. split; [reflexivity|]. split; [reflexivity|].
  split; [reflexivity|]. intros [Hge _]. apply Hge. reflexivity.
Qed.

(** C6, as stated, fails: one press kills two hostiles and restores 20
    health points, not 20 for each. *)
Lemma one_press_two_kills_one_heal :
  let s := twoWeakHostiles in
  let s' := handleCanvasClick false sampleRnd 820 180 s in
  status s = PLAYING /\ Forall hostileAlive (enemies s) /\
  length (killedByClick 820 180 s) = 2%nat /\ enemies s' = [] /\
  Entity.health (player s) = 132 /\ Entity.health (player s') = 152 /\
  Entity.health (player s') <>
    Z.min (Entity.maxHealth (player s))
          (Entity.health (player s) + 20 * Z.of_nat (length (killedByClick 820 180 s))).
Proof.
  cbv zeta.
  split; [reflexivity|]. split; [apply twoWeakHostiles_alive|].
  split; [vm_compute; reflexivity|]. split; [vm_compute; reflexivity|].
  split; [reflexivity|]. split; [vm_compute; reflexivity|].
  vm_compute. discriminate.
Qed.

(** C6 as amended, on the same press. *)
Lemma click_kill_heals_once_witness :
  let s := twoWeakHostiles in
  (status s = PLAYING /\ Forall hostileAlive (enemies s)) /\
  Entity.health (player (handleCanvasClick false sampleRnd 820 180 s)) =
    (if (0 <? length (killedByClick 820 180 s))%nat
     then Z.min INITIAL_PLAYER_HEALTH (Entity.health (player s) + 20)
     else Entity.health (player s)).
Proof.
  intros s.
  assert (Hst : status s = PLAYING) by reflexivity.
  assert (Hes : Forall hostileAlive (enemies s)) by apply twoWeakHostiles_alive.
  split; [auto|]. apply (click_kill_heals_once false sampleRnd 820 180 s Hst Hes).
Defined.

(** C3, mining the tenth shard. *)
Lemma shard_goal_wins_once_witness :
  let s := ninthShard in
  let s' := handleCanvasClick false sampleRnd 820 220 s in
  (status s = PLAYING /\ shardsCollected s' <> shardsCollected s /\
   SHARD_GOAL <= shardsCollected s') /\
  status s' = WON /\
  update axisHeading [] sampleRnd s' = s'.
Proof.
  intros s s'.
  assert (Hst : status s = PLAYING) by reflexivity.
  assert (Hne : shardsCollected s' <> shardsCollected s) by (vm_compute; discriminate).
  assert (Hge : SHARD_GOAL <= shardsCollected s') by (vm_compute; discriminate).
  destruct (shard_goal_wins_once axisHeading) as (Hwin & _ & _ & Hidle).
  pose proof (Hwin false sampleRnd 820%Q 220%Q s Hst Hne Hge) as Hwon.
  change (status s' = WON) in Hwon.
  split; [auto|]. split; [exact Hwon|].
  apply Hidle. rewrite Hwon. discriminate.
Defined.

Lemma sampleWorld_started : startGame 1000 sampleRnd = Some sampleWorld.
Proof.
  unfold sampleWorld.
  destruct (startGame 1000 sampleRnd) as [s0|] eqn:E; [reflexivity|].
  exfalso. exact (sampleWorld_generated E).
Qed.

Lemma besideHostile_press :
  let s := besideHostile in
  status s = PLAYING /\ pointedX 423 s = 28 /\ pointedY 406 s = 18 /\
  withinReach (pointedX 423 s) (pointedY 406 s) s = true /\
  existsb (inClickRange (mouseX 423 s) (mouseY 406 s)) (enemies s) = true /\
  tileAt (grid s) (pointedX 423 s) (pointedY 406 s) = Some (Tile.mk STONE 15 15) /\
  map Entity.health (underPointer 423 406 (handleCanvasClick false sampleRnd 423 406 s))
  = [66].
Proof. vm_compute. repeat split. Qed.

(** C8, in a session on the sample world (see [approach]): the player has
    dug down column 27 to (1085, 600); a press at canvas position
    (423, 406) points at the centre of the hostile that sits in the rock,
    on the stone tile at column 28, row 18, which is within reach.  With
    the updater queued the hostile is hit (100 to 66) and the tile is
    mined (15 to 7). *)
Lemma hostile_hit_still_mines_witness :
  let s := besideHostile in
  (startGame 1000 sampleRnd = Some sampleWorld /\
   status s = PLAYING /\
   existsb (inClickRange (mouseX 423 s) (mouseY 406 s)) (enemies s) = true /\
   tileAt (grid s) 28 18 = Some (Tile.mk STONE 15 15)) /\
  map Entity.health (underPointer 423 406 (handleCanvasClick false sampleRnd 423 406 s))
  = [66] /\
  tileAt (grid (handleCanvasClick false sampleRnd 423 406 s)) 28 18
  = Some (Tile.mk STONE 7 15).
Proof.
  intros s. pose proof besideHostile_press as Hr. cbv zeta in Hr. fold s in Hr.
  destruct Hr as (Hst & Hpx & Hpy & Hreach & Hhit & Ht & Hafter).
  assert (Hx : 0 <= pointedX 423 s < GRID_WIDTH) by (rewrite Hpx; unfold GRID_WIDTH; lia).
  assert (Hy : 0 <= pointedY 406 s < GRID_HEIGHT) by (rewrite Hpy; unfold GRID_HEIGHT; lia).
  destruct (hostile_hit_still_mines sampleRnd 423 406 s (Tile.mk STONE 15 15)
              Hst Hhit Hx Hy Hreach Ht ltac:(discriminate))
    as (_ & _ & _ & _ & Htile & _).
  rewrite Hpx, Hpy in Htile, Ht.
  split; [split; [exact sampleWorld_started | split; [exact Hst | split; [exact Hhit | exact Ht]]]|].
  split; [exact Hafter | exact Htile].
Defined.


(** C9, a press on the sky above the player. *)
Lemma mining_air_is_noop_witness :
  let s := surfaceState initialPlayer [] in
  (tileAt (grid s) 20 3 = Some AIR_TILE /\ Tile.type AIR_TILE = AIR) /\
  mineTile sampleRnd 0 20 3 s = s.
Proof.
  intros s.
  assert (Ht : tileAt (grid s) 20 3 = Some AIR_TILE) by (vm_compute; reflexivity).
  split; [auto|].
  apply (mining_air_is_noop sampleRnd 0 20 3 s AIR_TILE Ht eq_refl).
Defined.

(** C7 as amended, on the sample draws: the start of the first walk is
    carved, and a cell of row 9 is not. *)
Lemma layers_and_caves_witness :
  unit_draws sampleRnd /\
  (let g' := fst (caves sampleRnd 15 0 layeredGrid) in
   tileAt g' 4 36 = Some AIR_TILE /\ tileAt g' 7 9 = Some (layerTile 9)).
Proof.
  split; [exact sampleRnd_unit|].
  destruct (layers_and_caves sampleRnd sampleRnd_unit)
    as (_ & _ & _ & _ & (ws & Hl & Hch & _ & _ & _ & Hstart) & Hrows & _).
  assert (Hc : walkCentre sampleRnd 0 0 = (4, 36)) by (vm_compute; reflexivity).
  cbv zeta. split.
  - destruct ws as [|w ws]; [discriminate Hl|]. destruct Hch as [Hw _].
    pose proof (Hstart w (or_introl eq_refl)) as H. rewrite Hw, Hc in H. exact H.
  - apply (Hrows 7 9); [unfold GRID_WIDTH |]; lia.
Defined.

(** * Further properties *)

(** ** How a session ends *)

Lemma ticks_idle heading frames s : status s <> PLAYING -> ticks heading frames s = s.
Proof.
  intros Hs. induction frames as [|f frames IH]; [reflexivity|].
  unfold ticks in *. cbn [fold_left]. rewrite update_idle by exact Hs. exact IH.
Qed.

Lemma ticks_playing heading f frames s :
  status (ticks heading (f :: frames) s) = PLAYING ->
  status s = PLAYING /\ status (update heading (fst f) (snd f) s) = PLAYING.
Proof.
  intros H.
  destruct (decide (status s = PLAYING)) as [Hs|Hs];
    [|rewrite ticks_idle in H by exact Hs; contradiction].
  split; [exact Hs|].
  destruct (decide (status (update heading (fst f) (snd f) s) = PLAYING)) as [Hu|Hu];
    [exact Hu|].
  change (ticks heading (f :: frames) s)
    with (ticks heading frames (update heading (fst f) (snd f) s)) in H.
  rewrite ticks_idle in H by exact Hu. contradiction.
Qed.

Lemma update_status heading keys rnd s :
  status s = PLAYING ->
  status (update heading keys rnd s) =
  if Entity.health (player (update heading keys rnd s)) <=? 0 then LOST else PLAYING.
Proof.
  intros Hs. rewrite update_playing by exact Hs. rewrite tick_status, Hs. reflexivity.
Qed.

Lemma handleAttack_status rnd s : status (handleAttack rnd s) = status s.
Proof.
  destruct (handleAttack_spec rnd s) as [-> | (_ & H & _)]; [reflexivity | exact H].
Qed.

Lemma handleMouseMove_status cx cy s : status (handleMouseMove cx cy s) = status s.
Proof.
  unfold handleMouseMove. destruct (negb _); [reflexivity|].
  destruct (_ || _ || _ || _); reflexivity.
Qed.

Lemma step_status heading s ev :
  status s = PLAYING ->
  status (step heading s ev) = PLAYING \/ status (step heading s ev) = WON \/
  status (step heading s ev) = LOST.
Proof.
  intros Hs. destruct ev as [keys rnd | rnd | eager rnd cx cy | cx cy]; cbn [step].
  - rewrite update_status by exact Hs. destruct (_ <=? 0); auto.
  - rewrite handleAttack_status. auto.
  - destruct (handleCanvasClick_entities eager rnd cx cy s Hs) as (_ & _ & [H | H]); auto.
  - rewrite handleMouseMove_status. auto.
Qed.

Lemma statusChanges_idle heading evs s :
  status s <> PLAYING -> statusChanges (trace heading evs s) = 0%nat.
Proof.
  intros Hs. induction evs as [|ev evs IH]; [reflexivity|].
  cbn [trace]. rewrite step_idle by exact Hs.
  destruct (trace_head heading evs s) as [tl Htl]. rewrite Htl in *.
  cbn [statusChanges] in *. rewrite bool_decide_eq_true_2 by reflexivity.
  destruct tl; cbn [Nat.add] in *; exact IH.
Qed.

Lemma statusChanges_le_1 heading evs : forall s,
  (statusChanges (trace heading evs s) <= 1)%nat.
Proof.
  induction evs as [|ev evs IH]; intros s; [cbn; lia|].
  cbn [trace].
  destruct (trace_head heading evs (step heading s ev)) as [tl Htl].
  pose proof (IH (step heading s ev)) as IH1.
  pose proof (statusChanges_idle heading evs (step heading s ev)) as Hidle.
  rewrite Htl in *. cbn [statusChanges] in *.
  destruct (bool_decide (status s = status (step heading s ev))) eqn:Hb; [exact IH1|].
  apply bool_decide_eq_false in Hb.
  destruct (decide (status s = PLAYING)) as [Hs|Hs];
    [|rewrite step_idle in Hb by exact Hs; contradiction].
  rewrite Hidle; [lia|]. congruence.
Qed.

(** X2.  A snapshot whose status is not PLAYING is left unchanged by every
    event; from PLAYING an event leaves the status at PLAYING or moves it to
    WON or LOST, a simulation tick moving it to LOST exactly when it leaves
    the player's health at zero or below, and a melee attack or a pointer
    move never changing it; so over any sequence of events the status
    changes at most once. *)
Theorem session_ends_once (heading : Q -> Q -> Q * Q) :
  (forall evs s, status s <> PLAYING -> run heading evs s = s) /\
  (forall ev s, status s = PLAYING ->
     status (step heading s ev) = PLAYING \/ status (step heading s ev) = WON \/
     status (step heading s ev) = LOST) /\
  (forall keysPressed rnd s, status s = PLAYING ->
     (status (update heading keysPressed rnd s) = LOST <->
      Entity.health (player (update heading keysPressed rnd s)) <= 0) /\
     status (update heading keysPressed rnd s) <> WON) /\
  (forall rnd s, status (handleAttack rnd s) = status s) /\
  (forall cx cy s, status (handleMouseMove cx cy s) = status s) /\
  (forall eager rnd cx cy s,
     status (handleCanvasClick eager rnd cx cy s) <> LOST \/ status s = LOST) /\
  (forall evs s, (statusChanges (trace heading evs s) <= 1)%nat).
Proof.
  repeat apply conj.
  - intros evs s. apply run_idle.
  - intros ev s. apply step_status.
  - intros keys rnd s Hs. rewrite update_status by exact Hs.
    destruct (Z.leb_spec (Entity.health (player (update heading keys rnd s))) 0);
      split; try discriminate; split; intros; try lia; try reflexivity; discriminate.
  - apply handleAttack_status.
  - apply handleMouseMove_status.
  - intros eager rnd cx cy s.
    destruct (decide (status s = PLAYING)) as [Hs|Hs].
    + left. destruct (handleCanvasClick_entities eager rnd cx cy s Hs) as (_ & _ & [H | H]);
        rewrite H; discriminate.
    + rewrite handleCanvasClick_idle by exact Hs.
      destruct (status s) eqn:E; auto; left; discriminate.
  - intros evs s. apply statusChanges_le_1.
Qed.

(** X2 on the snapshot with a wedged hostile: the tick that deals the
    first hit keeps the session going. *)
Lemma session_ends_once_witness :
  status stuckHostile = PLAYING /\
  (status (update axisHeading [] sampleRnd stuckHostile) = LOST <->
   Entity.health (player (update axisHeading [] sampleRnd stuckHostile)) <= 0).
Proof.
  split; [reflexivity|].
  destruct (session_ends_once axisHeading) as (_ & _ & Hlost & _).
  apply (Hlost [] sampleRnd stuckHostile). reflexivity.
Defined.

(** ** The parts of a tick *)

Lemma enemyTick_fst heading rnd g e sh :
  fst (enemyTick heading rnd g e sh) = pursue heading g (Entity.pos (sh_player sh)) e /\
  Entity.pos (sh_player (snd (enemyTick heading rnd g e sh))) = Entity.pos (sh_player sh).
Proof.
  unfold enemyTick, pursue, inAggroRange.
  destruct (hypot_lt _ _ 250); destruct (_ && _); cbn [fst snd sh_player]; split; reflexivity.
Qed.

Lemma enemiesTick_fst heading rnd g es : forall sh,
  fst (enemiesTick heading rnd g es sh) =
  map (pursue heading g (Entity.pos (sh_player sh))) es.
Proof.
  induction es as [|e es IH]; intros sh; [reflexivity|].
  cbn [enemiesTick map].
  pose proof (enemyTick_fst heading rnd g e sh) as [He Hp].
  destruct (enemyTick heading rnd g e sh) as [eNext sh1]. cbn [fst snd] in He, Hp.
  specialize (IH sh1).
  destruct (enemiesTick heading rnd g es sh1) as [rest sh2]. cbn [fst] in *.
  rewrite He, IH, Hp. reflexivity.
Qed.

Lemma tick_parts heading keys rnd prev :
  let p2 := movedPlayer keys prev in
  let hit := cooldownOver p2 && contactNow keys prev in
  let s := tick heading keys rnd prev in
  enemies s = map (pursue heading (grid prev) (Entity.pos p2)) (enemies prev) /\
  particles s =
    (if hit
     then agedParticles (particles prev) ++
          hitParticles rnd 0 (Vector2.x (Entity.pos p2)) (Vector2.y (Entity.pos p2))
     else agedParticles (particles prev)) /\
  screenShake s = (if hit then 10%Q else decayedShake (screenShake prev)) /\
  selectedTile s = selectedTile prev /\
  camera s =
    Vector2.mk
      (Vector2.x (Entity.pos p2) - inject_Z VIEWPORT_WIDTH / 2 + inject_Z TILE_SIZE / 2)
      (Vector2.y (Entity.pos p2) - inject_Z VIEWPORT_HEIGHT / 2 + inject_Z TILE_SIZE / 2).
Proof.
  unfold tick, contactNow, movedPlayer, agedParticles, decayedShake.
  destruct (readKeys keys _) as [[dx dy] p1].
  match goal with
  | |- context [enemiesTick heading rnd ?g ?es ?sh] =>
      pose proof (enemiesTick_shared heading rnd g es sh) as Hs;
      pose proof (enemiesTick_fst heading rnd g es sh) as Hf;
      destruct (enemiesTick heading rnd g es sh) as [es' sh']
  end.
  cbn [fst snd sh_player sh_particles sh_screenShake sh_draws enemies particles screenShake
       selectedTile camera] in *.
  subst es'. rewrite Hs.
  destruct (_ && _); cbn [sh_player sh_particles sh_screenShake damaged Entity.pos
    Entity.with_damageCooldown Entity.with_health]; repeat split.
Qed.

(** X3.  While the status is PLAYING a tick deals contact damage exactly
    when, after the player's move, the damage cooldown is zero or unset and
    some hostile is within 28 pixels of the player; the tick then takes 34
    health, sets the cooldown to 60 and the screen shake to 10 and adds the
    five hit particles to the aged ones; otherwise the player keeps the
    health, the cooldown decays by one, the shake decays and the particles
    only age. *)
Theorem contact_damage_exactly_when_due (heading : Q -> Q -> Q * Q)
    (keysPressed : list string) (rnd : Rand) (s : GameState) :
  status s = PLAYING ->
  let p2 := movedPlayer keysPressed s in
  let hit := cooldownOver p2 && contactNow keysPressed s in
  let s' := update heading keysPressed rnd s in
  Entity.damageCooldown p2 = cooled (Entity.damageCooldown (player s)) /\
  Entity.health (player s') =
    (if hit then Entity.health (player s) - ENEMY_DAMAGE else Entity.health (player s)) /\
  Entity.damageCooldown (player s') =
    (if hit then Some DAMAGE_COOLDOWN else cooled (Entity.damageCooldown (player s))) /\
  screenShake s' = (if hit then 10%Q else decayedShake (screenShake s)) /\
  exists burst,
    particles s' = agedParticles (particles s) ++ burst /\
    Forall isHitParticle burst /\
    length burst = (if hit then 5 else 0)%nat.
Proof.
  intros Hst p2 hit s'. subst s'. rewrite update_playing by exact Hst.
  pose proof (movedPlayer_player keysPressed s) as (Hh & _ & Hd).
  pose proof (tick_parts heading keysPressed rnd s) as (_ & Hps & Hsh & _).
  cbv zeta in Hps, Hsh. fold p2 in Hh, Hd, Hps, Hsh. fold hit in Hps, Hsh.
  rewrite tick_player. fold p2. fold hit. rewrite Hps, Hsh.
  split; [exact Hd|].
  destruct hit; unfold damaged;
    cbn [Entity.health Entity.damageCooldown Entity.with_damageCooldown Entity.with_health];
    rewrite ?Hh, ?Hd; repeat split.
  - eexists. split; [reflexivity|]. split; [apply hitParticles_hit | reflexivity].
  - exists []. rewrite app_nil_r. repeat split. constructor.
Qed.

(** X3 next to a hostile that cannot move: the first tick hits. *)
Lemma contact_damage_exactly_when_due_witness :
  status stuckHostile = PLAYING /\
  Entity.health (player (update axisHeading [] sampleRnd stuckHostile)) =
    (if cooldownOver (movedPlayer [] stuckHostile) && contactNow [] stuckHostile
     then Entity.health (player stuckHostile) - ENEMY_DAMAGE
     else Entity.health (player stuckHostile)).
Proof.
  split; [reflexivity|].
  apply (contact_damage_exactly_when_due axisHeading [] sampleRnd stuckHostile eq_refl).
Defined.

(** ** Hostiles through a tick *)

Lemma chase_fields heading g playerPos e :
  let e' := chase heading g playerPos e in
  Entity.id e' = Entity.id e /\ Entity.type e' = Entity.type e /\
  Entity.health e' = Entity.health e /\ Entity.maxHealth e' = Entity.maxHealth e /\
  Entity.direction e' =
    (if Qltb (Vector2.x (Entity.pos e')) (Vector2.x playerPos) then 1 else -1).
Proof.
  unfold chase. destruct (heading _ _) as [co si]. repeat split.
Qed.

Lemma chase_step heading g playerPos e :
  unit_heading heading ->
  let p := Entity.pos e in
  let p' := Entity.pos (chase heading g playerPos e) in
  (Vector2.x p - 1.5 <= Vector2.x p' <= Vector2.x p + 1.5)%Q /\
  (Vector2.y p - 1.5 <= Vector2.y p' <= Vector2.y p + 1.5)%Q.
Proof.
  intros Hu. unfold chase.
  specialize (Hu (Vector2.y playerPos - Vector2.y (Entity.pos e))%Q
                 (Vector2.x playerPos - Vector2.x (Entity.pos e))%Q).
  destruct (heading _ _) as [co si]. cbn [fst snd] in Hu. destruct Hu as [Hc Hs].
  unfold Entity.with_direction, Entity.with_pos. cbn [Entity.pos].
  destruct (Entity.pos e) as [px py]. cbn [Vector2.x Vector2.y].
  destruct (checkCollision g _ py); cbn [Vector2.x Vector2.y];
    destruct (checkCollision g _ _); cbn [Vector2.x Vector2.y]; split; lra.
Qed.

(** X4.  While the status is PLAYING a tick returns the hostiles in the
    same order and number, each with its id, kind, health and maxHealth;
    a hostile 250 pixels or more from the (moved) player is returned as it
    was; one within 250 pixels faces the player (1 when the player is
    strictly to the right of where the hostile ends, -1 otherwise) and,
    for a heading with components in [-1, 1], is displaced by at most 1.5
    pixels on each axis. *)
Theorem hostiles_through_a_tick (heading : Q -> Q -> Q * Q) (keysPressed : list string)
    (rnd : Rand) (s : GameState) :
  status s = PLAYING ->
  unit_heading heading ->
  let playerPos := Entity.pos (movedPlayer keysPressed s) in
  let s' := update heading keysPressed rnd s in
  length (enemies s') = length (enemies s) /\
  forall i e, enemies s !! i = Some e ->
    exists e', enemies s' !! i = Some e' /\
      Entity.id e' = Entity.id e /\ Entity.type e' = Entity.type e /\
      Entity.health e' = Entity.health e /\ Entity.maxHealth e' = Entity.maxHealth e /\
      (inAggroRange playerPos e = false -> e' = e) /\
      (inAggroRange playerPos e = true ->
         Entity.direction e' =
           (if Qltb (Vector2.x (Entity.pos e')) (Vector2.x playerPos) then 1 else -1) /\
         (Vector2.x (Entity.pos e) - 1.5 <= Vector2.x (Entity.pos e')
            <= Vector2.x (Entity.pos e) + 1.5)%Q /\
         (Vector2.y (Entity.pos e) - 1.5 <= Vector2.y (Entity.pos e')
            <= Vector2.y (Entity.pos e) + 1.5)%Q).
Proof.
  intros Hst Hu playerPos s'. subst s'. rewrite update_playing by exact Hst.
  destruct (tick_parts heading keysPressed rnd s) as (Hes & _).
  fold playerPos in Hes. rewrite Hes. split; [apply length_map|].
  intros i e Hi. exists (pursue heading (grid s) playerPos e).
  split; [rewrite list_lookup_fmap, Hi; reflexivity|].
  unfold pursue.
  pose proof (chase_fields heading (grid s) playerPos e) as (H1 & H2 & H3 & H4 & H5).
  pose proof (chase_step heading (grid s) playerPos e Hu) as Hstep.
  destruct (inAggroRange playerPos e).
  - repeat apply conj; [exact H1 | exact H2 | exact H3 | exact H4
                       | intros Hf; discriminate Hf
                       | intros _; split; [exact H5 | exact Hstep]].
  - repeat apply conj; [reflexivity | reflexivity | reflexivity | reflexivity
                       | intros _; reflexivity | intros Hf; discriminate Hf].
Qed.

Lemma axisHeading_unit : unit_heading axisHeading.
Proof.
  intros dy dx. unfold axisHeading.
  destruct (Qeq_bool dy 0); [destruct (Qle_bool 0 dx)|
    destruct (Qeq_bool dx 0); [destruct (Qle_bool 0 dy)|]];
    cbn [fst snd]; split; split; discriminate.
Qed.

(** X4 around the player with three hostiles. *)
Lemma hostiles_through_a_tick_witness :
  (status threeHostiles = PLAYING /\ unit_heading axisHeading) /\
  length (enemies (update axisHeading [] sampleRnd threeHostiles)) =
    length (enemies threeHostiles).
Proof.
  split; [split; [reflexivity | exact axisHeading_unit]|].
  apply (hostiles_through_a_tick axisHeading [] sampleRnd threeHostiles eq_refl
           axisHeading_unit).
Defined.

(** ** The melee attack *)

Lemma movedPlayer_attack keys prev :
  let p2 := movedPlayer keys prev in
  let p := player prev in
  Entity.attackCooldown p2 = cooled (Entity.attackCooldown p) /\
  Entity.isAttacking p2 =
    match Entity.attackCooldown p with
    | Some c => if (0 <? c) && (c - 1 <? ATTACK_COOLDOWN - 5) then Some false
                else Entity.isAttacking p
    | None => Entity.isAttacking p
    end.
Proof.
  unfold movedPlayer.
  assert (Hr : forall p, Entity.attackCooldown (snd (readKeys keys p)) = Entity.attackCooldown p
                         /\ Entity.isAttacking (snd (readKeys keys p)) = Entity.isAttacking p).
  { intros p. unfold readKeys. cbn [snd].
    destruct (has "KeyA" keys || has "ArrowLeft" keys);
      destruct (has "KeyD" keys || has "ArrowRight" keys); split; reflexivity. }
  specialize (Hr (decayDamageCooldown (decayAttackCooldown (player prev)))).
  destruct (readKeys keys _) as [[dx dy] p1]. cbn [snd] in Hr. destruct Hr as [Hc Hf].
  unfold movePlayer, Entity.with_pos. cbn [Entity.attackCooldown Entity.isAttacking].
  rewrite Hc, Hf. clear Hc Hf.
  assert (Hd : forall p, Entity.attackCooldown (decayDamageCooldown p) = Entity.attackCooldown p
                         /\ Entity.isAttacking (decayDamageCooldown p) = Entity.isAttacking p).
  { intros p. unfold decayDamageCooldown. destruct (Entity.damageCooldown p) as [c|];
      [destruct (0 <? c)|]; split; reflexivity. }
  destruct (Hd (decayAttackCooldown (player prev))) as [-> ->].
  unfold decayAttackCooldown, cooled.
  destruct (Entity.attackCooldown (player prev)) as [c|] eqn:Hc; [|rewrite Hc; auto].
  destruct (0 <? c); cbn [andb]; [|rewrite Hc; auto].
  destruct (c - 1 <? ATTACK_COOLDOWN - 5); split; reflexivity.
Qed.

Lemma tick_attack heading keys rnd prev :
  let p := player prev in
  let p' := player (tick heading keys rnd prev) in
  Entity.attackCooldown p' = cooled (Entity.attackCooldown p) /\
  Entity.isAttacking p' =
    match Entity.attackCooldown p with
    | Some c => if (0 <? c) && (c - 1 <? ATTACK_COOLDOWN - 5) then Some false
                else Entity.isAttacking p
    | None => Entity.isAttacking p
    end.
Proof.
  cbv zeta. rewrite tick_player.
  pose proof (movedPlayer_attack keys prev) as [Hc Hf]. cbv zeta in Hc, Hf.
  destruct (_ && _); [unfold damaged;
    cbn [Entity.attackCooldown Entity.isAttacking Entity.with_damageCooldown
         Entity.with_health]|]; split; assumption.
Qed.

Lemma cooling_down heading frames : forall s c,
  Entity.attackCooldown (player s) = Some c -> 0 <= c <= ATTACK_COOLDOWN ->
  Entity.isAttacking (player s) = Some (ATTACK_COOLDOWN - 5 <=? c) ->
  status (ticks heading frames s) = PLAYING ->
  Entity.attackCooldown (player (ticks heading frames s))
    = Some (Z.max 0 (c - Z.of_nat (length frames))) /\
  Entity.isAttacking (player (ticks heading frames s))
    = Some (ATTACK_COOLDOWN - 5 <=? c - Z.of_nat (length frames)).
Proof.
  induction frames as [|f frames IH]; intros s c Hc Hrange Hf Hst.
  - cbn [ticks fold_left length]. rewrite Z.sub_0_r, Z.max_r by lia. auto.
  - destruct (ticks_playing heading f frames s Hst) as [Hs Hu].
    change (ticks heading (f :: frames) s)
      with (ticks heading frames (update heading (fst f) (snd f) s)) in *.
    rewrite update_playing in * by exact Hs.
    destruct (tick_attack heading (fst f) (snd f) s) as [Hc' Hf']. cbv zeta in Hc', Hf'.
    rewrite Hc in Hc', Hf'. unfold cooled in Hc'. rewrite Hf in Hf'.
    unfold ATTACK_COOLDOWN in *. cbn [length].
    destruct (Z.ltb_spec 0 c) as [Hpos|Hzero]; cbn [andb] in Hf'.
    + destruct (IH _ (c - 1) Hc' ltac:(lia)) as [H1 H2]; [|exact Hst|].
      * destruct (Z.ltb_spec (c - 1) (20 - 5)); rewrite Hf'; f_equal;
          repeat match goal with
                 | |- context [?a <=? ?b] => destruct (Z.leb_spec a b)
                 end; try reflexivity; lia.
      * rewrite H1, H2. split; f_equal; [lia | f_equal; lia].
    + assert (c = 0) by lia. subst c.
      destruct (IH _ 0 Hc' ltac:(lia) Hf' Hst) as [H1 H2].
      rewrite H1, H2. split; f_equal; [lia|].
      destruct (Z.leb_spec (20 - 5) (0 - Z.of_nat (length frames)));
        destruct (Z.leb_spec (20 - 5) (0 - Z.of_nat (S (length frames)))); try reflexivity; lia.
Qed.

Lemma handleAttack_performed rnd s :
  status s = PLAYING -> default 0 (Entity.attackCooldown (player s)) <= 0 ->
  exists extra,
    handleAttack rnd s =
      with_particles (particles s ++ extra)
        (with_enemies
           (List.filter alive
              (map (struck (inSwordRange (player s)) SWORD_DAMAGE) (enemies s)))
           (with_player (attacker (player s)) s)) /\
    Forall isHitParticle extra /\
    length extra = (5 * length (List.filter (inSwordRange (player s)) (enemies s)))%nat.
Proof.
  intros Hst Hc. unfold handleAttack.
  rewrite bool_decide_eq_true_2 by exact Hst. cbn [negb orb].
  replace (0 <? _) with false by (symmetry; apply Z.ltb_ge; exact Hc).
  match goal with
  | |- context [strike rnd ?r ?d ?es ?ps ?n ?h] =>
      destruct (strike_spec rnd r d es ps n h) as (extra & n' & -> & Hhit & Hlen)
  end.
  exists extra. repeat split; assumption.
Qed.

Lemma handleAttack_blocked rnd s :
  0 < default 0 (Entity.attackCooldown (player s)) -> handleAttack rnd s = s.
Proof.
  intros Hc. unfold handleAttack.
  replace (0 <? _) with true by (symmetry; apply Z.ltb_lt; exact Hc).
  rewrite orb_true_r. reflexivity.
Qed.

(** X5.  A melee attack is performed only while PLAYING with the attack
    cooldown at zero (or unset); it sets the cooldown to 20 and raises the
    attacking flag.  As long as the session stays PLAYING, after k ticks
    the cooldown is max(0, 20 - k) and the flag is up exactly for k < 6;
    an attack tried after fewer than 20 ticks changes nothing, and one
    tried after 20 ticks or more is performed again. *)
Theorem melee_attack_cooldown (heading : Q -> Q -> Q * Q) (rnd : Rand) (s : GameState) :
  status s = PLAYING ->
  default 0 (Entity.attackCooldown (player s)) <= 0 ->
  let s1 := handleAttack rnd s in
  Entity.attackCooldown (player s1) = Some ATTACK_COOLDOWN /\
  Entity.isAttacking (player s1) = Some true /\
  forall frames,
    let k := Z.of_nat (length frames) in
    let sk := ticks heading frames s1 in
    status sk = PLAYING ->
    Entity.attackCooldown (player sk) = Some (Z.max 0 (ATTACK_COOLDOWN - k)) /\
    Entity.isAttacking (player sk) = Some (k <? 6) /\
    (forall rnd', k < ATTACK_COOLDOWN -> handleAttack rnd' sk = sk) /\
    (forall rnd', ATTACK_COOLDOWN <= k ->
       Entity.attackCooldown (player (handleAttack rnd' sk)) = Some ATTACK_COOLDOWN /\
       Entity.isAttacking (player (handleAttack rnd' sk)) = Some true).
Proof.
  intros Hst Hc s1. subst s1.
  destruct (handleAttack_performed rnd s Hst Hc) as (extra & -> & _).
  cbn [player with_particles with_enemies with_player attacker
       Entity.attackCooldown Entity.isAttacking Entity.with_attackCooldown
       Entity.with_isAttacking].
  split; [reflexivity|]. split; [reflexivity|].
  intros frames. cbv zeta. intros Hsk.
  match type of Hsk with
  | status (ticks _ _ ?s1) = _ =>
      destruct (cooling_down heading frames s1 ATTACK_COOLDOWN eq_refl
                  ltac:(unfold ATTACK_COOLDOWN; lia) eq_refl Hsk) as [H1 H2]
  end.
  set (sk := ticks heading frames _) in *. set (k := Z.of_nat (length frames)) in *.
  unfold ATTACK_COOLDOWN in *.
  split; [exact H1|]. split.
  { rewrite H2. f_equal.
    apply eq_true_iff_eq. rewrite Z.leb_le, Z.ltb_lt. lia. }
  split.
  - intros rnd' Hk. apply handleAttack_blocked. rewrite H1.
    change (0 < Z.max 0 (20 - k)). lia.
  - intros rnd' Hk.
    destruct (handleAttack_performed rnd' sk Hsk) as (extra' & -> & _).
    + rewrite H1. change (Z.max 0 (20 - k) <= 0). lia.
    + split; reflexivity.
Qed.

(** X5 on the idle player of the sample snapshot: ten quiet ticks on. *)
Lemma melee_attack_cooldown_witness :
  let s1 := handleAttack sampleRnd twoWeakHostiles in
  let sk := ticks axisHeading (idleFrames 10) s1 in
  (status twoWeakHostiles = PLAYING /\
   default 0 (Entity.attackCooldown (player twoWeakHostiles)) <= 0 /\
   status sk = PLAYING) /\
  Entity.attackCooldown (player sk) = Some 10 /\
  handleAttack sampleRnd sk = sk.
Proof.
  intros s1 sk.
  assert (Hst : status twoWeakHostiles = PLAYING) by reflexivity.
  assert (Hc : default 0 (Entity.attackCooldown (player twoWeakHostiles)) <= 0)
    by (vm_compute; discriminate).
  assert (Hsk : status sk = PLAYING) by (vm_compute; reflexivity).
  destruct (melee_attack_cooldown axisHeading sampleRnd twoWeakHostiles Hst Hc)
    as (_ & _ & Hticks).
  destruct (Hticks (idleFrames 10) Hsk) as (Hcd & _ & Hblocked & _).
  split; [auto|]. split; [exact Hcd|].
  apply Hblocked. vm_compute. reflexivity.
Defined.

Lemma unstruck_all inRange dmg es :
  Forall hostileAlive es -> List.filter inRange es = [] ->
  List.filter alive (map (struck inRange dmg) es) = es.
Proof.
  induction 1 as [|e es He Hes IH]; intros Hnone; [reflexivity|].
  cbn [map List.filter] in *.
  destruct (inRange e) eqn:Hr; [discriminate|].
  assert (Hs : struck inRange dmg e = e) by (unfold struck; rewrite Hr; reflexivity).
  rewrite Hs. unfold alive at 1. unfold hostileAlive in He.
  replace (0 <? Entity.health e) with true by (symmetry; apply Z.ltb_lt; lia).
  rewrite IH by exact Hnone. reflexivity.
Qed.

Lemma struck_survivor inRange dmg es e :
  In e es ->
  (inRange e = false -> 0 < Entity.health e ->
   In e (List.filter alive (map (struck inRange dmg) es))) /\
  (inRange e = true -> dmg < Entity.health e ->
   In (Entity.with_health (Entity.health e - dmg) e)
      (List.filter alive (map (struck inRange dmg) es))).
Proof.
  intros Hin. split; intros Hr Hh; apply filter_In; split.
  - apply in_map_iff. exists e. unfold struck. rewrite Hr. auto.
  - unfold alive. apply Z.ltb_lt. exact Hh.
  - apply in_map_iff. exists e. unfold struck. rewrite Hr. auto.
  - unfold alive. cbn [Entity.health Entity.with_health]. apply Z.ltb_lt. lia.
Qed.

Lemma struck_origin inRange dmg es e' :
  In e' (List.filter alive (map (struck inRange dmg) es)) ->
  exists e, In e es /\ e' = struck inRange dmg e /\ 0 < Entity.health e'.
Proof.
  intros H. apply filter_In in H as [Hin Hal]. apply in_map_iff in Hin as (e & <- & Hin).
  exists e. repeat split; [exact Hin|]. unfold alive in Hal. apply Z.ltb_lt. exact Hal.
Qed.

(** X6.  A performed melee attack (PLAYING, cooldown at zero, every hostile
    alive) takes SWORD_DAMAGE = 34 health from exactly the hostiles less
    than 60 pixels from the player: a hostile out of reach stays in the
    live set as it was, one in reach stays with 34 health less if it had
    more than 34 and is removed otherwise, and nothing else enters the
    live set.  Five hit particles are added per hostile in reach.  The
    attack leaves the grid, the counters, the status, the camera and the
    screen shake alone, and of the player changes only the cooldown and
    the attacking flag; with no hostile in reach the hostiles and the
    particles are unchanged. *)
Theorem sword_strikes_hostiles_in_reach (rnd : Rand) (s : GameState) :
  status s = PLAYING ->
  default 0 (Entity.attackCooldown (player s)) <= 0 ->
  Forall hostileAlive (enemies s) ->
  let s' := handleAttack rnd s in
  let reach := inSwordRange (player s) in
  (forall e, In e (enemies s) -> reach e = false -> In e (enemies s')) /\
  (forall e, In e (enemies s) -> reach e = true -> SWORD_DAMAGE < Entity.health e ->
     In (Entity.with_health (Entity.health e - SWORD_DAMAGE) e) (enemies s')) /\
  (forall e', In e' (enemies s') ->
     exists e, In e (enemies s) /\ 0 < Entity.health e' /\
       e' = if reach e then Entity.with_health (Entity.health e - SWORD_DAMAGE) e else e) /\
  (length (enemies s') =
     length (enemies s)
     - length (List.filter (fun e => (Entity.health e <=? SWORD_DAMAGE)%Z)
                           (List.filter reach (enemies s))))%nat /\
  (exists extra,
     particles s' = particles s ++ extra /\ Forall isHitParticle extra /\
     length extra = (5 * length (List.filter reach (enemies s)))%nat) /\
  (List.filter reach (enemies s) = [] ->
     enemies s' = enemies s /\ particles s' = particles s) /\
  player s' = attacker (player s) /\
  grid s' = grid s /\ status s' = status s /\ camera s' = camera s /\
  screenShake s' = screenShake s /\ selectedTile s' = selectedTile s /\
  shardsCollected s' = shardsCollected s /\ goldCollected s' = goldCollected s /\
  diamondsCollected s' = diamondsCollected s.
Proof.
  intros Hst Hc Hes s' reach. subst s'.
  destruct (handleAttack_performed rnd s Hst Hc) as (extra & -> & Hhit & Hlen).
  fold reach in Hlen |- *.
  cbn [enemies particles player grid status camera screenShake selectedTile shardsCollected
       goldCollected diamondsCollected with_particles with_enemies with_player].
  repeat apply conj; try reflexivity.
  - intros e Hin Hr. apply (struck_survivor reach SWORD_DAMAGE (enemies s) e Hin); [exact Hr|].
    rewrite Forall_forall in Hes. apply Hes, list_elem_of_In, Hin.
  - intros e Hin Hr Hh.
    apply (struck_survivor reach SWORD_DAMAGE (enemies s) e Hin); assumption.
  - intros e' Hin. apply struck_origin in Hin as (e & Hin & -> & Hpos).
    exists e. repeat split; assumption.
  - pose proof (alive_struck_length reach (enemies s) Hes) as H.
    unfold CLICK_DAMAGE in H. unfold SWORD_DAMAGE. lia.
  - exists extra. repeat split; assumption.
  - intros Hnone. split; [apply unstruck_all; assumption|].
    rewrite Hnone in Hlen. destruct extra; [apply app_nil_r | discriminate Hlen].
Qed.

(** X6 on the two weakened hostiles beside the player. *)
Lemma sword_strikes_hostiles_in_reach_witness :
  let s := twoWeakHostiles in
  (status s = PLAYING /\ default 0 (Entity.attackCooldown (player s)) <= 0 /\
   Forall hostileAlive (enemies s)) /\
  player (handleAttack sampleRnd s) = attacker (player s) /\
  grid (handleAttack sampleRnd s) = grid s.
Proof.
  intros s.
  assert (Hst : status s = PLAYING) by reflexivity.
  assert (Hc : default 0 (Entity.attackCooldown (player s)) <= 0)
    by (vm_compute; discriminate).
  pose proof twoWeakHostiles_alive as Hes.
  destruct (sword_strikes_hostiles_in_reach sampleRnd s Hst Hc Hes)
    as (_ & _ & _ & _ & _ & _ & Hp & Hg & _).
  split; [auto|]. split; [exact Hp | exact Hg].
Defined.

(** ** Mining presses *)

Lemma mineTile_missing rnd n tx ty s :
  tileAt (grid s) tx ty = None -> mineTile rnd n tx ty s = s.
Proof. intros Ht. unfold mineTile. rewrite Ht. reflexivity. Qed.

Lemma presses_tile rnds : forall tx ty s tile,
  tileAt (grid s) tx ty = Some tile ->
  Tile.type tile <> AIR -> 0 < Tile.durability tile ->
  tileAt (grid (presses rnds tx ty s)) tx ty =
    Some (if 8 * Z.of_nat (length rnds) <? Tile.durability tile
          then Tile.mk (Tile.type tile)
                       (Tile.durability tile - 8 * Z.of_nat (length rnds))
                       (Tile.maxDurability tile)
          else Tile.mk AIR (Tile.durability tile - 8 * ((Tile.durability tile + 7) / 8))
                       (Tile.maxDurability tile)).
Proof.
  induction rnds as [|rnd rnds IH]; intros tx ty s tile Ht Hty Hd.
  - cbn [presses fold_left length]. rewrite Ht.
    replace (8 * Z.of_nat 0 <? _) with true by (symmetry; apply Z.ltb_lt; lia).
    destruct tile; cbn [Tile.type Tile.durability Tile.maxDurability]. do 2 f_equal. lia.
  - change (presses (rnd :: rnds) tx ty s)
      with (presses rnds tx ty (mineTile rnd 0 tx ty s)).
    pose proof (mineTile_tile rnd 0 tx ty s tile Ht) as Ht1.
    unfold pressed in Ht1. rewrite (proj2 (isAIR_false tile) Hty) in Ht1.
    cbn [length]. destruct (Z.leb_spec (Tile.durability tile - 8) 0) as [Hbreak|Hleft].
    + (* the tile breaks on this press and stays as it is *)
      assert (Hstay : forall rs s1,
                 tileAt (grid s1) tx ty
                   = Some (Tile.mk AIR (Tile.durability tile - 8) (Tile.maxDurability tile)) ->
                 tileAt (grid (presses rs tx ty s1)) tx ty
                   = Some (Tile.mk AIR (Tile.durability tile - 8) (Tile.maxDurability tile))).
      { induction rs as [|r rs IHrs]; intros s1 H1; [exact H1|].
        change (presses (r :: rs) tx ty s1) with (presses rs tx ty (mineTile r 0 tx ty s1)).
        apply IHrs. rewrite (mineTile_air r 0 tx ty s1 _ H1 eq_refl). exact H1. }
      rewrite (Hstay rnds _ Ht1).
      replace (8 * Z.of_nat (S (length rnds)) <? _) with false
        by (symmetry; apply Z.ltb_ge; lia).
      do 2 f_equal. assert ((Tile.durability tile + 7) / 8 = 1); [|lia].
      symmetry. apply Z.div_unique with (r := Tile.durability tile - 1); lia.
    + rewrite (IH tx ty _ _ Ht1) by (cbn [Tile.type Tile.durability]; first [exact Hty | lia]).
      cbn [Tile.type Tile.durability Tile.maxDurability].
      destruct (Z.ltb_spec (8 * Z.of_nat (length rnds)) (Tile.durability tile - 8));
        destruct (Z.ltb_spec (8 * Z.of_nat (S (length rnds))) (Tile.durability tile));
        try lia; do 2 f_equal; try lia.
      replace (Tile.durability tile - 8 + 7) with (Tile.durability tile + 7 + (-1) * 8) by lia.
      rewrite Z.div_add by lia. lia.
Qed.

(** X7.  One mining press on a non-AIR tile lowers its durability by
    exactly 8 and keeps the maxDurability; the type is kept while the
    durability stays positive and becomes AIR otherwise.  So a tile with
    durability d > 0 is still standing, with durability d - 8k, after k
    presses when 8k < d, and is AIR from press number (d + 7) / 8 on:
    one press for DIRT and GRASS, two for GOLD, SHARD and STONE, three for
    DIAMOND. *)
Theorem presses_to_break (rnds : list Rand) (tx ty : Z) (s : GameState) (tile : Tile) :
  tileAt (grid s) tx ty = Some tile ->
  Tile.type tile <> AIR ->
  0 < Tile.durability tile ->
  let k := Z.of_nat (length rnds) in
  let d := Tile.durability tile in
  exists tile',
    tileAt (grid (presses rnds tx ty s)) tx ty = Some tile' /\
    Tile.maxDurability tile' = Tile.maxDurability tile /\
    (8 * k < d ->
       Tile.type tile' = Tile.type tile /\ Tile.durability tile' = d - 8 * k) /\
    (d <= 8 * k -> Tile.type tile' = AIR) /\
    (Tile.type tile' = AIR <-> (d + 7) / 8 <= k) /\
    ((TILE_DURABILITY DIRT + 7) / 8 = 1 /\ (TILE_DURABILITY GRASS + 7) / 8 = 1 /\
     (TILE_DURABILITY GOLD + 7) / 8 = 2 /\ (TILE_DURABILITY SHARD + 7) / 8 = 2 /\
     (TILE_DURABILITY STONE + 7) / 8 = 2 /\ (TILE_DURABILITY DIAMOND + 7) / 8 = 3).
Proof.
  intros Ht Hty Hd k d. eexists. split; [apply (presses_tile rnds tx ty s tile Ht Hty Hd)|].
  fold k d.
  assert (Hdiv : (d + 7) / 8 <= k <-> d <= 8 * k).
  { pose proof (Z.div_mod (d + 7) 8 ltac:(lia)).
    pose proof (Z.mod_pos_bound (d + 7) 8 ltac:(lia)). lia. }
  destruct (Z.ltb_spec (8 * k) d); cbn [Tile.type Tile.durability Tile.maxDurability];
    repeat apply conj; try reflexivity; intros; try lia; try tauto.
Qed.

(** X7 on the cracked shard tile below the player: two presses. *)
Lemma presses_to_break_witness :
  let tile := Tile.mk SHARD 4 12 in
  (tileAt (grid ninthShard) 20 5 = Some tile /\ Tile.type tile <> AIR /\
   0 < Tile.durability tile) /\
  exists tile',
    tileAt (grid (presses [sampleRnd; sampleRnd] 20 5 ninthShard)) 20 5 = Some tile' /\
    Tile.maxDurability tile' = 12.
Proof.
  intros tile.
  assert (Ht : tileAt (grid ninthShard) 20 5 = Some tile) by (vm_compute; reflexivity).
  assert (Hty : Tile.type tile <> AIR) by discriminate.
  assert (Hd : 0 < Tile.durability tile) by reflexivity.
  split; [auto|].
  destruct (presses_to_break [sampleRnd; sampleRnd] 20 5 ninthShard tile Ht Hty Hd)
    as (tile' & Ht' & Hmax & _).
  exists tile'. split; [exact Ht' | exact Hmax].
Defined.

(** ** What a pointer press does to the grid *)

Lemma wornFrom_refl t : wornFrom t t.
Proof. unfold wornFrom. repeat split; auto; lia. Qed.

Lemma wornFrom_trans t1 t2 t3 : wornFrom t1 t2 -> wornFrom t2 t3 -> wornFrom t1 t3.
Proof.
  intros (Hm1 & Hd1 & Ht1 & Ha1) (Hm2 & Hd2 & Ht2 & Ha2). unfold wornFrom.
  repeat split; try congruence; try lia.
  - destruct Ht1 as [Ht1 | Ht1]; [destruct Ht2; [left | right]; congruence|].
    right. rewrite (Ha2 Ht1). exact Ht1.
  - intros Ha. pose proof (Ha1 Ha) as E1. subst t2. apply Ha2. exact Ha.
Qed.

Lemma pressed_worn t : wornFrom t (pressed t).
Proof.
  unfold pressed, wornFrom. destruct (isAIR t) eqn:Ha.
  - repeat split; auto; lia.
  - apply isAIR_false in Ha. cbn [Tile.type Tile.durability Tile.maxDurability].
    repeat split; try lia; [|contradiction].
    destruct (_ <=? 0); auto.
Qed.

Lemma click_grid eager rnd cx cy s :
  status s = PLAYING -> wf_grid (grid s) ->
  let s' := handleCanvasClick eager rnd cx cy s in
  let tx := pointedX cx s in
  let ty := pointedY cy s in
  (pressMines eager cx cy s = false -> grid s' = grid s) /\
  (pressMines eager cx cy s = true ->
   0 <= tx < GRID_WIDTH /\ 0 <= ty < GRID_HEIGHT /\
   exists tile, tileAt (grid s) tx ty = Some tile /\
                grid s' = setTile (grid s) tx ty (pressed tile)).
Proof.
  intros Hst Hwf s' tx ty. subst s'.
  destruct (handleCanvasClick_exact eager rnd cx cy s Hst) as [n ->].
  destruct (afterHostilePass_world rnd cx cy s) as (Hg & _).
  destruct (pressMines eager cx cy s) eqn:Hm; split; try discriminate; intros _; [|exact Hg].
  unfold pressMines in Hm. rewrite !andb_true_iff, !negb_true_iff in Hm.
  destruct Hm as [[_ Hin] _]. apply outOfGrid_false in Hin as [Hx Hy].
  fold tx ty in Hx, Hy |- *. split; [exact Hx|]. split; [exact Hy|].
  destruct (wf_grid_lookup (grid s) tx ty Hwf Hx Hy) as [tile Ht].
  exists tile. split; [exact Ht|].
  rewrite <- Hg in Ht. rewrite (mineTile_grid rnd n tx ty _ tile Ht), Hg. reflexivity.
Qed.

(** X8.  A pointer press while PLAYING, on a 60 by 40 grid, goes on to
    mine exactly when the pointed tile is inside the grid and less than
    140 pixels (centre to centre) from the player and the handler has not
    seen a hostile hit; it sees one only when the hostile pass was applied
    before its test and a hostile is under the pointer, so with the
    updater queued a hostile under the pointer does not stop the mining.
    A press that does not mine leaves the grid, the three counters, the
    screen shake and the status as they were.  When it mines, the pointed
    tile becomes what one press makes of it, and every other tile, and the
    size of the grid, is unchanged. *)
Theorem press_touches_one_tile_in_reach (eager : bool) (rnd : Rand) (cx cy : Q)
    (s : GameState) :
  status s = PLAYING ->
  wf_grid (grid s) ->
  let s' := handleCanvasClick eager rnd cx cy s in
  let tx := pointedX cx s in
  let ty := pointedY cy s in
  wf_grid (grid s') /\
  (forall x y, 0 <= x -> 0 <= y -> (x, y) <> (tx, ty) ->
     tileAt (grid s') x y = tileAt (grid s) x y) /\
  (pressMines eager cx cy s = true <->
   (0 <= tx < GRID_WIDTH /\ 0 <= ty < GRID_HEIGHT) /\ withinReach tx ty s = true /\
   (eager = false \/ underPointer cx cy s = [])) /\
  (pressMines eager cx cy s = false ->
     grid s' = grid s /\ screenShake s' = screenShake s /\
     shardsCollected s' = shardsCollected s /\ goldCollected s' = goldCollected s /\
     diamondsCollected s' = diamondsCollected s /\ status s' = status s) /\
  (pressMines eager cx cy s = true ->
     exists tile, tileAt (grid s) tx ty = Some tile /\
                  tileAt (grid s') tx ty = Some (pressed tile)).
Proof.
  intros Hst Hwf s' tx ty.
  destruct (click_grid eager rnd cx cy s Hst Hwf) as [Hno Hyes]. fold s' tx ty in Hno, Hyes.
  assert (Hiff : pressMines eager cx cy s = true <->
            (0 <= tx < GRID_WIDTH /\ 0 <= ty < GRID_HEIGHT) /\ withinReach tx ty s = true /\
            (eager = false \/ underPointer cx cy s = [])).
  { unfold pressMines, underPointer. fold tx ty.
    rewrite !andb_true_iff, !negb_true_iff, outOfGrid_false, andb_false_iff.
    assert (Hex : existsb (inClickRange (mouseX cx s) (mouseY cy s)) (enemies s) = false <->
                  List.filter (inClickRange (mouseX cx s) (mouseY cy s)) (enemies s) = []).
    { induction (enemies s) as [|e es IH]; cbn [existsb List.filter]; [tauto|].
      destruct (inClickRange _ _ e); cbn [orb]; [split; discriminate | exact IH]. }
    rewrite Hex. tauto. }
  destruct (pressMines eager cx cy s) eqn:Hm.
  - destruct (Hyes eq_refl) as (Hx & Hy & tile & Ht & Hg). rewrite Hg.
    split; [|split; [|split; [|split; [discriminate|]]]].
    + apply setTile_wf, Hwf.
    + intros x y Hx0 Hy0 Hne. rewrite tileAt_setTile by assumption.
      destruct (Z.eqb_spec tx x), (Z.eqb_spec ty y); cbn [andb]; try reflexivity.
      exfalso. apply Hne. congruence.
    + exact Hiff.
    + intros _. exists tile. split; [exact Ht|]. eapply tileAt_setTile_eq, Ht.
  - pose proof (Hno eq_refl) as Hg.
    split; [|split; [|split; [|split; [|discriminate]]]].
    + rewrite Hg. exact Hwf.
    + intros x y _ _ _. rewrite Hg. reflexivity.
    + exact Hiff.
    + intros _. subst s'.
      destruct (handleCanvasClick_exact eager rnd cx cy s Hst) as [n ->]. rewrite Hm.
      destruct (afterHostilePass_world rnd cx cy s) as (H1 & H2 & H3 & H4 & H5 & H6 & _).
      repeat split; assumption.
Qed.

(** ** Terrain over a session *)

Lemma step_grid heading s ev :
  wf_grid (grid s) ->
  wf_grid (grid (step heading s ev)) /\
  forall x y t, 0 <= x -> 0 <= y -> tileAt (grid s) x y = Some t ->
    exists t', tileAt (grid (step heading s ev)) x y = Some t' /\ wornFrom t t'.
Proof.
  intros Hwf.
  assert (Hsame : grid (step heading s ev) = grid s ->
          wf_grid (grid (step heading s ev)) /\
          forall x y t, 0 <= x -> 0 <= y -> tileAt (grid s) x y = Some t ->
            exists t', tileAt (grid (step heading s ev)) x y = Some t' /\ wornFrom t t').
  { intros ->. split; [exact Hwf|]. intros x y t _ _ Ht. exists t.
    split; [exact Ht | apply wornFrom_refl]. }
  destruct ev as [keys rnd | rnd | eager rnd cx cy | cx cy]; cbn [step] in *.
  - apply Hsame. unfold update. destruct (negb _); [reflexivity|].
    apply (tick_world heading keys rnd s).
  - apply Hsame. unfold handleAttack. destruct (_ || _); [reflexivity|].
    destruct (strike _ _ _ _ _ _ _) as [[[es ps] n] hit]. reflexivity.
  - destruct (decide (status s = PLAYING)) as [Hst|Hst];
      [|apply Hsame; rewrite handleCanvasClick_idle by exact Hst; reflexivity].
    destruct (click_grid eager rnd cx cy s Hst Hwf) as [Hno Hyes].
    destruct (pressMines eager cx cy s); [|apply Hsame, Hno; reflexivity].
    destruct (Hyes eq_refl) as (Hx & Hy & tile & Ht & ->).
    split; [apply setTile_wf, Hwf|]. intros x y t Hx0 Hy0 Hxy.
    rewrite tileAt_setTile by assumption.
    destruct (Z.eqb_spec (pointedX cx s) x) as [<-|], (Z.eqb_spec (pointedY cy s) y) as [<-|];
      cbn [andb]; try (exists t; split; [exact Hxy | apply wornFrom_refl]).
    exists (pressed tile). split; [reflexivity|].
    assert (t = tile) by congruence. subst t. apply pressed_worn.
  - apply Hsame. unfold handleMouseMove. destruct (negb _); [reflexivity|].
    destruct (_ || _ || _ || _); reflexivity.
Qed.

Lemma run_grid heading evs : forall s,
  wf_grid (grid s) ->
  wf_grid (grid (run heading evs s)) /\
  forall x y t, 0 <= x -> 0 <= y -> tileAt (grid s) x y = Some t ->
    exists t', tileAt (grid (run heading evs s)) x y = Some t' /\ wornFrom t t'.
Proof.
  induction evs as [|ev evs IH]; intros s Hwf.
  - split; [exact Hwf|]. intros x y t _ _ Ht. exists t.
    split; [exact Ht | apply wornFrom_refl].
  - change (run heading (ev :: evs) s) with (run heading evs (step heading s ev)).
    destruct (step_grid heading s ev Hwf) as [Hwf1 H1].
    destruct (IH _ Hwf1) as [Hwf2 H2]. split; [exact Hwf2|].
    intros x y t Hx Hy Ht. destruct (H1 x y t Hx Hy Ht) as (t1 & Ht1 & Hw1).
    destruct (H2 x y t1 Hx Hy Ht1) as (t2 & Ht2 & Hw2).
    exists t2. split; [exact Ht2 | eapply wornFrom_trans; eassumption].
Qed.

Lemma besideHostile_wf : wf_grid (grid besideHostile).
Proof.
  destruct (startGame_rows 1000 sampleRnd sampleWorld sampleRnd_unit sampleWorld_started)
    as [Hwf _].
  apply (run_grid axisHeading approach sampleWorld Hwf).
Qed.

(** X8 in the session on the sample world that ends beside a hostile (see
    [approach]): the press at canvas position (423, 406) has the hostile
    under the pointer and its updater queued, and mines the stone tile at
    column 28, row 18 (15 to 7); the tile to its right is as it was. *)
Lemma press_touches_one_tile_in_reach_witness :
  let s := besideHostile in
  (status s = PLAYING /\ wf_grid (grid s)) /\
  existsb (inClickRange (mouseX 423 s) (mouseY 406 s)) (enemies s) = true /\
  pressMines false 423 406 s = true /\
  tileAt (grid (handleCanvasClick false sampleRnd 423 406 s)) 28 18
  = Some (Tile.mk STONE 7 15) /\
  tileAt (grid (handleCanvasClick false sampleRnd 423 406 s)) 29 18 = tileAt (grid s) 29 18.
Proof.
  intros s. pose proof besideHostile_press as Hr. cbv zeta in Hr. fold s in Hr.
  destruct Hr as (Hst & Hpx & Hpy & Hreach & Hhit & Ht & _).
  pose proof besideHostile_wf as Hwf. fold s in Hwf.
  destruct (press_touches_one_tile_in_reach false sampleRnd 423 406 s Hst Hwf)
    as (_ & Hother & Hiff & _ & Hyes).
  assert (Hm : pressMines false 423 406 s = true).
  { apply Hiff. rewrite Hpx, Hpy. rewrite Hpx, Hpy in Hreach.
    split; [unfold GRID_WIDTH, GRID_HEIGHT; lia|]. split; [exact Hreach | left; reflexivity]. }
  destruct (Hyes Hm) as (tile & Htile & Hpressed).
  assert (tile = Tile.mk STONE 15 15) by congruence. subst tile.
  rewrite Hpx, Hpy in Hother, Hpressed.
  split; [split; [exact Hst | exact Hwf]|]. split; [exact Hhit|]. split; [exact Hm|].
  split; [exact Hpressed|].
  apply Hother; [lia | lia | intros [= H]; lia].
Defined.

(** X9.  Terrain is only ever removed.  Over any sequence of events on a
    60 by 40 grid the grid keeps its size, and every tile keeps its
    maxDurability, never gains durability, and either keeps its type or
    has become AIR; a tile that is AIR stays exactly as it is.  Simulation
    ticks, melee attacks and pointer moves do not touch the grid at all. *)
Theorem terrain_only_wears (heading : Q -> Q -> Q * Q) (evs : list Event) (s : GameState) :
  wf_grid (grid s) ->
  wf_grid (grid (run heading evs s)) /\
  (forall x y t, 0 <= x -> 0 <= y -> tileAt (grid s) x y = Some t ->
     exists t', tileAt (grid (run heading evs s)) x y = Some t' /\
       Tile.maxDurability t' = Tile.maxDurability t /\
       Tile.durability t' <= Tile.durability t /\
       (Tile.type t' = Tile.type t \/ Tile.type t' = AIR) /\
       (Tile.type t = AIR -> t' = t)) /\
  (forall keysPressed rnd, grid (update heading keysPressed rnd s) = grid s) /\
  (forall rnd, grid (handleAttack rnd s) = grid s) /\
  (forall cx cy, grid (handleMouseMove cx cy s) = grid s).
Proof.
  intros Hwf. destruct (run_grid heading evs s Hwf) as [Hwf' Hw].
  split; [|split; [|split; [|split]]].
  - exact Hwf'.
  - intros x y t Hx Hy Ht. destruct (Hw x y t Hx Hy Ht) as (t' & Ht' & Hworn).
    exists t'. split; [exact Ht' | exact Hworn].
  - intros keys rnd. unfold update. destruct (negb _); [reflexivity|].
    apply (tick_world heading keys rnd s).
  - intros rnd. unfold handleAttack. destruct (_ || _); [reflexivity|].
    destruct (strike _ _ _ _ _ _ _) as [[[es ps] n] hit]. reflexivity.
  - intros cx cy. unfold handleMouseMove. destruct (negb _); [reflexivity|].
    destruct (_ || _ || _ || _); reflexivity.
Qed.

(** X9 on the snapshot with the cracked shard tile, after the press that
    breaks it. *)
Lemma terrain_only_wears_witness :
  wf_grid (grid ninthShard) /\
  wf_grid (grid (run axisHeading [CanvasClick false sampleRnd 820 220] ninthShard)).
Proof.
  assert (Hwf : wf_grid (grid ninthShard)).
  { unfold ninthShard. cbn [grid with_shardsCollected with_grid].
    apply setTile_wf, layeredGrid_wf. }
  split; [exact Hwf|].
  apply (terrain_only_wears axisHeading [CanvasClick false sampleRnd 820 220] ninthShard Hwf).
Defined.

(** ** Counting tiles *)

Lemma tally_nonneg {A} (f : A -> Z) l : (forall a, 0 <= f a) -> 0 <= tally f l.
Proof. intros Hf. induction l as [|a l IH]; cbn [tally]; [lia|]. specialize (Hf a). lia. Qed.

Lemma tally_insert {A} (f : A -> Z) (l : list A) : forall i x old,
  l !! i = Some old -> tally f (<[i:=x]> l) = tally f l - f old + f x.
Proof.
  induction l as [|a l IH]; intros [|i] x old H; try discriminate.
  - injection H as ->. cbn [tally]. change (<[0%nat:=x]> (old :: l)) with (x :: l).
    cbn [tally]. lia.
  - change (<[S i:=x]> (a :: l)) with (a :: <[i:=x]> l). cbn [tally].
    rewrite (IH i x old H). lia.
Qed.

Lemma isOf_range type t : 0 <= isOf type t <= 1.
Proof. unfold isOf. destruct (bool_decide _); lia. Qed.

Lemma countTiles_nonneg type g : 0 <= countTiles type g.
Proof.
  apply tally_nonneg. intros row. apply tally_nonneg. intros t. apply isOf_range.
Qed.

Lemma countTiles_setTile type g x y t old :
  tileAt g x y = Some old ->
  countTiles type (setTile g x y t) = countTiles type g - isOf type old + isOf type t.
Proof.
  unfold tileAt, setTile, countTiles.
  destruct (g !! Z.to_nat y) as [row|] eqn:Hrow; [|discriminate]. intros Ht.
  rewrite (tally_insert _ g _ _ row Hrow), (tally_insert _ row _ _ old Ht). lia.
Qed.

Lemma setTile_missing g x y t : tileAt g x y = None -> setTile g x y t = g.
Proof.
  unfold tileAt, setTile. destruct (g !! Z.to_nat y) as [row|] eqn:Hrow; [|reflexivity].
  intros Ht. rewrite (list_insert_ge row) by (apply lookup_ge_None_1, Ht).
  apply list_insert_id, Hrow.
Qed.

(** ** Ore through generation *)

Lemma carve_no_ore type g x y :
  type <> AIR -> countTiles type g = 0 -> countTiles type (setTile g x y AIR_TILE) = 0.
Proof.
  intros Hne H0. destruct (tileAt g x y) as [old|] eqn:Ht.
  - pose proof (countTiles_nonneg type (setTile g x y AIR_TILE)) as Hge.
    rewrite (countTiles_setTile type g x y AIR_TILE old Ht) in *.
    pose proof (isOf_range type old).
    assert (isOf type AIR_TILE = 0).
    { unfold isOf, AIR_TILE. cbn [Tile.type]. rewrite bool_decide_eq_false_2; congruence. }
    lia.
  - rewrite setTile_missing by exact Ht. exact H0.
Qed.

Lemma fold_left_keeps {A B} (P : A -> Prop) (f : A -> B -> A) (l : list B) :
  (forall a b, P a -> P (f a b)) -> forall a, P a -> P (fold_left f l a).
Proof. intros Hf. induction l as [|b l IH]; intros a Ha; cbn [fold_left]; auto. Qed.

Lemma carveDisc_no_ore type cx cy radius g :
  type <> AIR -> countTiles type g = 0 -> countTiles type (carveDisc cx cy radius g) = 0.
Proof.
  intros Hne. unfold carveDisc.
  apply (fold_left_keeps (fun g => countTiles type g = 0)). intros g1 dy.
  apply (fold_left_keeps (fun g => countTiles type g = 0)). intros g2 dx H.
  unfold carveCell. destruct (_ && _ && _ && _); [|exact H].
  destruct (hypot_le _ _ _); [|exact H]. apply carve_no_ore; assumption.
Qed.

Lemma walk_no_ore type rnd steps : forall n cx cy g,
  type <> AIR -> countTiles type g = 0 -> countTiles type (fst (walk rnd steps n cx cy g)) = 0.
Proof.
  induction steps as [|steps IH]; intros n cx cy g Hne H0; cbn [walk fst]; [exact H0|].
  pose proof (carveDisc_no_ore type cx cy (discRadius (rnd n)) g Hne H0) as H1.
  destruct (_ || _ || _ || _); cbn [fst]; [exact H1|]. apply IH; assumption.
Qed.

Lemma caves_no_ore type rnd count : forall n g,
  type <> AIR -> countTiles type g = 0 -> countTiles type (fst (caves rnd count n g)) = 0.
Proof.
  induction count as [|count IH]; intros n g Hne H0; cbn [caves fst]; [exact H0|].
  match goal with
  | |- context [walk rnd ?st ?m ?cx ?cy g] =>
      pose proof (walk_no_ore type rnd st m cx cy g Hne H0) as Hw;
      destruct (walk rnd st m cx cy g) as [g1 n1]
  end.
  cbn [fst] in Hw. apply IH; assumption.
Qed.

Lemma layeredGrid_no_ore type : isOre type -> countTiles type layeredGrid = 0.
Proof. intros [-> | [-> | ->]]; vm_compute; reflexivity. Qed.

Lemma isOre_neq type : isOre type -> type <> AIR /\ type <> STONE /\ type <> DIRT.
Proof. intros [-> | [-> | ->]]; repeat split; discriminate. Qed.

Lemma placeResource_count fuel rnd type count minY : forall placed n g g' n',
  isOre type -> placed <= count ->
  placeResource fuel rnd type count minY placed n g = Some (g', n') ->
  countTiles type g' = countTiles type g + (count - placed) /\
  forall other, isOre other -> other <> type -> countTiles other g' = countTiles other g.
Proof.
  induction fuel as [|fuel IH]; intros placed n g g' n' Hore Hle;
    cbn [placeResource]; destruct (placed <? count) eqn:Hlt; try discriminate;
    try (intros [= <- <-]; apply Z.ltb_ge in Hlt; split; [lia | reflexivity]).
  apply Z.ltb_lt in Hlt.
  destruct (tileAt g _ _) as [t|] eqn:Ht; [|discriminate].
  destruct (_ || _) eqn:Hsd; intros H.
  - apply IH in H as [H1 H2]; [|exact Hore|lia].
    assert (Hold : forall ty, isOre ty -> isOf ty t = 0).
    { intros ty Hty. apply isOre_neq in Hty as (_ & Hs & Hd). unfold isOf.
      rewrite bool_decide_eq_false_2; [reflexivity|]. intros E. rewrite E in Hsd.
      rewrite !bool_decide_eq_false_2 in Hsd by congruence. discriminate. }
    rewrite (countTiles_setTile type g _ _ _ t Ht) in H1.
    rewrite (Hold type Hore) in H1. unfold isOf in H1 at 1. cbn [Tile.type] in H1.
    rewrite bool_decide_eq_true_2 in H1 by reflexivity.
    split; [lia|]. intros other Ho Hne. rewrite (H2 other Ho Hne).
    rewrite (countTiles_setTile other g _ _ _ t Ht), (Hold other Ho).
    unfold isOf. cbn [Tile.type]. rewrite bool_decide_eq_false_2 by congruence. lia.
  - apply IH in H; [exact H | exact Hore | exact Hle].
Qed.

Lemma startGame_ledger fuel rnd s0 : startGame fuel rnd = Some s0 -> oreLedger s0.
Proof.
  unfold startGame, initGame.
  assert (H0 : forall ty, isOre ty -> countTiles ty (fst (caves rnd 15 0 layeredGrid)) = 0).
  { intros ty Hty. apply caves_no_ore; [apply isOre_neq, Hty | apply layeredGrid_no_ore, Hty]. }
  destruct (caves rnd 15 0 layeredGrid) as [g0 n0]. cbn [fst] in H0.
  destruct (placeResource fuel rnd SHARD 15 12 0 n0 g0) as [[g1 n1]|] eqn:H1; [|discriminate].
  destruct (placeResource fuel rnd GOLD GOLD_COUNT 20 0 n1 g1) as [[g2 n2]|] eqn:H2;
    [|discriminate].
  destruct (placeResource fuel rnd DIAMOND DIAMOND_COUNT 40 0 n2 g2) as [[g3 n3]|] eqn:H3;
    [|discriminate].
  intros [= <-].
  apply placeResource_count in H1 as [S1 O1]; [|unfold isOre; auto|lia].
  apply placeResource_count in H2 as [S2 O2]; [|unfold isOre; auto|unfold GOLD_COUNT; lia].
  apply placeResource_count in H3 as [S3 O3]; [|unfold isOre; auto|unfold DIAMOND_COUNT; lia].
  assert (Hs : isOre SHARD) by (unfold isOre; auto).
  assert (Hg : isOre GOLD) by (unfold isOre; auto).
  assert (Hd : isOre DIAMOND) by (unfold isOre; auto).
  intros ty [-> | [-> | ->]];
    cbn [collected placedCount grid with_status shardsCollected goldCollected
         diamondsCollected]; (split; [lia|]).
  - rewrite (O3 SHARD Hs), (O2 SHARD Hs), S1, (H0 SHARD Hs) by discriminate. lia.
  - rewrite (O3 GOLD Hg), S2, (O1 GOLD Hg), (H0 GOLD Hg) by discriminate. lia.
  - rewrite S3, (O2 DIAMOND Hd), (O1 DIAMOND Hd), (H0 DIAMOND Hd) by discriminate. lia.
Qed.

(** ** Ore through a session *)

Lemma mineTile_collected rnd n tx ty s type :
  isOre type ->
  collected type (mineTile rnd n tx ty s) + countTiles type (grid (mineTile rnd n tx ty s)) =
    collected type s + countTiles type (grid s) /\
  collected type s <= collected type (mineTile rnd n tx ty s).
Proof.
  intros Hore. unfold mineTile. destruct (tileAt (grid s) tx ty) as [tile|] eqn:Ht; [|lia].
  destruct (isAIR tile) eqn:Hair; [lia|]. apply isAIR_false in Hair.
  destruct (Tile.durability tile - 8 <=? 0).
  - assert (Hc : forall s3, grid s3 = grid s ->
              countTiles type (grid (with_grid (setTile (grid s3) tx ty
                 (Tile.mk AIR (Tile.durability tile - 8) (Tile.maxDurability tile))) s3)) =
              countTiles type (grid s) - isOf type tile).
    { intros s3 Hg. cbn [grid with_grid]. rewrite Hg.
      rewrite (countTiles_setTile type (grid s) tx ty _ tile Ht).
      unfold isOf at 2. cbn [Tile.type].
      rewrite bool_decide_eq_false_2; [lia|]. intros <-. apply isOre_neq in Hore. tauto. }
    cbv zeta. unfold isOf in Hc.
    destruct (Tile.type tile) eqn:Hty; try (destruct (SHARD_GOAL <=? _));
      rewrite Hc by reflexivity;
      destruct Hore as [-> | [-> | ->]];
      cbn [collected with_grid with_status with_particles with_screenShake
           with_shardsCollected with_goldCollected with_diamondsCollected
           shardsCollected goldCollected diamondsCollected];
      (rewrite bool_decide_eq_true_2 by reflexivity)
      || (rewrite bool_decide_eq_false_2 by discriminate); lia.
  - cbv zeta. cbn [grid with_grid with_particles].
    rewrite (countTiles_setTile type (grid s) tx ty _ tile Ht).
    unfold isOf. cbn [Tile.type].
    destruct Hore as [-> | [-> | ->]];
      cbn [collected with_grid with_particles shardsCollected goldCollected
           diamondsCollected]; lia.
Qed.

Lemma collected_ext type s s' :
  shardsCollected s' = shardsCollected s -> goldCollected s' = goldCollected s ->
  diamondsCollected s' = diamondsCollected s -> collected type s' = collected type s.
Proof. intros H1 H2 H3. destruct type; cbn [collected]; congruence. Qed.

Lemma step_ledger heading s ev : oreLedger s -> oreLedger (step heading s ev).
Proof.
  intros Hinv.
  assert (Hsame : forall s', grid s' = grid s -> shardsCollected s' = shardsCollected s ->
            goldCollected s' = goldCollected s ->
            diamondsCollected s' = diamondsCollected s -> oreLedger s').
  { intros s' Hg H1 H2 H3 type Hore. rewrite Hg, (collected_ext type s s' H1 H2 H3).
    apply Hinv, Hore. }
  destruct ev as [keys rnd | rnd | eager rnd cx cy | cx cy]; cbn [step].
  - unfold update. destruct (negb _); [exact Hinv|].
    destruct (tick_world heading keys rnd s) as (? & ? & ? & ?). apply Hsame; assumption.
  - unfold handleAttack. destruct (_ || _); [exact Hinv|].
    destruct (strike _ _ _ _ _ _ _) as [[[es ps] n] hit]. apply Hsame; reflexivity.
  - destruct (decide (status s = PLAYING)) as [Hst|Hst];
      [|rewrite handleCanvasClick_idle by exact Hst; exact Hinv].
    destruct (handleCanvasClick_exact eager rnd cx cy s Hst) as [n ->].
    destruct (afterHostilePass_world rnd cx cy s) as (Hg & _ & _ & H1 & H2 & H3 & _).
    pose proof (Hsame _ Hg H1 H2 H3) as Hinv1.
    destruct (pressMines eager cx cy s); [|exact Hinv1].
    intros type Hore. destruct (Hinv1 type Hore) as [Hge Hsum].
    destruct (mineTile_collected rnd n (pointedX cx s) (pointedY cy s)
                (afterHostilePass rnd cx cy s) type Hore) as [Heq Hmono].
    split; lia.
  - unfold handleMouseMove. destruct (negb _); [exact Hinv|].
    destruct (_ || _ || _ || _); apply Hsame; reflexivity.
Qed.

Lemma run_ledger heading evs : forall s, oreLedger s -> oreLedger (run heading evs s).
Proof.
  induction evs as [|ev evs IH]; intros s Hinv; [exact Hinv|].
  change (run heading (ev :: evs) s) with (run heading evs (step heading s ev)).
  apply IH, step_ledger, Hinv.
Qed.

(** X10.  Ore is conserved.  World generation buries exactly 15 shard, 5
    gold and 3 diamond tiles; at every point of a session the number of
    tiles of each ore still on the grid plus the matching counter is that
    number, so the counters stay within 0..15, 0..5 and 0..3. *)
Theorem ore_is_conserved (heading : Q -> Q -> Q * Q) (fuel : nat) (rnd : Rand)
    (s0 : GameState) (evs : list Event) :
  startGame fuel rnd = Some s0 ->
  let s := run heading evs s0 in
  (countTiles SHARD (grid s0) = 15 /\ countTiles GOLD (grid s0) = 5 /\
   countTiles DIAMOND (grid s0) = 3) /\
  (shardsCollected s + countTiles SHARD (grid s) = 15 /\
   goldCollected s + countTiles GOLD (grid s) = 5 /\
   diamondsCollected s + countTiles DIAMOND (grid s) = 3) /\
  (0 <= shardsCollected s <= 15 /\ 0 <= goldCollected s <= 5 /\
   0 <= diamondsCollected s <= 3).
Proof.
  intros Hgen s.
  pose proof (startGame_ledger fuel rnd s0 Hgen) as H0.
  pose proof (run_ledger heading evs s0 H0) as H. fold s in H.
  assert (Hs : isOre SHARD) by (unfold isOre; auto).
  assert (Hg : isOre GOLD) by (unfold isOre; auto).
  assert (Hd : isOre DIAMOND) by (unfold isOre; auto).
  destruct (startGame_shape fuel rnd s0 Hgen) as (_ & _ & Hsh & _).
  pose proof (H0 SHARD Hs) as [_ A1]. pose proof (H0 GOLD Hg) as [A2' A2].
  pose proof (H0 DIAMOND Hd) as [A3' A3].
  pose proof (H SHARD Hs) as [B1' B1]. pose proof (H GOLD Hg) as [B2' B2].
  pose proof (H DIAMOND Hd) as [B3' B3].
  cbn [collected placedCount] in *. unfold GOLD_COUNT, DIAMOND_COUNT in *.
  pose proof (countTiles_nonneg SHARD (grid s)). pose proof (countTiles_nonneg GOLD (grid s)).
  pose proof (countTiles_nonneg DIAMOND (grid s)).
  assert (goldCollected s0 = 0 /\ diamondsCollected s0 = 0) as [G0 D0].
  { revert Hgen. unfold startGame, initGame.
    destruct (caves rnd 15 0 layeredGrid) as [g0 n0].
    destruct (placeResource fuel rnd SHARD 15 12 0 n0 g0) as [[g1 n1]|]; [|discriminate].
    destruct (placeResource fuel rnd GOLD GOLD_COUNT 20 0 n1 g1) as [[g2 n2]|];
      [|discriminate].
    destruct (placeResource fuel rnd DIAMOND DIAMOND_COUNT 40 0 n2 g2) as [[g3 n3]|];
      [|discriminate].
    intros [= <-]. split; reflexivity. }
  split; [|split]; lia.
Qed.

(** X10 on the sample world, after a press on the grass below the player. *)
Lemma ore_is_conserved_witness :
  exists s0,
    startGame 1000 sampleRnd = Some s0 /\
    shardsCollected (run axisHeading [CanvasClick false sampleRnd 790 220] s0)
    + countTiles SHARD (grid (run axisHeading [CanvasClick false sampleRnd 790 220] s0)) = 15.
Proof.
  destruct (startGame 1000 sampleRnd) as [s0|] eqn:E.
  - exists s0. split; [reflexivity|].
    apply (ore_is_conserved axisHeading 1000 sampleRnd s0
             [CanvasClick false sampleRnd 790 220] E).
  - exfalso. exact (sampleWorld_generated E).
Defined.

(** ** Where the ore lies *)

Lemma tileAt_inside g x y t :
  wf_grid g -> 0 <= x -> 0 <= y -> tileAt g x y = Some t ->
  0 <= x < GRID_WIDTH /\ 0 <= y < GRID_HEIGHT.
Proof.
  intros [Hlen Hrows] Hx Hy. unfold tileAt.
  destruct (g !! Z.to_nat y) as [row|] eqn:Hrow; [|discriminate]. intros Ht.
  pose proof (lookup_lt_Some _ _ _ Hrow) as H1. pose proof (lookup_lt_Some _ _ _ Ht) as H2.
  rewrite Forall_forall in Hrows.
  rewrite (Hrows row) in H2 by (eapply list_elem_of_lookup_2; eauto).
  lia.
Qed.

Lemma layeredGrid_deep : oresDeep layeredGrid.
Proof.
  intros x y t Hx Hy Ht Hore.
  destruct (tileAt_inside _ _ _ _ layeredGrid_wf Hx Hy Ht) as [Hx' Hy'].
  rewrite layeredGrid_lookup in Ht by assumption. injection Ht as <-.
  exfalso. revert Hore. unfold layerTile, layerType, isOre. cbn [Tile.type].
  destruct (y =? 5); [intros [|[|]]; discriminate|].
  destruct (_ && _); [intros [|[|]]; discriminate|].
  destruct (10 <=? y); intros [|[|]]; discriminate.
Qed.

Lemma carvedFrom_deep g g' : wf_grid g -> carvedFrom g g' -> oresDeep g -> oresDeep g'.
Proof.
  intros Hwf [Hwf' Hc] Hdeep x y t Hx Hy Ht Hore.
  destruct (tileAt_inside _ _ _ _ Hwf' Hx Hy Ht) as [Hx' Hy'].
  destruct (Hc x y Hx' Hy') as [E | [_ E]]; rewrite E in Ht.
  - exact (Hdeep x y t Hx Hy Ht Hore).
  - injection Ht as <-. destruct Hore as [|[|]]; discriminate.
Qed.

Lemma placeResource_deep fuel rnd type count minY : forall placed n g g' n',
  unit_draws rnd -> 0 <= minY < GRID_HEIGHT -> firstRow type <= minY ->
  wf_grid g -> oresDeep g ->
  placeResource fuel rnd type count minY placed n g = Some (g', n') ->
  oresDeep g'.
Proof.
  induction fuel as [|fuel IH]; intros placed n g g' n' Hrnd HminY Hfirst Hwf Hdeep;
    cbn [placeResource]; destruct (placed <? count); try discriminate;
    try (intros [= <- <-]; exact Hdeep).
  destruct (Hrnd n) as [Hx0 Hx1]. destruct (Hrnd (n + 1)%nat) as [Hy0 Hy1].
  pose proof (randInt_bounds (rnd n) GRID_WIDTH Hx0 Hx1 ltac:(unfold GRID_WIDTH; lia)) as Hrx.
  pose proof (randInt_bounds (rnd (n + 1)%nat) (GRID_HEIGHT - minY) Hy0 Hy1 ltac:(lia)) as Hry.
  destruct (tileAt g _ _) as [t|]; [|discriminate].
  destruct (_ || _); intros H; [|eapply IH; eassumption].
  eapply IH in H; try eassumption; [apply setTile_wf, Hwf|].
  intros x y t' Hx Hy Ht' Hore. rewrite tileAt_setTile in Ht' by (assumption || lia).
  destruct (Z.eqb_spec (randInt (rnd n) GRID_WIDTH) x);
    destruct (Z.eqb_spec (randInt (rnd (n + 1)%nat) (GRID_HEIGHT - minY) + minY) y);
    cbn [andb] in Ht'; try exact (Hdeep x y t' Hx Hy Ht' Hore).
  injection Ht' as <-. cbn [Tile.type]. lia.
Qed.

Lemma startGame_deep fuel rnd s0 :
  unit_draws rnd -> startGame fuel rnd = Some s0 -> wf_grid (grid s0) /\ oresDeep (grid s0).
Proof.
  intros Hrnd. unfold startGame, initGame.
  pose proof (caves_carved rnd 15 0 layeredGrid layeredGrid_wf) as Hc.
  pose proof (carvedFrom_deep _ _ layeredGrid_wf Hc layeredGrid_deep) as Hd0.
  destruct Hc as [Hwf0 _].
  destruct (caves rnd 15 0 layeredGrid) as [g0 n0]. cbn [fst] in *.
  destruct (placeResource fuel rnd SHARD 15 12 0 n0 g0) as [[g1 n1]|] eqn:H1; [|discriminate].
  destruct (placeResource fuel rnd GOLD GOLD_COUNT 20 0 n1 g1) as [[g2 n2]|] eqn:H2;
    [|discriminate].
  destruct (placeResource fuel rnd DIAMOND DIAMOND_COUNT 40 0 n2 g2) as [[g3 n3]|] eqn:H3;
    [|discriminate].
  intros [= <-]. cbn [grid with_status].
  assert (B1 : 0 <= 12 < GRID_HEIGHT) by (unfold GRID_HEIGHT; lia).
  assert (B2 : 0 <= 20 < GRID_HEIGHT) by (unfold GRID_HEIGHT; lia).
  assert (B3 : 0 <= 40 < GRID_HEIGHT) by (unfold GRID_HEIGHT; lia).
  pose proof (placeResource_deep _ _ SHARD _ _ _ _ _ _ _ Hrnd B1 (Z.le_refl 12) Hwf0 Hd0 H1) as Hd1.
  destruct (placeResource_rows _ _ _ _ _ _ _ _ _ _ Hrnd B1 Hwf0 H1) as [Hwf1 _].
  pose proof (placeResource_deep _ _ GOLD _ _ _ _ _ _ _ Hrnd B2 (Z.le_refl 20) Hwf1 Hd1 H2) as Hd2.
  destruct (placeResource_rows _ _ _ _ _ _ _ _ _ _ Hrnd B2 Hwf1 H2) as [Hwf2 _].
  pose proof (placeResource_deep _ _ DIAMOND _ _ _ _ _ _ _ Hrnd B3 (Z.le_refl 40) Hwf2 Hd2 H3) as Hd3.
  destruct (placeResource_rows _ _ _ _ _ _ _ _ _ _ Hrnd B3 Hwf2 H3) as [Hwf3 _].
  split; assumption.
Qed.

(** X11.  Ore lies deep.  With every draw in [0, 1), at every point of a
    session each shard tile is on row 12 or below, each gold tile on row
    20 or below and each diamond tile on row 40 or below (rows counted
    from the top), and all of them are inside the 40 columns and 60 rows
    of the grid. *)
Theorem ores_lie_deep (heading : Q -> Q -> Q * Q) (fuel : nat) (rnd : Rand)
    (s0 : GameState) (evs : list Event) (x y : Z) (t : Tile) :
  unit_draws rnd ->
  startGame fuel rnd = Some s0 ->
  0 <= x -> 0 <= y ->
  tileAt (grid (run heading evs s0)) x y = Some t ->
  x < GRID_WIDTH /\ y < GRID_HEIGHT /\
  (Tile.type t = SHARD -> 12 <= y) /\
  (Tile.type t = GOLD -> 20 <= y) /\
  (Tile.type t = DIAMOND -> 40 <= y).
Proof.
  intros Hrnd Hgen Hx Hy Ht.
  destruct (startGame_deep fuel rnd s0 Hrnd Hgen) as [Hwf Hdeep].
  destruct (run_grid heading evs s0 Hwf) as [Hwf' Hworn].
  destruct (tileAt_inside _ _ _ _ Hwf' Hx Hy Ht) as [Hx' Hy'].
  destruct (wf_grid_lookup (grid s0) x y Hwf Hx' Hy') as [t0 Ht0].
  destruct (Hworn x y t0 Hx Hy Ht0) as (t' & Ht' & _ & _ & Hty & _).
  assert (t' = t) by congruence. subst t'.
  assert (Hk : isOre (Tile.type t) -> firstRow (Tile.type t) <= y).
  { intros Hore. destruct Hty as [E | E].
    - rewrite E. apply (Hdeep x y t0 Hx Hy Ht0). rewrite <- E. exact Hore.
    - rewrite E in Hore. destruct Hore as [|[|]]; discriminate. }
  split; [lia|]. split; [lia|]. unfold isOre in Hk.
  split; [|split]; intros E; rewrite E in Hk; cbn [firstRow] in Hk; apply Hk; auto.
Qed.

Lemma sampleWorld_diamond :
  match startGame 1000 sampleRnd with
  | Some s0 =>
      tileAt (grid (run axisHeading [CanvasClick false sampleRnd 790 220] s0)) 34 44
  | None => None
  end = Some (Tile.mk DIAMOND 20 20).
Proof. vm_compute. reflexivity. Qed.

(** X11 on the sample world after a press on the grass: the tile at
    column 34, row 44 is a diamond tile, on a row that is 40 or more. *)
Lemma ores_lie_deep_witness :
  unit_draws sampleRnd /\
  exists s0 t,
    startGame 1000 sampleRnd = Some s0 /\
    tileAt (grid (run axisHeading [CanvasClick false sampleRnd 790 220] s0)) 34 44 = Some t /\
    Tile.type t = DIAMOND /\
    34 < GRID_WIDTH /\ 44 < GRID_HEIGHT /\
    (Tile.type t = SHARD -> 12 <= 44) /\
    (Tile.type t = GOLD -> 20 <= 44) /\
    (Tile.type t = DIAMOND -> 40 <= 44).
Proof.
  split; [exact sampleRnd_unit|].
  pose proof sampleWorld_diamond as Ht.
  destruct (startGame 1000 sampleRnd) as [s0|] eqn:E; [|discriminate Ht].
  exists s0, (Tile.mk DIAMOND 20 20). split; [reflexivity|]. split; [exact Ht|].
  split; [reflexivity|].
  apply (ores_lie_deep axisHeading 1000 sampleRnd s0 [CanvasClick false sampleRnd 790 220]
           34 44 (Tile.mk DIAMOND 20 20) sampleRnd_unit E ltac:(lia) ltac:(lia) Ht).
Defined.

(** ** The player and the terrain *)

Lemma movedPlayer_pos keys prev :
  exists dx dy,
    Entity.pos (movedPlayer keys prev) =
    slide (grid prev) (Entity.pos (player prev))
      (Vector2.x (Entity.pos (player prev)) + dx) (Vector2.y (Entity.pos (player prev)) + dy).
Proof.
  unfold movedPlayer.
  pose proof (readKeys_player keys (decayDamageCooldown (decayAttackCooldown (player prev))))
    as Hr.
  destruct (readKeys keys _) as [[dx dy] p1]. cbn [snd] in Hr.
  destruct Hr as (_ & _ & _ & Hp).
  pose proof (decayDamageCooldown_player (decayAttackCooldown (player prev)))
    as (_ & _ & Hp1 & _).
  pose proof (decayAttackCooldown_player (player prev)) as (_ & _ & _ & Hp2).
  exists dx, dy. rewrite movePlayer_pos, Hp, Hp1, Hp2. reflexivity.
Qed.

Lemma tick_player_pos heading keys rnd prev :
  Entity.pos (player (tick heading keys rnd prev)) = Entity.pos (movedPlayer keys prev).
Proof. rewrite tick_player. destruct (_ && _); reflexivity. Qed.

Lemma handleAttack_place rnd s :
  grid (handleAttack rnd s) = grid s /\
  Entity.pos (player (handleAttack rnd s)) = Entity.pos (player s).
Proof.
  unfold handleAttack. destruct (_ || _); [split; reflexivity|].
  destruct (strike _ _ _ _ _ _ _) as [[[es ps] n] hit]. split; reflexivity.
Qed.

Lemma afterHostilePass_pos rnd cx cy s :
  Entity.pos (player (afterHostilePass rnd cx cy s)) = Entity.pos (player s).
Proof.
  unfold afterHostilePass.
  destruct (clickEnemies_spec rnd (mouseX cx s) (mouseY cy s) s) as (extra & n & -> & _).
  cbv zeta. cbn [fst player with_player]. destruct (_ <? _)%nat; reflexivity.
Qed.

Lemma pressed_type t : Tile.type (pressed t) <> AIR -> Tile.type t <> AIR.
Proof.
  unfold pressed. destruct (isAIR t) eqn:Ha; [auto|].
  intros _. apply isAIR_false, Ha.
Qed.

(** Mining never makes a clear place solid. *)
Lemma press_keeps_clear g tx ty tile px py :
  wf_grid g -> 0 <= tx < GRID_WIDTH -> 0 <= ty < GRID_HEIGHT ->
  tileAt g tx ty = Some tile ->
  checkCollision g px py = false ->
  checkCollision (setTile g tx ty (pressed tile)) px py = false.
Proof.
  intros Hwf Hx Hy Ht Hclear.
  destruct (checkCollision (setTile g tx ty (pressed tile)) px py) eqn:Hc; [|reflexivity].
  rewrite <- Hclear. symmetry. apply (checkCollision_spec g px py Hwf).
  apply (checkCollision_spec _ px py (setTile_wf g tx ty _ Hwf)) in Hc
    as (x & y & Hcx & Hcy & Hs).
  exists x, y. split; [exact Hcx|]. split; [exact Hcy|].
  destruct (outOfGrid x y) eqn:Hout; [left; reflexivity|]. right.
  destruct Hs as [Hs | (t & Hs & Hne)]; [discriminate|].
  apply outOfGrid_false in Hout as [Hx' Hy'].
  rewrite tileAt_setTile in Hs by (assumption || lia).
  destruct (Z.eqb_spec tx x) as [<-|]; destruct (Z.eqb_spec ty y) as [<-|];
    cbn [andb] in Hs; try (exists t; split; assumption).
  injection Hs as <-. exists tile. split; [exact Ht | apply pressed_type, Hne].
Qed.

Lemma step_clear heading s ev : playerClear s -> playerClear (step heading s ev).
Proof.
  intros [Hwf Hclear].
  assert (Hsame : forall s', grid s' = grid s ->
            Entity.pos (player s') = Entity.pos (player s) -> playerClear s').
  { intros s' Hg Hp. unfold playerClear. rewrite Hg, Hp. split; assumption. }
  destruct ev as [keys rnd | rnd | eager rnd cx cy | cx cy]; cbn [step].
  - unfold update. destruct (negb _); [split; assumption|].
    destruct (tick_world heading keys rnd s) as (Hg & _).
    unfold playerClear. rewrite Hg, tick_player_pos. split; [exact Hwf|].
    destruct (movedPlayer_pos keys s) as (dx & dy & ->).
    apply slide_stays_clear, Hclear.
  - destruct (handleAttack_place rnd s) as [Hg Hp]. apply Hsame; assumption.
  - destruct (decide (status s = PLAYING)) as [Hst|Hst];
      [|rewrite handleCanvasClick_idle by exact Hst; split; assumption].
    pose proof (handleCanvasClick_entities eager rnd cx cy s) as He.
    destruct (click_grid eager rnd cx cy s Hst Hwf) as [Hno Hyes].
    assert (Hp : Entity.pos (player (handleCanvasClick eager rnd cx cy s)) = Entity.pos (player s)).
    { destruct (handleCanvasClick_exact eager rnd cx cy s Hst) as [n ->].
      destruct (pressMines eager cx cy s); [|apply afterHostilePass_pos].
      destruct (mineTile_entities rnd n (pointedX cx s) (pointedY cy s)
                  (afterHostilePass rnd cx cy s)) as (-> & _).
      apply afterHostilePass_pos. }
    destruct (pressMines eager cx cy s); [|apply Hsame; [apply Hno; reflexivity | exact Hp]].
    destruct (Hyes eq_refl) as (Hx & Hy & tile & Ht & Hg).
    unfold playerClear, collides. rewrite Hg, Hp. split; [apply setTile_wf, Hwf|].
    apply press_keeps_clear; assumption.
  - unfold handleMouseMove. destruct (negb _); [split; assumption|].
    destruct (_ || _ || _ || _); apply Hsame; reflexivity.
Qed.

Lemma run_clear heading evs : forall s, playerClear s -> playerClear (run heading evs s).
Proof.
  induction evs as [|ev evs IH]; intros s Hinv; [exact Hinv|].
  change (run heading (ev :: evs) s) with (run heading evs (step heading s ev)).
  apply IH, step_clear, Hinv.
Qed.

Lemma spawn_cover :
  coverLo (Vector2.x (Entity.pos initialPlayer)) = 20 /\
  coverHi (Vector2.x (Entity.pos initialPlayer)) = 20 /\
  coverLo (Vector2.y (Entity.pos initialPlayer)) = 4 /\
  coverHi (Vector2.y (Entity.pos initialPlayer)) = 4.
Proof. split; [|split; [|split]]; vm_compute; reflexivity. Qed.

Lemma startGame_clear fuel rnd s0 :
  unit_draws rnd -> startGame fuel rnd = Some s0 -> playerClear s0.
Proof.
  intros Hrnd Hgen.
  destruct (startGame_rows fuel rnd s0 Hrnd Hgen) as [Hwf Hrows].
  destruct (startGame_shape fuel rnd s0 Hgen) as (_ & Hp & _).
  split; [exact Hwf|]. unfold collides. rewrite Hp.
  destruct (checkCollision _ _ _) eqn:Hc; [|reflexivity]. exfalso.
  apply (checkCollision_spec _ _ _ Hwf) in Hc as (x & y & Hx & Hy & Hs).
  destruct spawn_cover as (E1 & E2 & E3 & E4). rewrite E1, E2 in Hx. rewrite E3, E4 in Hy.
  assert (x = 20) by lia. assert (y = 4) by lia. subst x y.
  destruct Hs as [Hs | (t & Ht & Hne)]; [discriminate|].
  rewrite Hrows in Ht by (unfold GRID_WIDTH; lia). injection Ht as <-.
  apply Hne. reflexivity.
Qed.

Lemma cover_order p : coverLo p <= coverHi p.
Proof.
  unfold coverLo, coverHi. apply Qfloor_resp_le.
  unfold Qdiv, TILE_SIZE. change (/ inject_Z 40)%Q with (1 # 40)%Q.
  change (inject_Z 40) with 40%Q. lra.
Qed.

Lemma cover_inside p :
  0 <= coverLo p -> coverHi p < 40 -> (-8 <= p)%Q /\ (p < 1568)%Q.
Proof.
  unfold coverLo, coverHi, Qdiv, TILE_SIZE. change (/ inject_Z 40)%Q with (1 # 40)%Q.
  change (inject_Z 40) with 40%Q. intros Hlo Hhi.
  pose proof (Qfloor_le ((p + 8) * (1 # 40))) as H1.
  pose proof (Qlt_floor ((p + 40 - 8) * (1 # 40))) as H2.
  assert (H3 : (0 <= inject_Z (Qfloor ((p + 8) * (1 # 40))))%Q).
  { change 0%Q with (inject_Z 0). rewrite <- Zle_Qle. exact Hlo. }
  assert (H4 : Qfloor ((p + 40 - 8) * (1 # 40)) + 1 <= 40) by lia.
  rewrite Zle_Qle in H4. change (inject_Z 40) with 40%Q in H4.
  split; lra.
Qed.

Lemma cover_inside_rows p :
  0 <= coverLo p -> coverHi p < 60 -> (-8 <= p)%Q /\ (p < 2368)%Q.
Proof.
  unfold coverLo, coverHi, Qdiv, TILE_SIZE. change (/ inject_Z 40)%Q with (1 # 40)%Q.
  change (inject_Z 40) with 40%Q. intros Hlo Hhi.
  pose proof (Qfloor_le ((p + 8) * (1 # 40))) as H1.
  pose proof (Qlt_floor ((p + 40 - 8) * (1 # 40))) as H2.
  assert (H3 : (0 <= inject_Z (Qfloor ((p + 8) * (1 # 40))))%Q).
  { change 0%Q with (inject_Z 0). rewrite <- Zle_Qle. exact Hlo. }
  assert (H4 : Qfloor ((p + 40 - 8) * (1 # 40)) + 1 <= 60) by lia.
  rewrite Zle_Qle in H4. change (inject_Z 60) with 60%Q in H4.
  split; lra.
Qed.

Lemma clear_cells g px py :
  wf_grid g -> checkCollision g px py = false ->
  forall x y, coverLo px <= x <= coverHi px -> coverLo py <= y <= coverHi py ->
    (0 <= x < GRID_WIDTH /\ 0 <= y < GRID_HEIGHT) /\
    exists t, tileAt g x y = Some t /\ Tile.type t = AIR.
Proof.
  intros Hwf Hclear x y Hx Hy.
  assert (Hno : ~ (outOfGrid x y = true \/ exists t, tileAt g x y = Some t /\ Tile.type t <> AIR)).
  { intros Hs. assert (checkCollision g px py = true); [|congruence].
    apply (checkCollision_spec g px py Hwf). exists x, y. auto. }
  destruct (outOfGrid x y) eqn:Hout; [exfalso; apply Hno; left; reflexivity|].
  apply outOfGrid_false in Hout as [Hx' Hy']. split; [split; assumption|].
  destruct (wf_grid_lookup g x y Hwf Hx' Hy') as [t Ht]. exists t. split; [exact Ht|].
  destruct (decide (Tile.type t = AIR)) as [E|E]; [exact E|].
  exfalso. apply Hno. right. exists t. split; assumption.
Qed.

(** X12.  The player never stands in terrain.  With every draw in [0, 1),
    at every point of a session the collision query is negative at the
    player's position: every tile the body covers (shrunk by the margin of
    8 pixels) is inside the grid and is AIR, whatever was mined or walked
    in between; so the position stays within -8 <= x < 1568 and
    -8 <= y < 2368. *)
Theorem player_never_in_terrain (heading : Q -> Q -> Q * Q) (fuel : nat) (rnd : Rand)
    (s0 : GameState) (evs : list Event) :
  unit_draws rnd ->
  startGame fuel rnd = Some s0 ->
  let s := run heading evs s0 in
  let px := Vector2.x (Entity.pos (player s)) in
  let py := Vector2.y (Entity.pos (player s)) in
  checkCollision (grid s) px py = false /\
  (forall x y, coverLo px <= x <= coverHi px -> coverLo py <= y <= coverHi py ->
     exists t, tileAt (grid s) x y = Some t /\ Tile.type t = AIR) /\
  (-8 <= px)%Q /\ (px < 1568)%Q /\ (-8 <= py)%Q /\ (py < 2368)%Q.
Proof.
  intros Hrnd Hgen s px py.
  destruct (run_clear heading evs s0 (startGame_clear fuel rnd s0 Hrnd Hgen)) as [Hwf Hclear].
  fold s in Hwf, Hclear. unfold collides in Hclear. fold px py in Hclear.
  pose proof (clear_cells (grid s) px py Hwf Hclear) as Hcells.
  split; [exact Hclear|]. split; [intros x y Hx Hy; apply (Hcells x y Hx Hy)|].
  pose proof (cover_order px) as Hox. pose proof (cover_order py) as Hoy.
  destruct (Hcells (coverLo px) (coverLo py) ltac:(lia) ltac:(lia)) as [[Hx1 Hy1] _].
  destruct (Hcells (coverHi px) (coverHi py) ltac:(lia) ltac:(lia)) as [[Hx2 Hy2] _].
  unfold GRID_WIDTH, GRID_HEIGHT in *.
  destruct (cover_inside px ltac:(lia) ltac:(lia)) as [A1 A2].
  destruct (cover_inside_rows py ltac:(lia) ltac:(lia)) as [B1 B2].
  repeat split; assumption.
Qed.

(** X12 on the sample world, after the player walked right for a frame. *)
Lemma player_never_in_terrain_witness :
  unit_draws sampleRnd /\
  exists s0,
    startGame 1000 sampleRnd = Some s0 /\
    collides (grid (run axisHeading [Frame ["KeyD"%string] sampleRnd] s0))
      (Entity.pos (player (run axisHeading [Frame ["KeyD"%string] sampleRnd] s0))) = false.
Proof.
  split; [exact sampleRnd_unit|].
  destruct (startGame 1000 sampleRnd) as [s0|] eqn:E.
  - exists s0. split; [reflexivity|].
    apply (player_never_in_terrain axisHeading 1000 sampleRnd s0
             [Frame ["KeyD"%string] sampleRnd] sampleRnd_unit E).
  - exfalso. exact (sampleWorld_generated E).
Defined.

(** ** The camera *)

Lemma tick_camera heading keys rnd s :
  camera (tick heading keys rnd s) = cameraOn (Entity.pos (player (tick heading keys rnd s))).
Proof.
  rewrite tick_player_pos.
  destruct (tick_parts heading keys rnd s) as (_ & _ & _ & _ & ->). reflexivity.
Qed.

Lemma handleCanvasClick_view eager rnd cx cy s :
  camera (handleCanvasClick eager rnd cx cy s) = camera s /\
  Entity.pos (player (handleCanvasClick eager rnd cx cy s)) = Entity.pos (player s).
Proof.
  destruct (decide (status s = PLAYING)) as [Hst|Hst];
    [|rewrite handleCanvasClick_idle by exact Hst; split; reflexivity].
  destruct (handleCanvasClick_exact eager rnd cx cy s Hst) as [n ->].
  destruct (afterHostilePass_world rnd cx cy s) as (_ & _ & _ & _ & _ & _ & _ & Hc).
  pose proof (afterHostilePass_pos rnd cx cy s) as Hp.
  destruct (pressMines eager cx cy s); [|split; assumption].
  destruct (mineTile_entities rnd n (pointedX cx s) (pointedY cy s)
              (afterHostilePass rnd cx cy s)) as (-> & _ & -> & _).
  split; assumption.
Qed.

Lemma step_camera heading s ev : cameraInv s -> cameraInv (step heading s ev).
Proof.
  intros Hinv.
  assert (Hsame : forall s', camera s' = camera s ->
            Entity.pos (player s') = Entity.pos (player s) -> cameraInv s').
  { intros s' Hc Hp. unfold cameraInv. rewrite Hc, Hp. exact Hinv. }
  destruct ev as [keys rnd | rnd | eager rnd cx cy | cx cy]; cbn [step].
  - unfold update. destruct (negb _); [exact Hinv|]. right. apply tick_camera.
  - destruct (handleAttack_place rnd s) as [_ Hp]. apply Hsame; [|exact Hp].
    unfold handleAttack. destruct (_ || _); [reflexivity|].
    destruct (strike _ _ _ _ _ _ _) as [[[es ps] n] hit]. reflexivity.
  - destruct (handleCanvasClick_view eager rnd cx cy s) as [Hc Hp]. apply Hsame; assumption.
  - unfold handleMouseMove. destruct (negb _); [exact Hinv|].
    destruct (_ || _ || _ || _); apply Hsame; reflexivity.
Qed.

Lemma run_camera heading evs : forall s, cameraInv s -> cameraInv (run heading evs s).
Proof.
  induction evs as [|ev evs IH]; intros s Hinv; [exact Hinv|].
  change (run heading (ev :: evs) s) with (run heading evs (step heading s ev)).
  apply IH, step_camera, Hinv.
Qed.

(** X13.  The camera follows the player.  Every tick while PLAYING sets
    the camera so that the centre of the player's tile is drawn at the
    centre (400, 300) of the 800 by 600 viewport, with no clamping at the
    edge of the world; a melee attack, a pointer press and a pointer move
    leave the camera alone.  So at every point of a session the camera is
    either still at (0, 0) with the player at the spawn point, or centred
    on the player. *)
Theorem camera_follows_player (heading : Q -> Q -> Q * Q) (fuel : nat) (rnd : Rand)
    (s0 : GameState) (evs : list Event) :
  startGame fuel rnd = Some s0 ->
  let s := run heading evs s0 in
  let p := Entity.pos (player s) in
  ((camera s = Vector2.mk 0 0 /\ p = Entity.pos initialPlayer) \/
   (camera s = cameraOn p /\
    (Vector2.x p + 20 - Vector2.x (camera s) == 400)%Q /\
    (Vector2.y p + 20 - Vector2.y (camera s) == 300)%Q)) /\
  (forall keysPressed rnd',
     status s = PLAYING ->
     camera (update heading keysPressed rnd' s) =
     cameraOn (Entity.pos (player (update heading keysPressed rnd' s)))) /\
  (forall rnd', camera (handleAttack rnd' s) = camera s) /\
  (forall eager rnd' cx cy, camera (handleCanvasClick eager rnd' cx cy s) = camera s) /\
  (forall cx cy, camera (handleMouseMove cx cy s) = camera s).
Proof.
  intros Hgen s p.
  destruct (startGame_shape fuel rnd s0 Hgen) as (_ & Hp & _ & _ & Hc & _).
  assert (H0 : cameraInv s0) by (left; rewrite Hc, Hp; split; reflexivity).
  pose proof (run_camera heading evs s0 H0) as H. fold s in H.
  split; [|split; [|split; [|split]]].
  - destruct H as [H | H]; [left; exact H|]. right. fold p in H.
    split; [exact H|]. rewrite H. unfold cameraOn, VIEWPORT_WIDTH, VIEWPORT_HEIGHT, TILE_SIZE, Qdiv.
    cbn [Vector2.x Vector2.y]. change (/ 2)%Q with (1 # 2)%Q.
    change (inject_Z 800) with 800%Q. change (inject_Z 600) with 600%Q.
    change (inject_Z 40) with 40%Q. split; lra.
  - intros keys rnd' Hst. rewrite update_playing by exact Hst. apply tick_camera.
  - intros rnd'. unfold handleAttack. destruct (_ || _); [reflexivity|].
    destruct (strike _ _ _ _ _ _ _) as [[[es ps] n] hit]. reflexivity.
  - intros eager rnd' cx cy. apply handleCanvasClick_view.
  - intros cx cy. unfold handleMouseMove. destruct (negb _); [reflexivity|].
    destruct (_ || _ || _ || _); reflexivity.
Qed.

(** X13 on the sample world, after one frame. *)
Lemma camera_follows_player_witness :
  exists s0,
    startGame 1000 sampleRnd = Some s0 /\
    forall cx cy,
      camera (handleMouseMove cx cy (run axisHeading [Frame [] sampleRnd] s0)) =
      camera (run axisHeading [Frame [] sampleRnd] s0).
Proof.
  destruct (startGame 1000 sampleRnd) as [s0|] eqn:E.
  - exists s0. split; [reflexivity|].
    apply (camera_follows_player axisHeading 1000 sampleRnd s0 [Frame [] sampleRnd] E).
  - exfalso. exact (sampleWorld_generated E).
Defined.

(** ** Transient effects *)

Lemma hitParticle_shortLived p : isHitParticle p -> shortLived p.
Proof. intros (Hl & _). unfold shortLived. lia. Qed.

Lemma hitParticles_shortLived rnd n ex ey : Forall shortLived (hitParticles rnd n ex ey).
Proof.
  unfold hitParticles. apply Forall_forall. intros p Hp.
  apply list_elem_of_In, in_map_iff in Hp as (i & <- & _).
  unfold shortLived. cbn [Particle.life]. lia.
Qed.

Lemma miningParticles_shortLived rnd n x y color :
  Forall shortLived (spawnMiningParticles rnd n x y color).
Proof.
  unfold spawnMiningParticles. apply Forall_forall. intros p Hp.
  apply list_elem_of_In, in_map_iff in Hp as (i & <- & _).
  unfold shortLived. cbn [Particle.life]. lia.
Qed.

Lemma agedParticles_shortLived ps : Forall shortLived ps -> Forall shortLived (agedParticles ps).
Proof.
  intros H. unfold agedParticles. apply Forall_forall. intros p Hp.
  apply list_elem_of_In, filter_In in Hp as [Hp Hl]. apply in_map_iff in Hp as (q & <- & Hq).
  rewrite Forall_forall in H. specialize (H q (proj2 (list_elem_of_In _ _) Hq)).
  unfold shortLived in *. cbn [advanceParticle Particle.life] in *.
  apply Z.ltb_lt in Hl. lia.
Qed.

Lemma decayedShake_bounds q : (0 <= q)%Q -> (q <= 10)%Q ->
  (0 <= decayedShake q)%Q /\ (decayedShake q <= 10)%Q /\ (decayedShake q <= q)%Q.
Proof.
  intros H0 H1. unfold decayedShake. destruct (Qltb 0 q); repeat split; lra.
Qed.

Lemma mineTile_effects rnd n tx ty s : effectsInv s -> effectsInv (mineTile rnd n tx ty s).
Proof.
  intros (H0 & H1 & Hp). unfold mineTile.
  destruct (tileAt (grid s) tx ty) as [tile|]; [|repeat split; assumption].
  destruct (isAIR tile); [repeat split; assumption|].
  pose proof (miningParticles_shortLived rnd n tx ty (COLORS (Tile.type tile))) as Hm.
  assert (Hl : forall c t, shortLived (labelParticle tx ty c t)).
  { intros c t. unfold shortLived, labelParticle. cbn [Particle.life]. lia. }
  destruct (Tile.durability tile - 8 <=? 0); cbv zeta.
  - destruct (Tile.type tile); try (destruct (SHARD_GOAL <=? _));
      unfold effectsInv;
      cbn [screenShake particles with_grid with_status with_particles with_screenShake
           with_shardsCollected with_goldCollected with_diamondsCollected];
      (split; [lra|]); (split; [lra|]);
      repeat (apply Forall_app; split); try assumption;
      apply Forall_cons; (split; [apply Hl | constructor]).
  - unfold effectsInv. cbn [screenShake particles with_grid with_particles].
    split; [exact H0|]. split; [exact H1|]. apply Forall_app. split; assumption.
Qed.

Lemma step_effects heading s ev : effectsInv s -> effectsInv (step heading s ev).
Proof.
  intros (H0 & H1 & Hp).
  destruct ev as [keys rnd | rnd | eager rnd cx cy | cx cy]; cbn [step].
  - unfold update. destruct (negb _); [repeat split; assumption|].
    destruct (tick_parts heading keys rnd s) as (_ & Hps & Hsh & _).
    unfold effectsInv. rewrite Hps, Hsh.
    pose proof (agedParticles_shortLived _ Hp) as Ha.
    destruct (decayedShake_bounds _ H0 H1) as (D0 & D1 & _).
    destruct (_ && _).
    + split; [lra|]. split; [lra|]. apply Forall_app. split; [exact Ha|].
      apply hitParticles_shortLived.
    + split; [exact D0|]. split; [exact D1 | exact Ha].
  - unfold handleAttack. destruct (_ || _); [repeat split; assumption|].
    match goal with
    | |- context [strike rnd ?r ?d ?es ?ps ?n ?h] =>
        destruct (strike_spec rnd r d es ps n h) as (extra & n' & -> & Hhit & _)
    end.
    unfold effectsInv. cbn [screenShake particles with_particles with_enemies with_player].
    split; [exact H0|]. split; [exact H1|]. apply Forall_app. split; [exact Hp|].
    eapply Forall_impl; [exact Hhit | apply hitParticle_shortLived].
  - destruct (decide (status s = PLAYING)) as [Hst|Hst];
      [|rewrite handleCanvasClick_idle by exact Hst; repeat split; assumption].
    destruct (handleCanvasClick_exact eager rnd cx cy s Hst) as [n ->].
    assert (H1' : effectsInv (afterHostilePass rnd cx cy s)).
    { unfold afterHostilePass.
      destruct (clickEnemies_spec rnd (mouseX cx s) (mouseY cy s) s)
        as (extra & m & -> & Hhit & _).
      cbv zeta. unfold effectsInv.
      cbn [fst screenShake particles with_particles with_enemies with_player].
      split; [exact H0|]. split; [exact H1|]. apply Forall_app. split; [exact Hp|].
      eapply Forall_impl; [exact Hhit | apply hitParticle_shortLived]. }
    destruct (pressMines eager cx cy s); [apply mineTile_effects, H1' | exact H1'].
  - unfold handleMouseMove. destruct (negb _); [repeat split; assumption|].
    destruct (_ || _ || _ || _); repeat split; assumption.
Qed.

Lemma run_effects heading evs : forall s, effectsInv s -> effectsInv (run heading evs s).
Proof.
  induction evs as [|ev evs IH]; intros s Hinv; [exact Hinv|].
  change (run heading (ev :: evs) s) with (run heading evs (step heading s ev)).
  apply IH, step_effects, Hinv.
Qed.

Lemma ticks_particles heading frames : forall s k,
  status (ticks heading frames s) = PLAYING ->
  Forall (fun p => Particle.life p <= k) (particles s) ->
  Forall (fun p => Particle.life p <= Z.max 20 (k - Z.of_nat (length frames)))
         (particles (ticks heading frames s)).
Proof.
  induction frames as [|f frames IH]; intros s k Hplay H.
  - change (ticks heading [] s) with s. eapply Forall_impl; [exact H|].
    cbn beta. cbn [length]. intros p Hp. lia.
  - destruct (ticks_playing heading f frames s Hplay) as [Hst _].
    change (ticks heading (f :: frames) s)
      with (ticks heading frames (update heading (fst f) (snd f) s)) in Hplay |- *.
    assert (Hk : Forall (fun p => Particle.life p <= Z.max 20 (k - 1))
                   (particles (update heading (fst f) (snd f) s))).
    { rewrite update_playing by exact Hst.
      destruct (tick_parts heading (fst f) (snd f) s) as (_ & -> & _).
      assert (Ha : Forall (fun p => Particle.life p <= Z.max 20 (k - 1))
                     (agedParticles (particles s))).
      { unfold agedParticles. apply Forall_forall. intros p Hp.
        apply list_elem_of_In, filter_In in Hp as [Hp _].
        apply in_map_iff in Hp as (q & <- & Hq).
        rewrite Forall_forall in H. specialize (H q (proj2 (list_elem_of_In _ _) Hq)).
        cbn [advanceParticle Particle.life] in *. lia. }
      destruct (_ && _); [|exact Ha]. apply Forall_app. split; [exact Ha|].
      unfold hitParticles. apply Forall_forall. intros p Hp.
      apply list_elem_of_In, in_map_iff in Hp as (i & <- & _). cbn [Particle.life]. lia. }
    eapply Forall_impl; [apply (IH _ _ Hplay Hk)|]. cbn beta. cbn [length].
    intros p Hp. lia.
Qed.

(** X14.  Transient effects stay bounded.  At every point of a session
    the screen shake lies in [0, 10] and every particle has a life in
    1..40.  Over frames that end with the session still PLAYING, a
    particle's life falls by one per tick and the only new particles
    are the hit particles of contact damage, with a life of 20; so after
    [n] ticks every particle that is left has a life of at most
    max(20, 40 - n). *)
Theorem effects_stay_bounded (heading : Q -> Q -> Q * Q) (fuel : nat) (rnd : Rand)
    (s0 : GameState) (evs : list Event) (frames : list (list string * Rand)) :
  startGame fuel rnd = Some s0 ->
  let s := run heading evs s0 in
  let s' := ticks heading frames s in
  (0 <= screenShake s <= 10)%Q /\
  Forall (fun p => 0 < Particle.life p <= 40) (particles s) /\
  (status s' = PLAYING ->
   Forall (fun p => 0 < Particle.life p <= Z.max 20 (40 - Z.of_nat (length frames)))
          (particles s')).
Proof.
  intros Hgen s s'.
  assert (H0 : effectsInv s0).
  { revert Hgen. unfold startGame, initGame.
    destruct (caves rnd 15 0 layeredGrid) as [g0 n0].
    destruct (placeResource fuel rnd SHARD 15 12 0 n0 g0) as [[g1 n1]|]; [|discriminate].
    destruct (placeResource fuel rnd GOLD GOLD_COUNT 20 0 n1 g1) as [[g2 n2]|];
      [|discriminate].
    destruct (placeResource fuel rnd DIAMOND DIAMOND_COUNT 40 0 n2 g2) as [[g3 n3]|];
      [|discriminate].
    intros [= <-]. unfold effectsInv. cbn [screenShake particles with_status].
    split; [lra|]. split; [lra | constructor]. }
  pose proof (run_effects heading evs s0 H0) as H. fold s in H.
  destruct H as (Hs0 & Hs1 & Hp).
  split; [split; assumption|]. split; [exact Hp|]. intros Hplay.
  assert (Hle : Forall (fun p => Particle.life p <= 40) (particles s)).
  { eapply Forall_impl; [exact Hp|]. cbn beta. unfold shortLived. intros p Hl. lia. }
  pose proof (ticks_particles heading frames s 40 Hplay Hle) as Hup.
  assert (Hlo : Forall shortLived (particles s')).
  { assert (Hrun : s' = run heading (map (fun f => Frame (fst f) (snd f)) frames) s).
    { subst s'. clear. generalize s. induction frames as [|f frames IH]; intros s1;
        [reflexivity|].
      change (ticks heading (f :: frames) s1)
        with (ticks heading frames (update heading (fst f) (snd f) s1)).
      rewrite IH. reflexivity. }
    rewrite Hrun. apply run_effects. split; [exact Hs0|]. split; [exact Hs1 | exact Hp]. }
  rewrite Forall_forall in Hup, Hlo |- *. intros p Hin.
  specialize (Hup p Hin). specialize (Hlo p Hin). unfold shortLived in Hlo.
  cbn beta in Hup. lia.
Qed.

(** X14 on the sample world, after a press and three idle frames. *)
Lemma effects_stay_bounded_witness :
  exists s0,
    startGame 1000 sampleRnd = Some s0 /\
    (0 <= screenShake (run axisHeading [CanvasClick false sampleRnd 790 220] s0) <= 10)%Q.
Proof.
  destruct (startGame 1000 sampleRnd) as [s0|] eqn:E.
  - exists s0. split; [reflexivity|].
    apply (effects_stay_bounded axisHeading 1000 sampleRnd s0
             [CanvasClick false sampleRnd 790 220] (idleFrames 3) E).
  - exfalso. exact (sampleWorld_generated E).
Defined.

(** ** The tiles that are drawn *)

Lemma visited_In camera x y :
  In (x, y) (visited camera) <->
  startX camera <= x < endX camera /\ startY camera <= y < endY camera.
Proof.
  unfold visited. rewrite in_flat_map. split.
  - intros (y' & Hy & Hin). apply in_map_iff in Hin as (x' & [= -> ->] & Hx).
    apply zrange_In in Hx, Hy. lia.
  - intros [Hx Hy]. exists y. split; [apply zrange_In; lia|].
    apply in_map_iff. exists x. split; [reflexivity | apply zrange_In; lia].
Qed.

Lemma drawCells_spec g cells :
  wf_grid g ->
  (forall x y, In (x, y) cells -> 0 <= x < GRID_WIDTH /\ 0 <= y < GRID_HEIGHT) ->
  exists calls,
    drawCells g cells = Some calls /\
    forall x y t, In (x, y, t) calls <->
      In (x, y) cells /\ tileAt g x y = Some t /\ Tile.type t <> AIR.
Proof.
  intros Hwf. induction cells as [|[cx cy] rest IH]; intros Hin.
  - exists []. split; [reflexivity|]. intros x y t. cbn [In]. tauto.
  - destruct IH as (calls & Hc & Hspec); [intros x y H; apply Hin; right; exact H|].
    destruct (Hin cx cy (or_introl eq_refl)) as [Hx Hy].
    destruct (wf_grid_lookup g cx cy Hwf Hx Hy) as [tile Ht].
    cbn [drawCells]. rewrite Ht, Hc.
    destruct (isAIR tile) eqn:Ha.
    + exists calls. split; [reflexivity|]. intros x y t. rewrite Hspec. cbn [In].
      apply isAIR_true in Ha. split; [tauto|].
      intros ([[= -> ->] | H] & Hxy & Hne); [congruence | tauto].
    + exists ((cx, cy, tile) :: calls). split; [reflexivity|]. intros x y t.
      cbn [In]. rewrite Hspec. apply isAIR_false in Ha. split.
      * intros [[= -> -> ->] | H]; [auto | tauto].
      * intros ([[= -> ->] | H] & Hxy & Hne); [left; congruence | tauto].
Qed.

Lemma floor_le_iff q x : Qfloor q <= x <-> (q < inject_Z (x + 1))%Q.
Proof.
  split; intros H.
  - eapply Qlt_le_trans; [apply Qlt_floor|]. rewrite <- Zle_Qle. lia.
  - assert (inject_Z (Qfloor q) < inject_Z (x + 1))%Q
      by (eapply Qle_lt_trans; [apply Qfloor_le | exact H]).
    rewrite <- Zlt_Qlt in H0. lia.
Qed.

Lemma lt_ceiling_iff q x : x < Qceiling q <-> (inject_Z x < q)%Q.
Proof.
  split; intros H.
  - eapply Qle_lt_trans; [|apply Qceiling_lt]. rewrite <- Zle_Qle. lia.
  - assert (inject_Z x < inject_Z (Qceiling q))%Q
      by (eapply Qlt_le_trans; [exact H | apply Qle_ceiling]).
    rewrite <- Zlt_Qlt in H0. exact H0.
Qed.

Lemma tile_scale a b : (a / inject_Z TILE_SIZE < b)%Q <-> (a < b * inject_Z TILE_SIZE)%Q.
Proof.
  unfold TILE_SIZE, Qdiv. change (/ inject_Z 40)%Q with (1 # 40)%Q.
  change (inject_Z 40) with 40%Q. split; intros H; lra.
Qed.

Lemma tile_scale_r a b : (b < a / inject_Z TILE_SIZE)%Q <-> (b * inject_Z TILE_SIZE < a)%Q.
Proof.
  unfold TILE_SIZE, Qdiv. change (/ inject_Z 40)%Q with (1 # 40)%Q.
  change (inject_Z 40) with 40%Q. split; intros H; lra.
Qed.

Lemma visited_inView camera x y :
  In (x, y) (visited camera) <->
  (0 <= x < GRID_WIDTH /\ 0 <= y < GRID_HEIGHT) /\ inView camera x y.
Proof.
  rewrite visited_In. unfold startX, endX, startY, endY, inView.
  rewrite <- !tile_scale, <- !tile_scale_r, <- !floor_le_iff, <- !lt_ceiling_iff. lia.
Qed.

(** X15.  The tile loop of [draw], on a 60 by 40 grid, never reads outside
    the grid, whatever the camera is, and calls [drawTile] exactly for the
    tiles that are inside the grid, are not AIR, and whose 40 by 40 square
    overlaps the 800 by 600 viewport of the camera. *)
Theorem drawn_tiles_are_those_in_view (s : GameState) :
  wf_grid (grid s) ->
  exists calls,
    drawnTiles s = Some calls /\
    forall x y t,
      In (x, y, t) calls <->
      (0 <= x < GRID_WIDTH /\ 0 <= y < GRID_HEIGHT) /\
      tileAt (grid s) x y = Some t /\ Tile.type t <> AIR /\
      inView (camera s) x y.
Proof.
  intros Hwf. unfold drawnTiles.
  destruct (drawCells_spec (grid s) (visited (camera s)) Hwf) as (calls & Hc & Hspec).
  { intros x y Hin. apply visited_inView in Hin. tauto. }
  exists calls. split; [exact Hc|]. intros x y t.
  rewrite Hspec, visited_inView. tauto.
Qed.

(** X15 on the untouched layered world with the camera at the origin. *)
Lemma drawn_tiles_are_those_in_view_witness :
  wf_grid (grid (surfaceState initialPlayer [])) /\
  exists calls, drawnTiles (surfaceState initialPlayer []) = Some calls.
Proof.
  split; [exact layeredGrid_wf|].
  destruct (drawn_tiles_are_those_in_view (surfaceState initialPlayer []) layeredGrid_wf)
    as (calls & Hc & _).
  exists calls. exact Hc.
Defined.

(** ** The highlighted tile *)

Lemma handleMouseMove_playing cx cy s :
  status s = PLAYING ->
  handleMouseMove cx cy s =
  with_selectedTile
    (if outOfGrid (pointedX cx s) (pointedY cy s) then None
     else Some (Vector2.mk (inject_Z (pointedX cx s)) (inject_Z (pointedY cy s)))) s.
Proof.
  intros Hst. unfold handleMouseMove, outOfGrid.
  rewrite bool_decide_eq_true_2 by exact Hst. cbn [negb].
  fold (pointedX cx s) (pointedY cy s).
  destruct (pointedX cx s <? 0), (pointedX cx s >=? GRID_WIDTH), (pointedY cy s <? 0),
    (pointedY cy s >=? GRID_HEIGHT); reflexivity.
Qed.

Lemma mineTile_selectedTile rnd n tx ty s :
  selectedTile (mineTile rnd n tx ty s) = selectedTile s.
Proof.
  unfold mineTile. destruct (tileAt (grid s) tx ty) as [tile|]; [|reflexivity].
  destruct (isAIR tile); [reflexivity|].
  destruct (Tile.durability tile - 8 <=? 0); [|reflexivity].
  destruct (Tile.type tile); try (destruct (SHARD_GOAL <=? _)); reflexivity.
Qed.

Lemma step_highlight heading s ev : highlightInv s -> highlightInv (step heading s ev).
Proof.
  intros Hinv.
  assert (Hsame : forall s', selectedTile s' = selectedTile s -> highlightInv s').
  { intros s' E. unfold highlightInv. rewrite E. exact Hinv. }
  destruct ev as [keys rnd | rnd | eager rnd cx cy | cx cy]; cbn [step].
  - unfold update. destruct (negb _); [exact Hinv|].
    destruct (tick_parts heading keys rnd s) as (_ & _ & _ & E & _). apply Hsame, E.
  - apply Hsame. unfold handleAttack. destruct (_ || _); [reflexivity|].
    destruct (strike _ _ _ _ _ _ _) as [[[es ps] n] hit]. reflexivity.
  - destruct (decide (status s = PLAYING)) as [Hst|Hst];
      [|rewrite handleCanvasClick_idle by exact Hst; exact Hinv].
    apply Hsame. destruct (handleCanvasClick_exact eager rnd cx cy s Hst) as [n ->].
    destruct (afterHostilePass_world rnd cx cy s) as (_ & _ & _ & _ & _ & _ & E & _).
    destruct (pressMines eager cx cy s); [rewrite mineTile_selectedTile|]; exact E.
  - destruct (decide (status s = PLAYING)) as [Hst|Hst];
      [|rewrite handleMouseMove_idle by exact Hst; exact Hinv].
    rewrite handleMouseMove_playing by exact Hst.
    destruct (outOfGrid _ _) eqn:Hout; [left; reflexivity|]. right.
    apply outOfGrid_false in Hout as [Hx Hy].
    exists (pointedX cx s), (pointedY cy s). split; [exact Hx|]. split; [exact Hy|].
    reflexivity.
Qed.

Lemma run_highlight heading evs : forall s, highlightInv s -> highlightInv (run heading evs s).
Proof.
  induction evs as [|ev evs IH]; intros s Hinv; [exact Hinv|].
  change (run heading (ev :: evs) s) with (run heading evs (step heading s ev)).
  apply IH, step_highlight, Hinv.
Qed.

(** X16.  The highlighted tile.  A pointer move while PLAYING changes
    nothing but the highlight: it is unset when the tile under the pointer
    is outside the grid, and is that tile otherwise.  A press at the same
    pointer position right after aims at the same tile, so whenever that
    press mines, it mines the highlighted tile.  Outside PLAYING a pointer
    move changes nothing, and at every point of a session the highlight is
    unset or names a tile of the grid. *)
Theorem highlight_is_the_pointed_tile (heading : Q -> Q -> Q * Q) (fuel : nat) (rnd : Rand)
    (s0 : GameState) (evs : list Event) (cx cy : Q) :
  startGame fuel rnd = Some s0 ->
  let s := run heading evs s0 in
  let s' := handleMouseMove cx cy s in
  let tx := pointedX cx s in
  let ty := pointedY cy s in
  (selectedTile s = None \/
   exists hx hy, 0 <= hx < GRID_WIDTH /\ 0 <= hy < GRID_HEIGHT /\
                 selectedTile s = Some (Vector2.mk (inject_Z hx) (inject_Z hy))) /\
  (status s <> PLAYING -> s' = s) /\
  (status s = PLAYING ->
   s' = with_selectedTile (selectedTile s') s /\
   selectedTile s' =
     (if outOfGrid tx ty then None else Some (Vector2.mk (inject_Z tx) (inject_Z ty))) /\
   pointedX cx s' = tx /\ pointedY cy s' = ty /\
   (forall eager, pressMines eager cx cy s' = true ->
    selectedTile s' = Some (Vector2.mk (inject_Z tx) (inject_Z ty)))).
Proof.
  intros Hgen s s' tx ty.
  assert (H0 : highlightInv s0).
  { left. revert Hgen. unfold startGame, initGame.
    destruct (caves rnd 15 0 layeredGrid) as [g0 n0].
    destruct (placeResource fuel rnd SHARD 15 12 0 n0 g0) as [[g1 n1]|]; [|discriminate].
    destruct (placeResource fuel rnd GOLD GOLD_COUNT 20 0 n1 g1) as [[g2 n2]|];
      [|discriminate].
    destruct (placeResource fuel rnd DIAMOND DIAMOND_COUNT 40 0 n2 g2) as [[g3 n3]|];
      [|discriminate].
    intros [= <-]. reflexivity. }
  split; [exact (run_highlight heading evs s0 H0)|].
  split; [intros Hst; apply handleMouseMove_idle, Hst|].
  intros Hst. subst s'. rewrite (handleMouseMove_playing cx cy s Hst). fold tx ty.
  split; [reflexivity|]. split; [reflexivity|]. split; [reflexivity|].
  split; [reflexivity|].
  intros eager. unfold pressMines. rewrite !andb_true_iff.
  intros [[_ Hin] _].
  change (pointedX cx (with_selectedTile _ s)) with tx in Hin.
  change (pointedY cy (with_selectedTile _ s)) with ty in Hin.
  cbn [selectedTile with_selectedTile]. apply negb_true_iff in Hin. rewrite Hin. reflexivity.
Qed.

(** X16 on the sample world. *)
Lemma highlight_is_the_pointed_tile_witness :
  exists s0,
    startGame 1000 sampleRnd = Some s0 /\
    (selectedTile (run axisHeading [MouseMove 790 220] s0) = None \/
     exists hx hy, 0 <= hx < GRID_WIDTH /\ 0 <= hy < GRID_HEIGHT /\
       selectedTile (run axisHeading [MouseMove 790 220] s0)
       = Some (Vector2.mk (inject_Z hx) (inject_Z hy))).
Proof.
  destruct (startGame 1000 sampleRnd) as [s0|] eqn:E.
  - exists s0. split; [reflexivity|].
    apply (highlight_is_the_pointed_tile axisHeading 1000 sampleRnd s0
             [MouseMove 790 220] 0 0 E).
  - exfalso. exact (sampleWorld_generated E).
Defined.

(** ** The player's step *)

Lemma readKeys_intent keys p :
  let '(dx, dy, p1) := readKeys keys p in
  (dx == axisIntent (goLeft keys) (goRight keys))%Q /\
  (dy == axisIntent (goUp keys) (goDown keys))%Q /\
  Entity.direction p1 =
    (if goRight keys then 1 else if goLeft keys then -1 else Entity.direction p) /\
  Entity.pos p1 = Entity.pos p.
Proof.
  unfold readKeys, axisIntent, goLeft, goRight, goUp, goDown, speed.
  destruct (has "KeyA" keys || has "ArrowLeft" keys),
    (has "KeyD" keys || has "ArrowRight" keys),
    (has "KeyW" keys || has "ArrowUp" keys),
    (has "KeyS" keys || has "ArrowDown" keys);
    (split; [lra|]); (split; [lra|]); split; reflexivity.
Qed.

Lemma decay_direction p :
  Entity.direction (decayDamageCooldown (decayAttackCooldown p)) = Entity.direction p /\
  Entity.pos (decayDamageCooldown (decayAttackCooldown p)) = Entity.pos p.
Proof.
  unfold decayDamageCooldown, decayAttackCooldown.
  destruct (Entity.attackCooldown p) as [c|]; [destruct (0 <? c);
    [destruct (c - 1 <? ATTACK_COOLDOWN - 5)|]|];
    cbn [Entity.damageCooldown Entity.with_attackCooldown Entity.with_isAttacking];
    (destruct (Entity.damageCooldown p) as [d|]; [destruct (0 <? d)|]); split; reflexivity.
Qed.

(** X17.  The player's step.  In one tick while PLAYING the player moves
    on each axis either not at all or by exactly the displacement the held
    keys ask for: 5 pixels for a direction key, nothing when both or
    neither key of an axis is held (there is no gravity on the player).
    On the x axis the move is made exactly when the collision query is
    negative at the new x and the old y; on the y axis exactly when it is
    negative at the resulting x and the new y.  The player faces right
    when a right key is held, left when only a left key is, and keeps the
    facing otherwise. *)
Theorem player_step_follows_keys (heading : Q -> Q -> Q * Q) (keysPressed : list string)
    (rnd : Rand) (s : GameState) :
  status s = PLAYING ->
  let s' := update heading keysPressed rnd s in
  let p := Entity.pos (player s) in
  let p' := Entity.pos (player s') in
  let dx := axisIntent (goLeft keysPressed) (goRight keysPressed) in
  let dy := axisIntent (goUp keysPressed) (goDown keysPressed) in
  (exists nx, (nx == Vector2.x p + dx)%Q /\
     Vector2.x p' = (if checkCollision (grid s) nx (Vector2.y p) then Vector2.x p else nx)) /\
  (exists ny, (ny == Vector2.y p + dy)%Q /\
     Vector2.y p' =
       (if checkCollision (grid s) (Vector2.x p') ny then Vector2.y p else ny)) /\
  (Vector2.x p - 5 <= Vector2.x p' <= Vector2.x p + 5)%Q /\
  (Vector2.y p - 5 <= Vector2.y p' <= Vector2.y p + 5)%Q /\
  Entity.direction (player s') =
    (if goRight keysPressed then 1 else if goLeft keysPressed then -1
     else Entity.direction (player s)).
Proof.
  intros Hst s' p p' dx dy. subst s' p'. rewrite (update_playing heading _ _ _ Hst).
  rewrite tick_player.
  assert (Hd : forall q, Entity.pos (damaged q) = Entity.pos q /\
                         Entity.direction (damaged q) = Entity.direction q)
    by (intros q; split; reflexivity).
  assert (Hm : (exists nx, (nx == Vector2.x p + dx)%Q /\
                  Vector2.x (Entity.pos (movedPlayer keysPressed s)) =
                  (if checkCollision (grid s) nx (Vector2.y p) then Vector2.x p else nx)) /\
               (exists ny, (ny == Vector2.y p + dy)%Q /\
                  Vector2.y (Entity.pos (movedPlayer keysPressed s)) =
                  (if checkCollision (grid s)
                        (Vector2.x (Entity.pos (movedPlayer keysPressed s))) ny
                   then Vector2.y p else ny)) /\
               Entity.direction (movedPlayer keysPressed s) =
                 (if goRight keysPressed then 1 else if goLeft keysPressed then -1
                  else Entity.direction (player s))).
  { unfold movedPlayer.
    pose proof (readKeys_intent keysPressed
                  (decayDamageCooldown (decayAttackCooldown (player s)))) as Hr.
    destruct (readKeys keysPressed _) as [[ddx ddy] p1].
    destruct Hr as (Hdx & Hdy & Hdir & Hpos).
    destruct (decay_direction (player s)) as [Hdir0 Hpos0].
    rewrite Hdir0 in Hdir. rewrite Hpos0 in Hpos. fold p in Hpos.
    unfold movePlayer. rewrite Hpos.
    cbn [Entity.pos Entity.with_pos Entity.direction]. rewrite Hdir.
    split; [|split; [|reflexivity]].
    - exists (Vector2.x p + ddx)%Q. split; [rewrite Hdx; reflexivity|].
      destruct (checkCollision (grid s) (Vector2.x p + ddx) (Vector2.y p));
        destruct (checkCollision _ _ _); reflexivity.
    - exists (Vector2.y p + ddy)%Q. split; [rewrite Hdy; reflexivity|].
      destruct (checkCollision (grid s) (Vector2.x p + ddx) (Vector2.y p));
        cbn [Vector2.x Vector2.y];
        destruct (checkCollision (grid s) _ (Vector2.y p + ddy)) eqn:E2;
        cbn [Vector2.x Vector2.y]; rewrite ?E2; reflexivity. }
  assert (Hgoal : forall q, Entity.pos q = Entity.pos (movedPlayer keysPressed s) ->
            Entity.direction q = Entity.direction (movedPlayer keysPressed s) ->
            (exists nx, (nx == Vector2.x p + dx)%Q /\
               Vector2.x (Entity.pos q) =
               (if checkCollision (grid s) nx (Vector2.y p) then Vector2.x p else nx)) /\
            (exists ny, (ny == Vector2.y p + dy)%Q /\
               Vector2.y (Entity.pos q) =
               (if checkCollision (grid s) (Vector2.x (Entity.pos q)) ny
                then Vector2.y p else ny)) /\
            (Vector2.x p - 5 <= Vector2.x (Entity.pos q) <= Vector2.x p + 5)%Q /\
            (Vector2.y p - 5 <= Vector2.y (Entity.pos q) <= Vector2.y p + 5)%Q /\
            Entity.direction q =
              (if goRight keysPressed then 1 else if goLeft keysPressed then -1
               else Entity.direction (player s))).
  { intros q -> ->. destruct Hm as ((nx & Hnx & Ex) & (ny & Hny & Ey) & Hdir).
    split; [exists nx; split; assumption|]. split; [exists ny; split; assumption|].
    split; [|split; [|exact Hdir]].
    - rewrite Ex. subst dx. unfold axisIntent in Hnx.
      destruct (checkCollision _ nx _); [lra|].
      destruct (goLeft keysPressed), (goRight keysPressed); lra.
    - rewrite Ey. subst dy. unfold axisIntent in Hny.
      destruct (checkCollision _ _ ny); [lra|].
      destruct (goUp keysPressed), (goDown keysPressed); lra. }
  destruct (_ && _); apply Hgoal; try reflexivity.
Qed.

(** X17 on the surface, walking right. *)
Lemma player_step_follows_keys_witness :
  status (surfaceState initialPlayer []) = PLAYING /\
  Entity.direction
    (player (update axisHeading ["KeyD"%string] sampleRnd (surfaceState initialPlayer [])))
  = 1.
Proof.
  split; [reflexivity|].
  apply (player_step_follows_keys axisHeading ["KeyD"%string] sampleRnd
           (surfaceState initialPlayer []) eq_refl).
Defined.

(** ** Where hostiles start *)

Lemma spawnEnemy_place rnd n i :
  unit_draws rnd ->
  let e := spawnEnemy rnd n i in
  (0 <= Vector2.x (Entity.pos e))%Q /\ (Vector2.x (Entity.pos e) < 1600)%Q /\
  (600 <= Vector2.y (Entity.pos e))%Q /\ (Vector2.y (Entity.pos e) < 2400)%Q.
Proof.
  intros Hrnd. destruct (Hrnd n) as [Hx0 Hx1]. destruct (Hrnd (n + 1)%nat) as [Hy0 Hy1].
  unfold spawnEnemy. cbn [Entity.pos Vector2.x Vector2.y].
  unfold GRID_WIDTH, GRID_HEIGHT, TILE_SIZE.
  change (inject_Z (60 - 15)) with 45%Q. change (inject_Z 40) with 40%Q.
  repeat split; lra.
Qed.

Lemma spawnEnemy_out_of_sight rnd n i :
  unit_draws rnd -> inAggroRange (Entity.pos initialPlayer) (spawnEnemy rnd n i) = false.
Proof.
  intros Hrnd. destruct (spawnEnemy_place rnd n i Hrnd) as (_ & _ & Hy & _).
  unfold inAggroRange, hypot_lt. apply Qltb_false.
  set (e := spawnEnemy rnd n i) in *.
  assert (Hb : (Vector2.y (Entity.pos initialPlayer) - Vector2.y (Entity.pos e) <= -440)%Q).
  { unfold initialPlayer, TILE_SIZE. cbn [Entity.pos Vector2.y].
    change (inject_Z 40) with 40%Q. lra. }
  set (a := (Vector2.x (Entity.pos initialPlayer) - Vector2.x (Entity.pos e))%Q).
  set (b := (Vector2.y (Entity.pos initialPlayer) - Vector2.y (Entity.pos e))%Q) in *.
  nra.
Qed.

(** X18.  A new game.  A started game is PLAYING with the three counters
    at 0, the player at full health 200 at the spawn point (800, 160), and
    twelve hostiles, each at full health 100.  With every draw in [0, 1)
    each hostile starts at 0 <= x < 1600 and 600 <= y < 2400, at least 440
    pixels below the player and so outside the 250 pixel range in which
    hostiles chase. *)
Theorem new_game_layout (fuel : nat) (rnd : Rand) (s0 : GameState) :
  unit_draws rnd ->
  startGame fuel rnd = Some s0 ->
  status s0 = PLAYING /\
  shardsCollected s0 = 0 /\ goldCollected s0 = 0 /\ diamondsCollected s0 = 0 /\
  Entity.health (player s0) = 200 /\ Entity.maxHealth (player s0) = 200 /\
  (Vector2.x (Entity.pos (player s0)) == 800)%Q /\
  (Vector2.y (Entity.pos (player s0)) == 160)%Q /\
  length (enemies s0) = 12%nat /\
  Forall (fun e =>
            Entity.health e = 100 /\ Entity.maxHealth e = 100 /\
            (Entity.type e = ZOMBIE \/ Entity.type e = CREEPER) /\
            (0 <= Vector2.x (Entity.pos e))%Q /\ (Vector2.x (Entity.pos e) < 1600)%Q /\
            (600 <= Vector2.y (Entity.pos e))%Q /\ (Vector2.y (Entity.pos e) < 2400)%Q /\
            inAggroRange (Entity.pos (player s0)) e = false)
         (enemies s0).
Proof.
  intros Hrnd Hgen.
  assert (Hc : goldCollected s0 = 0 /\ diamondsCollected s0 = 0).
  { revert Hgen. unfold startGame, initGame.
    destruct (caves rnd 15 0 layeredGrid) as [g0 n0].
    destruct (placeResource fuel rnd SHARD 15 12 0 n0 g0) as [[g1 n1]|]; [|discriminate].
    destruct (placeResource fuel rnd GOLD GOLD_COUNT 20 0 n1 g1) as [[g2 n2]|];
      [|discriminate].
    destruct (placeResource fuel rnd DIAMOND DIAMOND_COUNT 40 0 n2 g2) as [[g3 n3]|];
      [|discriminate].
    intros [= <-]. split; reflexivity. }
  destruct Hc as [Hg Hd].
  destruct (startGame_shape fuel rnd s0 Hgen) as (Hst & Hp & Hsh & _ & _ & n & Hes).
  rewrite Hp, Hes.
  split; [exact Hst|]. split; [exact Hsh|]. split; [exact Hg|]. split; [exact Hd|].
  split; [reflexivity|]. split; [reflexivity|].
  split; [vm_compute; reflexivity|]. split; [vm_compute; reflexivity|].
  split; [rewrite length_map, length_seq; reflexivity|].
  apply Forall_forall. intros e He.
  apply list_elem_of_In, in_map_iff in He as (i & <- & _).
  destruct (spawnEnemy_place rnd (n + 3 * i) i Hrnd) as (X0 & X1 & Y0 & Y1).
  split; [reflexivity|]. split; [reflexivity|].
  split; [unfold spawnEnemy; cbn [Entity.type]; destruct (Qltb _ _); auto|].
  split; [exact X0|]. split; [exact X1|]. split; [exact Y0|]. split; [exact Y1|].
  apply spawnEnemy_out_of_sight, Hrnd.
Qed.

(** X18 on the sample world. *)
Lemma new_game_layout_witness :
  unit_draws sampleRnd /\
  exists s0, startGame 1000 sampleRnd = Some s0 /\ length (enemies s0) = 12%nat.
Proof.
  split; [exact sampleRnd_unit|].
  destruct (startGame 1000 sampleRnd) as [s0|] eqn:E.
  - exists s0. split; [reflexivity|].
    apply (new_game_layout 1000 sampleRnd s0 sampleRnd_unit E).
  - exfalso. exact (sampleWorld_generated E).
Defined.
